(** * go-in-js: the host-side bridge of [src/Go.js]

    A shallow embedding of the [Go] class: the byte memory view over the
    instance's linear memory, the value table with its boxed 8-byte wire
    format, the syscall and reflective-dispatch imports, and the run loop.

    Conventions of the embedding.
    - The linear memory ([instance.exports.mem.buffer]) is a [list byte];
      a [DataView] access outside of it raises [RangeError].
    - A JS number that the code uses as an integer (addresses, lengths,
      table indices, 32-bit words) is a [Z]; [ToInt32]/[ToUint32] and the
      rounding of double arithmetic are written out.
    - A JS number that travels through the boxed wire format is a
      [number]: NaN, or the 64-bit pattern of a binary64 that is not NaN.
    - A method is a function in the monad [M]: it threads the [Go] object
      and either completes normally or throws. *)

From Stdlib Require Import ZArith Lia List String Ascii.
From stdpp Require Import gmap strings list pretty sorting.
From coqutil Require Import Byte Word.LittleEndianList.
Local Open Scope Z_scope.

(** ** Integer conversions of the host *)

Definition ToUint32 (z : Z) : Z := z mod 2 ^ 32.

Definition ToInt32 (z : Z) : Z := (z + 2 ^ 31) mod 2 ^ 32 - 2 ^ 31.

(** The double nearest to an integer (ties to even): the identity up to
    2^53, and a multiple of a power of two beyond. *)
Definition round_to_double (z : Z) : Z :=
  let a := Z.abs z in
  let k := Z.log2 a in
  if k <? 53 then z
  else
    let s := k - 52 in
    let q := Z.shiftr a s in
    let r := a - Z.shiftl q s in
    let half := 2 ^ (s - 1) in
    let q' := if r <? half then q
              else if half <? r then q + 1
              else if Z.even q then q else q + 1 in
    Z.sgn z * Z.shiftl q' s.

(** ** ArrayBuffer and DataView *)

Module ArrayBuffer.

Definition in_range (buf : list byte) (off len : Z) : bool :=
  (0 <=? off) && (0 <=? len) && (off + len <=? Z.of_nat (length buf)).

(** The [len] bytes at [off]; [None] outside of the buffer. *)
Definition slice (buf : list byte) (off len : Z) : option (list byte) :=
  if in_range buf off len
  then Some (take (Z.to_nat len) (drop (Z.to_nat off) buf))
  else None.

(** Overwrite the bytes at [off] with [src]; [None] outside of the buffer. *)
Definition blit (buf : list byte) (off : Z) (src : list byte) : option (list byte) :=
  if in_range buf off (Z.of_nat (length src))
  then Some (take (Z.to_nat off) buf ++ src
             ++ drop (Z.to_nat off + length src)%nat buf)
  else None.

End ArrayBuffer.

(** A binary64 by its bit pattern. The host has one NaN. *)
Module Float64.

Inductive number :=
| NaN
| Float (bits : Z).

Definition exponent_field (b : Z) : Z := Z.land (Z.shiftr b 52) 0x7FF.
Definition mantissa_field (b : Z) : Z := Z.land b (Z.ones 52).

Definition is_nan_pattern (b : Z) : bool :=
  (exponent_field b =? 0x7FF) && negb (mantissa_field b =? 0).

Definition of_bits (b : Z) : number :=
  if is_nan_pattern b then NaN else Float b.

Definition canonical_nan : Z := 0x7FF8000000000000.

Definition to_bits (x : number) : Z :=
  match x with
  | NaN => canonical_nan
  | Float b => b
  end.

Definition isNaN (x : number) : bool :=
  match x with
  | NaN => true
  | Float _ => false
  end.

(** [Float b] stands for a double when [b] is a 64-bit pattern other
    than a NaN pattern: a zero, a subnormal, a normal or an infinity. *)
Definition wf (x : number) : Prop :=
  match x with
  | NaN => True
  | Float b => 0 <= b < 2 ^ 64 /\ is_nan_pattern b = false
  end.

Definition is_finite (x : number) : Prop :=
  match x with
  | NaN => False
  | Float b => 0 <= b < 2 ^ 64 /\ exponent_field b <> 0x7FF
  end.

End Float64.
Export Float64.

(** Little-endian accessors of a [DataView] over the whole buffer
    ([littleEndian = true] at every call site but [setUint8]). *)
Module DataView.

Definition getUint8 (buf : list byte) (off : Z) : option Z :=
  le_combine <$> ArrayBuffer.slice buf off 1.

Definition getInt32 (buf : list byte) (off : Z) : option Z :=
  (fun bs => ToInt32 (le_combine bs)) <$> ArrayBuffer.slice buf off 4.

Definition getUint32 (buf : list byte) (off : Z) : option Z :=
  le_combine <$> ArrayBuffer.slice buf off 4.

Definition getFloat64 (buf : list byte) (off : Z) : option number :=
  (fun bs => Float64.of_bits (le_combine bs)) <$> ArrayBuffer.slice buf off 8.

Definition setUint8 (buf : list byte) (off : Z) (v : Z) : option (list byte) :=
  ArrayBuffer.blit buf off (le_split 1 v).

Definition setInt32 (buf : list byte) (off : Z) (v : Z) : option (list byte) :=
  ArrayBuffer.blit buf off (le_split 4 v).

Definition setUint32 (buf : list byte) (off : Z) (v : Z) : option (list byte) :=
  ArrayBuffer.blit buf off (le_split 4 v).

Definition setFloat64 (buf : list byte) (off : Z) (x : number) : option (list byte) :=
  ArrayBuffer.blit buf off (le_split 8 (Float64.to_bits x)).

End DataView.

(** ** Host values *)

Inductive error_kind :=
| KError (msg : string)
| KTypeError
| KRangeError.

(** Objects are known by identity. *)
Inductive objref :=
| InternalGlobal
| WasmMemory (n : nat)
| GoInstance (n : nat)
| HostObject (n : nat)
| ErrorObject (k : error_kind) (serial : nat).

Inductive jsval :=
| VNumber (x : number)
| VUndefined
| VNull
| VBool (b : bool)
| VString (s : string)
| VSymbol (n : nat)
| VFunction (n : nat)
| VObject (o : objref).

Definition typeof (v : jsval) : string :=
  match v with
  | VNumber _ => "number"
  | VUndefined => "undefined"
  | VNull => "object"
  | VBool _ => "boolean"
  | VString _ => "string"
  | VSymbol _ => "symbol"
  | VFunction _ => "function"
  | VObject _ => "object"
  end.

Definition internalGlobal : jsval := VObject InternalGlobal.

#[global] Instance number_eq_dec : EqDecision number.
Proof. solve_decision. Defined.
#[global] Instance error_kind_eq_dec : EqDecision error_kind.
Proof. solve_decision. Defined.
#[global] Instance objref_eq_dec : EqDecision objref.
Proof. solve_decision. Defined.
#[global] Instance jsval_eq_dec : EqDecision jsval.
Proof. solve_decision. Defined.

Definition jsval_code (v : jsval) : gen_tree (Z + string) :=
  match v with
  | VNumber NaN => GenNode 0 []
  | VNumber (Float b) => GenNode 1 [GenLeaf (inl b)]
  | VUndefined => GenNode 2 []
  | VNull => GenNode 3 []
  | VBool b => GenNode 4 [GenLeaf (inl (if b then 1 else 0))]
  | VString s => GenNode 5 [GenLeaf (inr s)]
  | VSymbol n => GenNode 6 [GenLeaf (inl (Z.of_nat n))]
  | VFunction n => GenNode 7 [GenLeaf (inl (Z.of_nat n))]
  | VObject InternalGlobal => GenNode 8 []
  | VObject (WasmMemory n) => GenNode 9 [GenLeaf (inl (Z.of_nat n))]
  | VObject (GoInstance n) => GenNode 10 [GenLeaf (inl (Z.of_nat n))]
  | VObject (HostObject n) => GenNode 11 [GenLeaf (inl (Z.of_nat n))]
  | VObject (ErrorObject (KError m) n) =>
      GenNode 12 [GenLeaf (inr m); GenLeaf (inl (Z.of_nat n))]
  | VObject (ErrorObject KTypeError n) => GenNode 13 [GenLeaf (inl (Z.of_nat n))]
  | VObject (ErrorObject KRangeError n) => GenNode 14 [GenLeaf (inl (Z.of_nat n))]
  end.

Definition jsval_decode (t : gen_tree (Z + string)) : option jsval :=
  match t with
  | GenNode 0 [] => Some (VNumber NaN)
  | GenNode 1 [GenLeaf (inl b)] => Some (VNumber (Float b))
  | GenNode 2 [] => Some VUndefined
  | GenNode 3 [] => Some VNull
  | GenNode 4 [GenLeaf (inl b)] => Some (VBool (b =? 1))
  | GenNode 5 [GenLeaf (inr s)] => Some (VString s)
  | GenNode 6 [GenLeaf (inl n)] => Some (VSymbol (Z.to_nat n))
  | GenNode 7 [GenLeaf (inl n)] => Some (VFunction (Z.to_nat n))
  | GenNode 8 [] => Some (VObject InternalGlobal)
  | GenNode 9 [GenLeaf (inl n)] => Some (VObject (WasmMemory (Z.to_nat n)))
  | GenNode 10 [GenLeaf (inl n)] => Some (VObject (GoInstance (Z.to_nat n)))
  | GenNode 11 [GenLeaf (inl n)] => Some (VObject (HostObject (Z.to_nat n)))
  | GenNode 12 [GenLeaf (inr m); GenLeaf (inl n)] =>
      Some (VObject (ErrorObject (KError m) (Z.to_nat n)))
  | GenNode 13 [GenLeaf (inl n)] => Some (VObject (ErrorObject KTypeError (Z.to_nat n)))
  | GenNode 14 [GenLeaf (inl n)] => Some (VObject (ErrorObject KRangeError (Z.to_nat n)))
  | _ => None
  end.

#[global] Program Instance jsval_countable : Countable jsval :=
  inj_countable jsval_code jsval_decode _.
Next Obligation.
  intros [[|b]| | |[|]|s|n|n|[|n|n|n|[m| |] n]]; simpl;
    rewrite ?Nat2Z.id; reflexivity.
Qed.

(** ** The bridge object and its host *)

(** [res.instance]: the identity of its exported memory object, and the
    bytes of [exports.mem.buffer]. *)
Record Instance := {
  exports_mem : nat;
  buffer : list byte
}.

(** A property that holds a number the code increments: absent
    ([undefined]), NaN, or an integer. *)
Inductive counter :=
| CUndefined
| CNaN
| CInt (z : Z).

(** What a host timer does when it elapses: call
    [this._resolveCallbackPromise()], or resolve a promise of the run
    loop. *)
Inductive task :=
| CallResolver
| ResolvePromise (p : nat).

Record timer := {
  handle : nat;
  delay : Z;
  action : task
}.

(** The part of the host that the methods reach: pending timers, fresh
    identities, and the log of the calls of the guest's entry point
    ([argc], [argv] of each [instance.exports.run]). *)
Record Host := {
  timers : list timer;
  next_handle : nat;
  next_promise : nat;
  next_error : nat;
  entry_calls : list (Z * Z)
}.

Record Go := {
  this_id : nat;
  env : gmap string string;
  instance : option Instance;
  _refs : option (gmap jsval Z);
  _values : option (list jsval);
  _callbackShutdown : bool;
  exited : bool;
  running : bool;
  _nextCallbackTimeoutID : counter;
  _callbackTimeouts : option (list (counter * nat));
  _resolveCallbackPromise : option nat;
  host : Host
}.

Definition set_env (x : gmap string string) (g : Go) : Go :=
  let '(Build_Go a _ c d e f h i j k l m) := g in Build_Go a x c d e f h i j k l m.
Definition set_instance (x : option Instance) (g : Go) : Go :=
  let '(Build_Go a b _ d e f h i j k l m) := g in Build_Go a b x d e f h i j k l m.
Definition set_refs (x : option (gmap jsval Z)) (g : Go) : Go :=
  let '(Build_Go a b c _ e f h i j k l m) := g in Build_Go a b c x e f h i j k l m.
Definition set_values (x : option (list jsval)) (g : Go) : Go :=
  let '(Build_Go a b c d _ f h i j k l m) := g in Build_Go a b c d x f h i j k l m.
Definition set_callbackShutdown (x : bool) (g : Go) : Go :=
  let '(Build_Go a b c d e _ h i j k l m) := g in Build_Go a b c d e x h i j k l m.
Definition set_exited (x : bool) (g : Go) : Go :=
  let '(Build_Go a b c d e f _ i j k l m) := g in Build_Go a b c d e f x i j k l m.
Definition set_running (x : bool) (g : Go) : Go :=
  let '(Build_Go a b c d e f h _ j k l m) := g in Build_Go a b c d e f h x j k l m.
Definition set_nextCallbackTimeoutID (x : counter) (g : Go) : Go :=
  let '(Build_Go a b c d e f h i _ k l m) := g in Build_Go a b c d e f h i x k l m.
Definition set_callbackTimeouts (x : option (list (counter * nat))) (g : Go) : Go :=
  let '(Build_Go a b c d e f h i j _ l m) := g in Build_Go a b c d e f h i j x l m.
Definition set_resolveCallbackPromise (x : option nat) (g : Go) : Go :=
  let '(Build_Go a b c d e f h i j k _ m) := g in Build_Go a b c d e f h i j k x m.
Definition set_host (x : Host) (g : Go) : Go :=
  let '(Build_Go a b c d e f h i j k l _) := g in Build_Go a b c d e f h i j k l x.

Definition this (g : Go) : jsval := VObject (GoInstance (this_id g)).

(** ** Completions: a method returns or throws *)

Inductive exn :=
| Thrown (v : jsval)
| Raised (k : error_kind).

Inductive completion (A : Type) :=
| Normal (a : A)
| Throw (e : exn).
Arguments Normal {A} a.
Arguments Throw {A} e.

Definition M (A : Type) : Type := Go -> completion A * Go.

Definition ret {A} (a : A) : M A := fun g => (Normal a, g).

Definition throw {A} (e : exn) : M A := fun g => (Throw e, g).

Definition bind {A B} (m : M A) (f : A -> M B) : M B :=
  fun g =>
    match m g with
    | (Normal a, g') => f a g'
    | (Throw e, g') => (Throw e, g')
    end.

Definition try_catch {A} (body : M A) (handler : exn -> M A) : M A :=
  fun g =>
    match body g with
    | (Normal a, g') => (Normal a, g')
    | (Throw e, g') => handler e g'
    end.

Definition get_state : M Go := fun g => (Normal g, g).

Definition modify (f : Go -> Go) : M unit := fun g => (Normal tt, f g).

Notation "'let!' x ':=' m 'in' k" := (bind m (fun x => k))
  (at level 10, x name, m at level 100, k at level 200).
Notation "m '>>>' k" := (bind m (fun _ => k))
  (at level 90, right associativity).

(** A [DataView] access outside of the buffer throws [RangeError]. *)
Definition checked {A} (r : option A) : M A :=
  match r with
  | Some a => ret a
  | None => throw (Raised KRangeError)
  end.

(** Reading a property of an absent object throws [TypeError]. *)
Definition defined {A} (r : option A) : M A :=
  match r with
  | Some a => ret a
  | None => throw (Raised KTypeError)
  end.

(** The value bound by [catch (err)]: what host code threw, or the error
    object of a runtime failure, which gets its identity here. *)
Definition caught (e : exn) : M jsval :=
  match e with
  | Thrown v => ret v
  | Raised k =>
      fun g =>
        let h := host g in
        (Normal (VObject (ErrorObject k (next_error h))),
         set_host (Build_Host (timers h) (next_handle h) (next_promise h)
                              (S (next_error h)) (entry_calls h)) g)
  end.

(** ** Memory utilities (the [memory util] region) *)

(** [get memRaw]: [this.instance.exports.mem.buffer]. *)
Definition memRaw : M (list byte) :=
  let! g := get_state in
  let! i := defined (instance g) in
  ret (buffer i).

(** The bridge with the bytes of its memory replaced: what a [DataView]
    setter leaves. *)
Definition with_memory (buf : list byte) (g : Go) : Go :=
  match instance g with
  | Some i => set_instance (Some (Build_Instance (exports_mem i) buf)) g
  | None => g
  end.

Definition write_memRaw (buf : list byte) : M unit :=
  modify (with_memory buf).

Definition getInt32 (addr : Z) : M Z :=
  let! buf := memRaw in
  checked (DataView.getInt32 buf (addr + 0)).

Definition getInt64 (addr : Z) : M Z :=
  let! low := getInt32 (addr + 0) in
  let! high := getInt32 (addr + 4) in
  ret (round_to_double (low + round_to_double (high * 4294967296))).

Definition getUint32 (addr : Z) : M Z :=
  let! buf := memRaw in
  checked (DataView.getUint32 buf (addr + 0)).

Definition getFloat64 (addr : Z) : M number :=
  let! buf := memRaw in
  checked (DataView.getFloat64 buf addr).

Definition setUint8 (addr val : Z) : M unit :=
  let! buf := memRaw in
  let! buf' := checked (DataView.setUint8 buf (addr + 0) val) in
  write_memRaw buf'.

Definition setInt32 (addr val : Z) : M unit :=
  let! buf := memRaw in
  let! buf' := checked (DataView.setInt32 buf (addr + 0) val) in
  write_memRaw buf'.

Definition setUint32 (addr val : Z) : M unit :=
  let! buf := memRaw in
  let! buf' := checked (DataView.setUint32 buf (addr + 0) val) in
  write_memRaw buf'.

(** [Math.floor(val / 4294967296)] of an integer is [val / 4294967296]
    on [Z] (division by a power of two is exact in a double). *)
Definition setInt64 (addr val : Z) : M unit :=
  setUint32 (addr + 0) val >>>
  setUint32 (addr + 4) (val / 4294967296).

Definition setFloat64 (addr : Z) (val : number) : M unit :=
  let! buf := memRaw in
  let! buf' := checked (DataView.setFloat64 buf (addr + 0) val) in
  write_memRaw buf'.

(** [new Uint8Array(this.memRaw, array, len)]: the view is kept as its
    offset and length; creating it outside of the buffer throws. *)
Definition loadSlice (addr : Z) : M (Z * Z) :=
  let! array := getInt64 (addr + 0) in
  let! len := getInt64 (addr + 8) in
  let! buf := memRaw in
  let! _ := checked (ArrayBuffer.slice buf array len) in
  ret (array, len).

Definition loadValue (addr : Z) : M jsval :=
  let! f := getFloat64 addr in
  if negb (isNaN f) then ret (VNumber f)
  else
    let! id := getUint32 addr in
    let! g := get_state in
    let! values := defined (_values g) in
    ret (default VUndefined (values !! Z.to_nat id)).

(** [new Array(len)] throws [RangeError] unless [len] is an integer in
    [0, 2^32); the loop then loads [len] boxed values. *)
Fixpoint loadValues (array : Z) (n : nat) (i : Z) : M (list jsval) :=
  match n with
  | O => ret []
  | S n' =>
      let! v := loadValue (array + i * 8) in
      let! rest := loadValues array n' (i + 1) in
      ret (v :: rest)
  end.

Definition loadSliceOfValues (addr : Z) : M (list jsval) :=
  let! array := getInt64 (addr + 0) in
  let! len := getInt64 (addr + 8) in
  if (len <? 0) || (2 ^ 32 <=? len) then throw (Raised KRangeError)
  else loadValues array (Z.to_nat len) 0.

Definition nanHead : Z := 0x7FF80000.

(** [this._values.push(v)]: an array holds at most 2^32 - 1 elements. *)
Definition push_value (v : jsval) : M unit :=
  let! g := get_state in
  let! values := defined (_values g) in
  if 2 ^ 32 - 1 <=? Z.of_nat (length values) then throw (Raised KRangeError)
  else modify (set_values (Some (values ++ [v]))).

(** The [switch (typeof v)] of [storeValue]. *)
Definition typeFlag (v : jsval) : Z :=
  if String.eqb (typeof v) "string" then 1
  else if String.eqb (typeof v) "symbol" then 2
  else if String.eqb (typeof v) "function" then 3
  else 0.

Definition storeValue (addr : Z) (v : jsval) : M unit :=
  match v with
  | VNumber x =>
      if isNaN x then
        setUint32 (addr + 4) nanHead >>>
        setUint32 addr 0
      else setFloat64 addr x
  | VUndefined =>
      setUint32 (addr + 4) nanHead >>>
      setUint32 addr 1
  | VNull =>
      setUint32 (addr + 4) nanHead >>>
      setUint32 addr 2
  | VBool true =>
      setUint32 (addr + 4) nanHead >>>
      setUint32 addr 3
  | VBool false =>
      setUint32 (addr + 4) nanHead >>>
      setUint32 addr 4
  | _ =>
      let! g := get_state in
      let! refs := defined (_refs g) in
      let! ref :=
        match refs !! v with
        | Some ref => ret ref
        | None =>
            let! values := defined (_values g) in
            let ref := Z.of_nat (length values) in
            push_value v >>>
            modify (set_refs (Some (<[v := ref]> refs))) >>>
            ret ref
        end in
      setUint32 (addr + 4) (Z.lor nanHead (typeFlag v)) >>>
      setUint32 addr ref
  end.


(** ** Syscall emulation (the [runtime] region) *)

(** [setTimeout(callback, delay)]: a fresh handle. *)
Definition setTimeout (a : task) (d : Z) : M nat :=
  fun g =>
    let h := host g in
    (Normal (next_handle h),
     set_host (Build_Host (timers h ++ [Build_timer (next_handle h) d a])
                          (S (next_handle h)) (next_promise h)
                          (next_error h) (entry_calls h)) g).

(** [clearTimeout(t)]; [clearTimeout(undefined)] does nothing. *)
Definition clearTimeout (t : option nat) : M unit :=
  match t with
  | None => ret tt
  | Some n =>
      modify (fun g =>
        let h := host g in
        set_host (Build_Host
                    (filter (fun x => handle x <> n) (timers h))
                    (next_handle h) (next_promise h)
                    (next_error h) (entry_calls h)) g)
  end.

#[global] Instance counter_eq_dec : EqDecision counter.
Proof. solve_decision. Defined.

(** [x++] stores [ToNumber(x) + 1]. *)
Definition increment (c : counter) : counter :=
  match c with
  | CUndefined => CNaN
  | CNaN => CNaN
  | CInt z => CInt (round_to_double (z + 1))
  end.

(** The integer that [DataView.setInt32] converts: NaN and [undefined]
    become 0. *)
Definition counter_integer (c : counter) : Z :=
  match c with
  | CInt z => z
  | _ => 0
  end.

(** A [Map] keyed by such numbers, in insertion order. *)
Fixpoint Map_set {V} (k : counter) (v : V) (m : list (counter * V)) : list (counter * V) :=
  match m with
  | [] => [(k, v)]
  | (k', v') :: rest =>
      if decide (k' = k) then (k, v) :: rest else (k', v') :: Map_set k v rest
  end.

Fixpoint Map_get {V} (k : counter) (m : list (counter * V)) : option V :=
  match m with
  | [] => None
  | (k', v') :: rest => if decide (k' = k) then Some v' else Map_get k rest
  end.

Definition Map_delete {V} (k : counter) (m : list (counter * V)) : list (counter * V) :=
  filter (fun e => e.1 <> k) m.

(** The closure that [run] stores in [this._resolveCallbackPromise]
    (lines 102-107), called as [this._resolveCallbackPromise()]. Before
    the first iteration the property is absent and the call throws. *)
Definition resolveCallbackPromise : M unit :=
  let! g := get_state in
  let! p := defined (_resolveCallbackPromise g) in
  if exited g then
    throw (Raised (KError "bad callback: Go program has already exited"))
  else
    let! _ := setTimeout (ResolvePromise p) 0 in
    ret tt.

Definition scheduleCallback (addr : Z) : M unit :=
  let! g := get_state in
  let id := _nextCallbackTimeoutID g in
  modify (set_nextCallbackTimeoutID (increment id)) >>>
  let! timeouts := defined (_callbackTimeouts g) in
  let! d := getInt64 (addr + 8) in
  let! t := setTimeout CallResolver (round_to_double (d + 1)) in
  modify (set_callbackTimeouts (Some (Map_set id t timeouts))) >>>
  setInt32 (addr + 16) (counter_integer id).

Definition clearScheduledCallback (addr : Z) : M unit :=
  let! buf := memRaw in
  let! id := checked (DataView.getInt32 buf (addr + 8)) in
  let! g := get_state in
  let! timeouts := defined (_callbackTimeouts g) in
  clearTimeout (Map_get (CInt id) timeouts) >>>
  modify (set_callbackTimeouts (Some (Map_delete (CInt id) timeouts))).

Section Exit.

(** [this.exit]: the embedder's callback ([() => { }] unless replaced). *)
Variable exit : Z -> M unit.

Definition wasmExit (addr : Z) : M unit :=
  let! code := getInt32 (addr + 8) in
  modify (set_exited true) >>>
  modify (set_values None) >>>
  modify (set_refs None) >>>
  exit code.

End Exit.

(** The callback that the constructor installs. *)
Definition default_exit (code : Z) : M unit := ret tt.

(** ** Reflective dispatch (the [syscall/js] region) *)

Section Dispatch.

(** The host's object model and the text decoder are outside of the
    bridge: property read [obj[name]], [Reflect.apply],
    [Reflect.construct] and [decoder.decode]. Host code may reach the
    bridge again, so each runs in [M]. *)
Variable js_get : jsval -> string -> M jsval.
Variable Reflect_apply : jsval -> jsval -> list jsval -> M jsval.
Variable Reflect_construct : jsval -> list jsval -> M jsval.
Variable decode : list byte -> string.

Definition loadString (addr : Z) : M string :=
  let! saddr := getInt64 (addr + 0) in
  let! len := getInt64 (addr + 8) in
  let! buf := memRaw in
  let! bytes := checked (ArrayBuffer.slice buf saddr len) in
  ret (decode bytes).

Definition stringVal (addr : Z) : M unit :=
  let! s := loadString (addr + 8) in
  storeValue (addr + 24) (VString s).

Definition valueGet (addr : Z) : M unit :=
  let! obj := loadValue (addr + 8) in
  let! prop := loadString (addr + 16) in
  let! val := js_get obj prop in
  storeValue (addr + 32) val.

Definition valueCall (addr : Z) : M unit :=
  try_catch
    (let! obj := loadValue (addr + 8) in
     let! name := loadString (addr + 16) in
     let! method := js_get obj name in
     let! args := loadSliceOfValues (addr + 32) in
     let! r := Reflect_apply method obj args in
     storeValue (addr + 56) r >>>
     setUint8 (addr + 64) 1)
    (fun e =>
     let! err := caught e in
     storeValue (addr + 56) err >>>
     setUint8 (addr + 64) 0).

Definition valueInvoke (addr : Z) : M unit :=
  try_catch
    (let! obj := loadValue (addr + 8) in
     let! args := loadSliceOfValues (addr + 16) in
     let! r := Reflect_apply obj VUndefined args in
     storeValue (addr + 40) r >>>
     setUint8 (addr + 48) 1)
    (fun e =>
     let! err := caught e in
     storeValue (addr + 40) err >>>
     setUint8 (addr + 48) 0).

Definition valueNew (addr : Z) : M unit :=
  try_catch
    (let! obj := loadValue (addr + 8) in
     let! args := loadSliceOfValues (addr + 16) in
     let! r := Reflect_construct obj args in
     storeValue (addr + 40) r >>>
     setUint8 (addr + 48) 1)
    (fun e =>
     let! err := caught e in
     storeValue (addr + 40) err >>>
     setUint8 (addr + 48) 0).

End Dispatch.

(** ** Module lifecycle *)

(** [load()] up to its [await]: lines 32-36. *)
Definition load_begin (g : Go) : Go :=
  set_running false
    (set_exited false
      (set_callbackShutdown false
        (set_refs (Some ∅) g))).

(** [load()] once [WebAssembly.instantiate] has given [res]: lines 38-48. *)
Definition load_finish (inst : Instance) (g : Go) : Go :=
  let g := set_instance (Some inst) g in
  set_values (Some [VNumber NaN; VUndefined; VNull; VBool true; VBool false;
                    internalGlobal; VObject (WasmMemory (exports_mem inst));
                    this g]) g.

Definition load (inst : Instance) (g : Go) : Go :=
  load_finish inst (load_begin g).

(** [reset()] starts a new [load()]. *)
Definition reset (inst : Instance) (g : Go) : Go := load inst g.

(** [new Go(filepath)]: the properties the constructor assigns, its call
    of [load()] included. [_values], [_nextCallbackTimeoutID],
    [_callbackTimeouts] and [_resolveCallbackPromise] are not among them. *)
Definition constructor (id : nat) : Go :=
  load_begin
    {| this_id := id; env := ∅; instance := None;
       _refs := None; _values := None;
       _callbackShutdown := false; exited := false; running := false;
       _nextCallbackTimeoutID := CUndefined; _callbackTimeouts := None;
       _resolveCallbackPromise := None;
       host := Build_Host [] 0 0 0 [] |}.

(** [get loaded]: [!!this.instance]. *)
Definition loaded (g : Go) : bool :=
  match instance g with
  | Some _ => true
  | None => false
  end.

(** ** The run loop *)

(** Strings are sequences of code units below 256. [encoder.encode]
    gives one byte to a code unit below 128 and two to the others. *)
Definition code_unit (c : ascii) : Z := Z.of_N (N_of_ascii c).

Fixpoint utf8_encode (s : string) : list byte :=
  match s with
  | EmptyString => []
  | String c rest =>
      let u := code_unit c in
      if u <? 128 then byte.of_Z u :: utf8_encode rest
      else byte.of_Z (Z.lor 0xC0 (Z.shiftr u 6))
           :: byte.of_Z (Z.lor 0x80 (Z.land u 0x3F))
           :: utf8_encode rest
  end.

Definition hex_digit (d : Z) : ascii :=
  ascii_of_N (Z.to_N (if d <? 10 then 48 + d else 87 + d)).

(** [JSON.stringify] of a string: quotes around the escaped code units.
    The embedder passes strings to [run]. *)
Fixpoint JSON_quote (s : string) : string :=
  match s with
  | EmptyString => EmptyString
  | String c rest =>
      let u := code_unit c in
      (if u =? 8 then "\b"
       else if u =? 9 then "\t"
       else if u =? 10 then "\n"
       else if u =? 12 then "\f"
       else if u =? 13 then "\r"
       else if u =? 34 then String "\" (String c EmptyString)
       else if u =? 92 then "\\"
       else if u <? 32 then
         "\u00" +:+ String (hex_digit (u / 16)) (String (hex_digit (u mod 16)) EmptyString)
       else String c EmptyString) +:+ JSON_quote rest
  end.

Definition quotation_mark : ascii := "034".

Definition JSON_stringify (s : string) : string :=
  String quotation_mark (JSON_quote s) +:+ String quotation_mark EmptyString.

Definition NUL : ascii := "000".

(** The local function [strPtr] of [run]; [offset] is threaded. *)
Definition strPtr (str : string) (offset : Z) : M (Z * Z) :=
  let ptr := offset in
  let len := Z.of_nat (String.length str) in
  let! buf := memRaw in
  let! _ := checked (ArrayBuffer.slice buf offset (len + 1)) in
  let bytes := utf8_encode (str +:+ String NUL EmptyString) in
  if len + 1 <? Z.of_nat (length bytes) then throw (Raised KRangeError)
  else
    let! buf' := checked (ArrayBuffer.blit buf offset bytes) in
    write_memRaw buf' >>>
    ret (ptr, offset + (len + (8 - len mod 8))).

Fixpoint strPtrs (strs : list string) (offset : Z) : M (list Z * Z) :=
  match strs with
  | [] => ret ([], offset)
  | str :: rest =>
      let! r := strPtr str offset in
      let! rs := strPtrs rest r.2 in
      ret (r.1 :: rs.1, rs.2)
  end.

(** [argvPtrs.forEach]: a pointer and a zero word per entry. *)
Fixpoint write_ptrs (ptrs : list Z) (offset : Z) : M Z :=
  match ptrs with
  | [] => ret offset
  | ptr :: rest =>
      setUint32 offset ptr >>>
      setUint32 (offset + 4) 0 >>>
      write_ptrs rest (offset + 8)
  end.

(** [Object.keys(this.env).sort()]: by code units. *)
Definition sorted_keys (e : gmap string string) : list string :=
  merge_sort (fun a b => String.leb a b) (map fst (map_to_list e)).

(** [run(...params)] from line 61, once [__loadPromise] is fulfilled, to
    the head of the loop: the guard, the flag, and the argument block.
    Gives [argc] and [argv]. *)
Definition run_prepare (params : list string) : M (Z * Z) :=
  let! g := get_state in
  if negb (Bool.eqb (running g) false) then
    throw (Raised (KError "Go Module already running"))
  else
    modify (set_running true) >>>
    let offset := 4096 in
    let args := "main.wasm"%string :: params in
    let argc := Z.of_nat (length args) in
    let! a := strPtrs (map JSON_stringify args) offset in
    let keys := sorted_keys (env g) in
    let! e := strPtrs (map (fun key => key +:+ "=" +:+ default ""%string (env g !! key)) keys) a.2 in
    let argvPtrs := a.1 ++ [Z.of_nat (length keys)] ++ e.1 in
    let argv := e.2 in
    write_ptrs argvPtrs argv >>>
    ret (argc, argv).

Inductive loop_state :=
| Exited
| Awaiting (p : nat).

Definition new_promise : M nat :=
  fun g =>
    let h := host g in
    (Normal (next_promise h),
     set_host (Build_Host (timers h) (next_handle h) (S (next_promise h))
                          (next_error h) (entry_calls h)) g).

Definition log_entry (argc argv : Z) : M unit :=
  modify (fun g =>
    let h := host g in
    set_host (Build_Host (timers h) (next_handle h) (next_promise h)
                         (next_error h) (entry_calls h ++ [(argc, argv)])) g).

Section RunLoop.

(** [this.instance.exports.run]: the guest's entry point. It reaches
    the bridge through its imports, so it runs in [M]. *)
Variable guest : Z -> Z -> M unit.

(** One turn of [while (true)]: lines 101-113, to the [break] or to
    the [await]. *)
Definition run_iteration (argc argv : Z) : M loop_state :=
  let! p := new_promise in
  modify (set_resolveCallbackPromise (Some p)) >>>
  let! g := get_state in
  let! _ := defined (instance g) in
  log_entry argc argv >>>
  guest argc argv >>>
  let! g := get_state in
  if exited g then ret Exited else ret (Awaiting p).

(** [run(...params)] to its first [await callbackPromise], or to its end. *)
Definition run (params : list string) : M (Z * Z * loop_state) :=
  let! a := run_prepare params in
  let! s := run_iteration a.1 a.2 in
  ret (a, s).

(** When the awaited promise is resolved the loop takes its next turn. *)
Definition run_resume (argc argv : Z) : M loop_state :=
  run_iteration argc argv.

End RunLoop.

(** A timer elapses: it leaves the host's list and its callback runs.
    [Some p] tells that [resolve] of promise [p] was called. *)
Definition timer_elapses (n : nat) : M (option nat) :=
  let! g := get_state in
  match List.find (fun x => Nat.eqb (handle x) n) (timers (host g)) with
  | None => ret None
  | Some t =>
      clearTimeout (Some n) >>>
      match action t with
      | CallResolver => resolveCallbackPromise >>> ret None
      | ResolvePromise p => ret (Some p)
      end
  end.

(** ** A decoder of the argument block

    The reader that the marshalling is checked against: [n] entries of 8
    bytes at [argv], each a 32-bit little-endian word; a pointer is
    followed to a string that ends at its first zero byte. *)
Module ReferenceDecoder.

Definition word_at (buf : list byte) (a : Z) : option Z :=
  DataView.getUint32 buf a.

Fixpoint words (buf : list byte) (a : Z) (n : nat) : option (list Z) :=
  match n with
  | O => Some []
  | S n' =>
      w ← word_at buf a;
      ws ← words buf (a + 8) n';
      Some (w :: ws)
  end.

Fixpoint c_string_from (bytes : list byte) : option string :=
  match bytes with
  | [] => None
  | b :: rest =>
      if Z.eqb (byte.unsigned b) 0 then Some EmptyString
      else String (ascii_of_byte b) <$> c_string_from rest
  end.

Definition c_string (buf : list byte) (ptr : Z) : option string :=
  if (0 <=? ptr) then c_string_from (drop (Z.to_nat ptr) buf) else None.

Definition strings (buf : list byte) (ptrs : list Z) : option (list string) :=
  mapM (c_string buf) ptrs.

End ReferenceDecoder.

(** ** Vocabulary of the statements *)

(** The bytes of the linear memory, when an instance is there. *)
Definition memory (g : Go) : option (list byte) := buffer <$> instance g.

(** The [len] bytes at [addr] lie in the linear memory. *)
Definition addressable (g : Go) (addr len : Z) : Prop :=
  exists buf, memory g = Some buf /\ ArrayBuffer.in_range buf addr len = true.

(** Both bridges have a linear memory, of one length. *)
Definition same_extent (g g' : Go) : Prop :=
  exists buf buf', memory g = Some buf /\ memory g' = Some buf' /\
    length buf' = length buf.

(** The 32-bit word at [addr], read as [getUint32] reads it. *)
Definition word_at (g : Go) (addr : Z) : option Z :=
  buf ← memory g; DataView.getUint32 buf addr.

(** The byte at [addr]. *)
Definition byte_at (g : Go) (addr : Z) : option Z :=
  buf ← memory g; DataView.getUint8 buf addr.

(** The slot at [addr] holds a NaN pattern, which [loadValue] takes for
    a reference. *)
Definition slot_is_reference (g : Go) (addr : Z) : Prop :=
  exists buf bs, memory g = Some buf /\
    ArrayBuffer.slice buf addr 8 = Some bs /\
    Float64.is_nan_pattern (le_combine bs) = true.

Definition reserved : list jsval :=
  [VNumber NaN; VUndefined; VNull; VBool true; VBool false].

(** The state of the value table between two calls: both halves are
    there, the array is within the host's length limit, the reserved
    singletons are in place, and every entry of [_refs] points at its
    value. [load] sets it up and [storeValue] keeps it. *)
Definition table_ok (g : Go) : Prop :=
  exists values refs,
    _values g = Some values /\ _refs g = Some refs /\
    Z.of_nat (length values) <= 2 ^ 32 - 1 /\
    take 5 values = reserved /\
    forall v r, refs !! v = Some r ->
      0 <= r /\ values !! Z.to_nat r = Some v.

(** [v] has an entry in [_refs]. *)
Definition interned (g : Go) (v : jsval) : Prop :=
  exists refs r, _refs g = Some refs /\ refs !! v = Some r.

(** [_values] can take [n] more elements. *)
Definition room (g : Go) (n : Z) : Prop :=
  exists values, _values g = Some values /\
    Z.of_nat (length values) + n <= 2 ^ 32 - 1.

Definition has_room (g : Go) : Prop := room g 1.

(** The table after [v] got its index: the entry of [_refs] if there is
    one, the next free index otherwise. *)
Definition intern (v : jsval) (values : list jsval) (refs : gmap jsval Z)
  : Z * list jsval * gmap jsval Z :=
  match refs !! v with
  | Some r => (r, values, refs)
  | None =>
      let r := Z.of_nat (length values) in
      (r, values ++ [v], <[v := r]> refs)
  end.

Definition set_table (values : list jsval) (refs : gmap jsval Z) (g : Go) : Go :=
  set_refs (Some refs) (set_values (Some values) g).

(** The values that [storeValue] encodes without the table. *)
Definition primitive (v : jsval) : Prop :=
  match v with
  | VNumber _ | VUndefined | VNull | VBool _ => True
  | _ => False
  end.

Definition wf_value (v : jsval) : Prop :=
  match v with
  | VNumber x => Float64.wf x
  | _ => True
  end.

(** [storeValue] of [v] at [slot], with the success flag right after
    it, can go through on [g]: the table is in place, the nine bytes are
    in the memory, and [v] is a primitive, has its index, or finds room. *)
Definition storable (g : Go) (slot : Z) (v : jsval) : Prop :=
  table_ok g /\ addressable g slot 9 /\ wf_value v /\
  (primitive v \/ interned g v \/ has_room g).

(** The shape that [valueCall], [valueInvoke] and [valueNew] share:
    operands are read, the host operation runs, its result is boxed and
    the flag is set; whatever is thrown on the way is boxed instead and
    the flag is cleared. *)
Definition guarded {A} (operands : M A) (op : A -> M jsval) (slot flag : Z) : M unit :=
  try_catch
    (let! a := operands in
     let! r := op a in
     storeValue slot r >>>
     setUint8 flag 1)
    (fun e =>
     let! err := caught e in
     storeValue slot err >>>
     setUint8 flag 0).

Section Operands.

Variable js_get : jsval -> string -> M jsval.
Variable decode : list byte -> string.

(** The operands of [valueCall]: lines 234-237. *)
Definition valueCall_operands (addr : Z) : M (jsval * jsval * list jsval) :=
  let! obj := loadValue (addr + 8) in
  let! name := loadString decode (addr + 16) in
  let! method := js_get obj name in
  let! args := loadSliceOfValues (addr + 32) in
  ret (obj, method, args).

(** The operands of [valueInvoke] and of [valueNew]. *)
Definition value_and_args (addr : Z) : M (jsval * list jsval) :=
  let! obj := loadValue (addr + 8) in
  let! args := loadSliceOfValues (addr + 16) in
  ret (obj, args).

End Operands.

(** The value that [catch (err)] binds for what was thrown on [g]: the
    thrown value itself, or, for a failure that the host raises, the
    error object it makes. *)
Definition thrown_value (e : exn) (g : Go) : jsval :=
  match e with
  | Thrown v => v
  | Raised k => VObject (ErrorObject k (next_error (host g)))
  end.

(** [call] on [g] returns, its result slot decodes to [v] and its flag
    byte is [f]. *)
Definition isolated_outcome (call : M unit) (g : Go) (slot flag : Z)
    (v : jsval) (f : Z) : Prop :=
  exists g2, call g = (Normal tt, g2) /\
             loadValue slot g2 = (Normal v, g2) /\
             byte_at g2 flag = Some f.

(** What the isolation of a dispatch [call] says, for the host operation
    [op] run on the operands that [call] reads. Whatever is thrown while
    the operands are read (the property read of [valueCall] among them)
    or by [op], [call] returns, the slot holds what was thrown and the
    flag is 0; if [op] returns, [call] returns, the slot holds the
    result and the flag is 1. *)
Definition isolates {A} (call : M unit) (operands : M A) (op : A -> M jsval)
    (slot flag : Z) : Prop :=
  forall g,
    (forall e g1,
       operands g = (Throw e, g1) ->
       storable g1 slot (thrown_value e g1) ->
       isolated_outcome call g slot flag (thrown_value e g1) 0) /\
    (forall a g0 e g1,
       operands g = (Normal a, g0) -> op a g0 = (Throw e, g1) ->
       storable g1 slot (thrown_value e g1) ->
       isolated_outcome call g slot flag (thrown_value e g1) 0) /\
    (forall a g0 r g1,
       operands g = (Normal a, g0) -> op a g0 = (Normal r, g1) ->
       storable g1 slot r ->
       isolated_outcome call g slot flag r 1).

(** The block at [argv] of [buf] reads as: a pointer per string of
    [args], a word holding the number of environment entries, and a
    pointer per string of [envs]; every entry is followed by a zero
    word. *)
Definition decodes_to (buf : list byte) (argv : Z) (args envs : list string) : Prop :=
  let n := length args in
  let m := length envs in
  exists ptrs eptrs,
    ReferenceDecoder.words buf argv n = Some ptrs /\
    ReferenceDecoder.strings buf ptrs = Some args /\
    ReferenceDecoder.words buf (argv + 8 * Z.of_nat n) 1 = Some [Z.of_nat m] /\
    ReferenceDecoder.words buf (argv + 8 * Z.of_nat n + 8) m = Some eptrs /\
    ReferenceDecoder.strings buf eptrs = Some envs /\
    ReferenceDecoder.words buf (argv + 4) (n + 1 + m) = Some (replicate (n + 1 + m) 0).

(** [m] leaves the property [f] of the bridge as it finds it, however
    it completes. *)
Definition keeps {A B} (f : Go -> B) (m : M A) : Prop :=
  forall g, f (m g).2 = f g.

(** The bridges on which a [run] that was called on [g0] is under way:
    after its first part and first turn, after a further turn of its
    loop, and after a host timer elapsed. *)
Inductive run_active (guest : Z -> Z -> M unit) (g0 : Go) : Go -> Prop :=
| active_started params r g1 :
    run guest params g0 = (r, g1) ->
    run_active guest g0 g1
| active_resumed g1 argc argv r g2 :
    run_active guest g0 g1 ->
    run_resume guest argc argv g1 = (r, g2) ->
    run_active guest g0 g2
| active_timer g1 n r g2 :
    run_active guest g0 g1 ->
    timer_elapses n g1 = (r, g2) ->
    run_active guest g0 g2.

(** ** Fixtures of the examples *)

(** An instance with [n] zero bytes of memory. *)
Definition zero_instance (n : nat) : Instance :=
  Build_Instance 0 (replicate n Byte.x00).

(** A bridge object whose [load()] has finished. *)
Definition fresh_go (n : nat) : Go := load (zero_instance n) (constructor 0).

(** A loaded bridge whose slot at 0 carries the tag and the index 8, one
    past the eight elements of the table. *)
Definition dangling_go : Go :=
  with_memory (le_split 4 8 ++ le_split 4 nanHead ++ replicate 8 Byte.x00)
              (fresh_go 16).

(** A loaded bridge with 4400 bytes of memory and the environment
    [{"A": "1"}]. *)
Definition marshal_go : Go :=
  set_env {[ "A"%string := "1"%string ]} (fresh_go 4400).

(** A bridge that is suspended in its run loop and has exited: the
    resolver of promise 0 is installed and [exited] is set. *)
Definition exited_go : Go :=
  set_exited true (set_resolveCallbackPromise (Some 0%nat) (fresh_go 16)).

(** The lines of a guest that does nothing and returns. *)
Definition idle_guest (argc argv : Z) : M unit := ret tt.

(** A loaded bridge on which the timer properties exist, as
    [scheduleCallback] expects them. *)
Definition timers_go : Go :=
  set_callbackTimeouts (Some [])
    (set_nextCallbackTimeoutID (CInt 1) (fresh_go 32)).

(** ** Further vocabulary *)

(** The index that [storeValue] writes for [v]: the reserved id of a
    singleton, the index by [intern] otherwise. *)
Definition wire_id (g : Go) (v : jsval) : option Z :=
  match v with
  | VNumber _ => Some 0
  | VUndefined => Some 1
  | VNull => Some 2
  | VBool true => Some 3
  | VBool false => Some 4
  | _ =>
      values ← _values g; refs ← _refs g;
      Some (intern v values refs).1.1
  end.

(** The eight bytes of the slot of [v]: the double itself, or the index
    in the low word and the tag with the type flag in the high word. *)
Definition slot_bytes (v : jsval) (id : Z) : list byte :=
  match v with
  | VNumber (Float b) => le_split 8 b
  | _ => le_split 4 id ++ le_split 4 (Z.lor nanHead (typeFlag v))
  end.


(** ** Further fixtures *)

(** A loaded bridge whose memory holds, at 0, the header of a slice of
    two slots at 16, both zero. *)
Definition slice_go : Go :=
  with_memory (le_split 8 16 ++ le_split 8 2 ++ replicate 16 Byte.x00)
              (fresh_go 32).

(** The handles of the pending timers are below the next handle, as
    [setTimeout] hands them out. *)
Definition handles_fresh (g : Go) : Prop :=
  Forall (fun t => (handle t < next_handle (host g))%nat) (timers (host g)).

(** The number that [getInt64] gives for the eight bytes of the 64-bit
    integer [v]: [v] itself when bit 31 of [v] is clear, [v - 2^32] when
    it is set. *)
Definition int64_as_read (v : Z) : Z :=
  if v mod 2 ^ 32 <? 2 ^ 31 then v else v - 2 ^ 32.

(** The bridge after [scheduleCallback] registered its timer for the
    counter [n] and the delay word [d]: the counter moved on, the timer
    is pending under a fresh handle, and the map holds the handle under
    the id. *)
Definition scheduled (n d : Z) (g : Go) : Go :=
  let h := host g in
  let t := next_handle h in
  set_callbackTimeouts
    (Some (Map_set (CInt n) t (default [] (_callbackTimeouts g))))
    (set_host (Build_Host (timers h ++ [Build_timer t (int64_as_read d + 1) CallResolver])
                          (S t) (next_promise h) (next_error h) (entry_calls h))
       (set_nextCallbackTimeoutID (CInt (round_to_double (n + 1))) g)).

(** A bridge with the timer properties whose counter is 2^31 and whose
    memory holds the delay word 2^31 at 8. *)
Definition late_timers_go : Go :=
  with_memory (replicate 8 Byte.x00 ++ le_split 8 (2 ^ 31) ++ replicate 16 Byte.x00)
    (set_nextCallbackTimeoutID (CInt (2 ^ 31)) timers_go).

(** ** Strings of the argument block *)

(** Every code unit of [s] is below 128: [encoder.encode] gives one
    byte to each. *)
Fixpoint ascii7 (s : string) : Prop :=
  match s with
  | EmptyString => True
  | String c rest => code_unit c < 128 /\ ascii7 rest
  end.

(** As [ascii7], and no code unit is zero: a zero-terminated string
    holds [s] as it is. *)
Fixpoint plain (s : string) : Prop :=
  match s with
  | EmptyString => True
  | String c rest => 0 < code_unit c < 128 /\ plain rest
  end.

(** The offset after [strPtr] placed [str] at [offset]. *)
Definition advance (offset : Z) (str : string) : Z :=
  let len := Z.of_nat (String.length str) in
  offset + (len + (8 - len mod 8)).

Definition block_end (strs : list string) (offset : Z) : Z :=
  fold_left advance strs offset.

(** The entries [key=value] of the environment in the order of [run]. *)
Definition environ (g : Go) : list string :=
  map (fun key => key +:+ "=" +:+ default ""%string (env g !! key))
      (sorted_keys (env g)).

(** The encoded string [s] and its terminator are the bytes at [ptr]. *)
Definition stored (buf : list byte) (ptr : Z) (s : string) : Prop :=
  ArrayBuffer.slice buf ptr (Z.of_nat (String.length s) + 1)
    = Some (utf8_encode s ++ [Byte.x00]).

(** ** The loop *)

(** The bridge when a turn of the loop enters the guest: the promise of
    the turn is created, its resolver installed and the call logged. *)
Definition turn_entry (argc argv : Z) (g : Go) : Go :=
  ((let! p := new_promise in
    modify (set_resolveCallbackPromise (Some p)) >>>
    log_entry argc argv) g).2.

(** A loaded bridge, its memory untouched, in the first turn of its
    loop with a timer of [scheduleCallback] pending. *)
Definition waiting_go : Go :=
  (setTimeout CallResolver 1 (run idle_guest [] (fresh_go 4400)).2).2.

(** A loaded bridge whose memory holds, at 8, the boxed reference 5
    (the global object); at 16, the header of a string of two bytes at
    48; and at 48 the bytes of "hi". *)
Definition property_go : Go :=
  with_memory (replicate 8 Byte.x00
               ++ le_split 4 5 ++ le_split 4 nanHead
               ++ le_split 8 48 ++ le_split 8 2
               ++ replicate 16 Byte.x00
               ++ [Byte.x68; Byte.x69] ++ replicate 6 Byte.x00)
              (fresh_go 56).

(** The decoder of the examples: one code unit per byte. *)
Definition ascii_decode (bytes : list byte) : string :=
  string_of_list_ascii (map ascii_of_byte bytes).

(** ** The guest program ([src/Main.go])

    Go's [int] has 64 bits on wasm; its addition wraps around. The
    recursion of [fib] is bounded by [fuel]; [None] tells that the fuel
    ran out. *)
Definition int_wrap (z : Z) : Z := (z + 2 ^ 63) mod 2 ^ 64 - 2 ^ 63.

Fixpoint fib (fuel : nat) (n : Z) : option Z :=
  match fuel with
  | O => None
  | S fuel' =>
      if n <=? 2 then Some 1
      else
        a ← fib fuel' (n - 1);
        b ← fib fuel' (n - 2);
        Some (int_wrap (a + b))
  end.

Definition line_feed : ascii := "010".

Section Main.

(** The number that [strconv.Atoi] returns; [main] drops its error. *)
Variable Atoi : string -> Z.

(** [main]: the line that it prints. *)
Definition main (fuel : nat) (Args : list string) : option string :=
  let n := 0 in
  let n := if 1 <? Z.of_nat (length Args) then Atoi (nth 1 Args ""%string) else n in
  let n := if n =? 0 then 10 else n in
  r ← fib fuel n;
  Some ("fib(" +:+ pretty n +:+ ") = " +:+ pretty r +:+ String line_feed EmptyString).

End Main.

(** The Fibonacci numbers 0, 1, 1, 2, 3, ... as integers without bound. *)
Fixpoint fibonacci_pair (k : nat) : Z * Z :=
  match k with
  | O => (0, 1)
  | S k' => let p := fibonacci_pair k' in (p.2, p.1 + p.2)
  end.

Definition fibonacci (k : nat) : Z := (fibonacci_pair k).1.

(** * Properties *)

(** ** Buffers *)

Module BufferFacts.
Import ArrayBuffer.

Lemma in_range_spec buf off len :
  in_range buf off len = true <->
  0 <= off /\ 0 <= len /\ off + len <= Z.of_nat (length buf).
Proof. unfold in_range. rewrite !andb_true_iff, !Z.leb_le. tauto. Qed.

Lemma in_range_sub buf off len off' len' :
  in_range buf off len = true ->
  off <= off' -> 0 <= len' -> off' + len' <= off + len ->
  in_range buf off' len' = true.
Proof. rewrite !in_range_spec. lia. Qed.

Lemma blit_length buf off src buf' :
  blit buf off src = Some buf' -> length buf' = length buf.
Proof.
  unfold blit. destruct (in_range _ _ _) eqn:E; [|discriminate].
  apply in_range_spec in E. intros [= <-].
  rewrite !length_app, length_take, length_drop. lia.
Qed.

Lemma blit_Some buf off src :
  in_range buf off (Z.of_nat (length src)) = true ->
  is_Some (blit buf off src).
Proof. unfold blit. intros ->. eauto. Qed.

Lemma blit_in_range buf off src buf' off' len :
  blit buf off src = Some buf' ->
  in_range buf' off' len = in_range buf off' len.
Proof. intros H. unfold in_range. by rewrite (blit_length _ _ _ _ H). Qed.

Lemma blit_lookup_other buf off src buf' (j : nat) :
  blit buf off src = Some buf' ->
  (j < Z.to_nat off \/ Z.to_nat off + length src <= j)%nat ->
  buf' !! j = buf !! j.
Proof.
  unfold blit. destruct (in_range _ _ _) eqn:E; [|discriminate].
  apply in_range_spec in E. intros [= <-] [Hj|Hj].
  - rewrite lookup_app_l by (rewrite length_take; lia).
    by rewrite lookup_take_lt.
  - rewrite lookup_app_r by (rewrite length_take; lia).
    rewrite lookup_app_r by (rewrite length_take; lia).
    rewrite lookup_drop, length_take. f_equal. lia.
Qed.

Lemma slice_blit_same buf off src buf' :
  blit buf off src = Some buf' ->
  slice buf' off (Z.of_nat (length src)) = Some src.
Proof.
  intros H. unfold slice. rewrite (blit_in_range _ _ _ _ _ _ H).
  revert H. unfold blit. destruct (in_range _ _ _) eqn:E; [|discriminate].
  apply in_range_spec in E. intros [= <-]. f_equal.
  rewrite drop_app_length' by (rewrite length_take; lia).
  rewrite take_app_length' by lia. reflexivity.
Qed.

Lemma slice_blit_other buf off src buf' off' len :
  blit buf off src = Some buf' ->
  off' + len <= off \/ off + Z.of_nat (length src) <= off' ->
  slice buf' off' len = slice buf off' len.
Proof.
  intros H Hd. unfold slice. rewrite (blit_in_range _ _ _ _ _ _ H).
  destruct (in_range buf off' len) eqn:E; [|reflexivity].
  apply in_range_spec in E. f_equal. apply list_eq. intros i.
  rewrite !lookup_take. destruct (decide (i < Z.to_nat len)%nat); [|reflexivity].
  rewrite !lookup_drop. apply (blit_lookup_other _ _ _ _ _ H).
  assert (0 <= off).
  { revert H. unfold blit. destruct (in_range buf off _) eqn:E'; [|discriminate].
    apply in_range_spec in E'. lia. }
  lia.
Qed.

Lemma slice_length buf off len bs :
  slice buf off len = Some bs -> Z.of_nat (length bs) = len.
Proof.
  unfold slice. destruct (in_range _ _ _) eqn:E; [|discriminate].
  apply in_range_spec in E. intros [= <-].
  rewrite length_take, length_drop. lia.
Qed.

Lemma slice_app buf off n m xs ys :
  slice buf off n = Some xs ->
  slice buf (off + n) m = Some ys ->
  slice buf off (n + m) = Some (xs ++ ys).
Proof.
  unfold slice.
  destruct (in_range buf off n) eqn:E1; [|discriminate].
  destruct (in_range buf (off + n) m) eqn:E2; [|discriminate].
  apply in_range_spec in E1, E2.
  rewrite (proj2 (in_range_spec buf off (n + m))) by lia.
  intros [= <-] [= <-]. f_equal.
  rewrite !Z2Nat.inj_add by lia.
  rewrite <- (take_drop (Z.to_nat n) (drop (Z.to_nat off) buf)) at 1.
  rewrite take_app_add' by (rewrite length_take, length_drop; lia).
  by rewrite drop_drop.
Qed.

End BufferFacts.


(** ** Running the monad *)

Lemma bind_normal {A B} (m : M A) (f : A -> M B) g a g' :
  m g = (Normal a, g') -> bind m f g = f a g'.
Proof. unfold bind. by intros ->. Qed.

Lemma bind_throw {A B} (m : M A) (f : A -> M B) g e g' :
  m g = (Throw e, g') -> bind m f g = (Throw e, g').
Proof. unfold bind. by intros ->. Qed.

(** *** Projections of the updates *)

Lemma memory_with_memory g buf buf0 :
  memory g = Some buf0 -> memory (with_memory buf g) = Some buf.
Proof.
  unfold memory, with_memory. destruct g as [? ? [i|] ? ? ? ? ? ? ? ? ?];
    simpl; [reflexivity|discriminate].
Qed.

Lemma with_memory_fields g buf :
  _values (with_memory buf g) = _values g /\
  _refs (with_memory buf g) = _refs g /\
  exited (with_memory buf g) = exited g /\
  running (with_memory buf g) = running g /\
  host (with_memory buf g) = host g /\
  _resolveCallbackPromise (with_memory buf g) = _resolveCallbackPromise g /\
  _callbackTimeouts (with_memory buf g) = _callbackTimeouts g /\
  _nextCallbackTimeoutID (with_memory buf g) = _nextCallbackTimeoutID g /\
  env (with_memory buf g) = env g /\
  this_id (with_memory buf g) = this_id g /\
  loaded (with_memory buf g) = loaded g.
Proof.
  unfold with_memory, loaded. destruct g as [? ? [i|] ? ? ? ? ? ? ? ? ?]; simpl; tauto.
Qed.

Lemma values_with_memory g buf : _values (with_memory buf g) = _values g.
Proof. apply with_memory_fields. Qed.

Lemma refs_with_memory g buf : _refs (with_memory buf g) = _refs g.
Proof. apply with_memory_fields. Qed.

Lemma addressable_with_memory g buf buf0 addr len :
  memory g = Some buf0 -> length buf = length buf0 ->
  addressable (with_memory buf g) addr len <-> addressable g addr len.
Proof.
  intros Hm Hl. unfold addressable.
  rewrite (memory_with_memory _ buf _ Hm), Hm.
  split; intros (b & [= <-] & H); eexists; split; try reflexivity;
    revert H; unfold ArrayBuffer.in_range; by rewrite Hl.
Qed.

(** *** The accessors *)

Lemma memRaw_run g buf : memory g = Some buf -> memRaw g = (Normal buf, g).
Proof.
  unfold memory, memRaw, bind, get_state, defined, ret.
  destruct (instance g); simpl; [by intros [= ->]|discriminate].
Qed.


Lemma write_memRaw_run g buf : write_memRaw buf g = (Normal tt, with_memory buf g).
Proof. reflexivity. Qed.

Lemma getUint32_run g buf addr bs :
  memory g = Some buf -> ArrayBuffer.slice buf addr 4 = Some bs ->
  getUint32 addr g = (Normal (le_combine bs), g).
Proof.
  intros Hm Hs. unfold getUint32. rewrite (bind_normal _ _ _ _ _ (memRaw_run _ _ Hm)).
  unfold DataView.getUint32. rewrite Z.add_0_r, Hs. reflexivity.
Qed.

Lemma getInt32_run g buf addr bs :
  memory g = Some buf -> ArrayBuffer.slice buf addr 4 = Some bs ->
  getInt32 addr g = (Normal (ToInt32 (le_combine bs)), g).
Proof.
  intros Hm Hs. unfold getInt32. rewrite (bind_normal _ _ _ _ _ (memRaw_run _ _ Hm)).
  unfold DataView.getInt32. rewrite Z.add_0_r, Hs. reflexivity.
Qed.

Lemma getFloat64_run g buf addr bs :
  memory g = Some buf -> ArrayBuffer.slice buf addr 8 = Some bs ->
  getFloat64 addr g = (Normal (Float64.of_bits (le_combine bs)), g).
Proof.
  intros Hm Hs. unfold getFloat64. rewrite (bind_normal _ _ _ _ _ (memRaw_run _ _ Hm)).
  unfold DataView.getFloat64. rewrite Hs. reflexivity.
Qed.

Lemma setUint32_run g buf addr v buf' :
  memory g = Some buf -> ArrayBuffer.blit buf addr (le_split 4 v) = Some buf' ->
  setUint32 addr v g = (Normal tt, with_memory buf' g).
Proof.
  intros Hm Hs. unfold setUint32. rewrite (bind_normal _ _ _ _ _ (memRaw_run _ _ Hm)).
  unfold DataView.setUint32. rewrite Z.add_0_r, Hs. reflexivity.
Qed.

Lemma setInt32_run g buf addr v buf' :
  memory g = Some buf -> ArrayBuffer.blit buf addr (le_split 4 v) = Some buf' ->
  setInt32 addr v g = (Normal tt, with_memory buf' g).
Proof.
  intros Hm Hs. unfold setInt32. rewrite (bind_normal _ _ _ _ _ (memRaw_run _ _ Hm)).
  unfold DataView.setInt32. rewrite Z.add_0_r, Hs. reflexivity.
Qed.

Lemma setUint8_run g buf addr v buf' :
  memory g = Some buf -> ArrayBuffer.blit buf addr (le_split 1 v) = Some buf' ->
  setUint8 addr v g = (Normal tt, with_memory buf' g).
Proof.
  intros Hm Hs. unfold setUint8. rewrite (bind_normal _ _ _ _ _ (memRaw_run _ _ Hm)).
  unfold DataView.setUint8. rewrite Z.add_0_r, Hs. reflexivity.
Qed.

Lemma setFloat64_run g buf addr x buf' :
  memory g = Some buf ->
  ArrayBuffer.blit buf addr (le_split 8 (Float64.to_bits x)) = Some buf' ->
  setFloat64 addr x g = (Normal tt, with_memory buf' g).
Proof.
  intros Hm Hs. unfold setFloat64. rewrite (bind_normal _ _ _ _ _ (memRaw_run _ _ Hm)).
  unfold DataView.setFloat64. rewrite Z.add_0_r, Hs. reflexivity.
Qed.

(** ** 64-bit integers *)

Lemma round_to_double_exact z : Z.abs z < 2 ^ 53 -> round_to_double z = z.
Proof.
  intros H. unfold round_to_double.
  destruct (Z.ltb_spec (Z.log2 (Z.abs z)) 53) as [|Hk]; [reflexivity|].
  exfalso. destruct (Z.eq_dec (Z.abs z) 0) as [E|E].
  - rewrite E in Hk. simpl in Hk. lia.
  - apply Z.log2_lt_pow2 in H; lia.
Qed.

Example round_to_double_ties :
  round_to_double (2 ^ 53 + 1) = 2 ^ 53 /\
  round_to_double (2 ^ 53 + 3) = 2 ^ 53 + 4 /\
  round_to_double (- (2 ^ 53 + 2)) = - (2 ^ 53 + 2) /\
  round_to_double (2 ^ 62 + 2 ^ 31) = 2 ^ 62 + 2 ^ 31 /\
  round_to_double (2 ^ 62 + 511) = 2 ^ 62 /\
  round_to_double (2 ^ 62 + 513) = 2 ^ 62 + 1024.
Proof. repeat split; vm_compute; reflexivity. Qed.

Lemma ToInt32_of_word w :
  0 <= w < 2 ^ 32 -> ToInt32 w = if w <? 2 ^ 31 then w else w - 2 ^ 32.
Proof.
  intros H. unfold ToInt32. destruct (Z.ltb_spec w (2 ^ 31)).
  - rewrite Z.mod_small; lia.
  - replace (w + 2 ^ 31) with (w - 2 ^ 31 + 1 * 2 ^ 32) by lia.
    rewrite Z.mod_add by lia. rewrite Z.mod_small; lia.
Qed.

Lemma addressable_blit g addr len v (n : nat) off :
  addressable g addr len ->
  addr <= off -> off + Z.of_nat n <= addr + len ->
  exists buf buf', memory g = Some buf /\
    ArrayBuffer.blit buf off (le_split n v) = Some buf'.
Proof.
  intros (buf & Hm & Hr) H1 H2.
  destruct (BufferFacts.blit_Some buf off (le_split n v)) as [buf' Hb].
  { rewrite length_le_split.
    apply (BufferFacts.in_range_sub _ _ _ _ _ Hr); lia. }
  eauto.
Qed.

(** What [getInt64] gives back after [setInt64], for the integers a
    double holds exactly: the low word is read as a signed one. *)
Lemma getInt64_setInt64 g addr val :
  addressable g addr 8 -> 0 <= val < 2 ^ 53 ->
  exists g',
    setInt64 addr val g = (Normal tt, g') /\
    getInt64 addr g' =
      (Normal (if val mod 2 ^ 32 <? 2 ^ 31 then val else val - 2 ^ 32), g').
Proof.
  intros Ha Hv.
  destruct (addressable_blit g addr 8 val 4 (addr + 0) Ha) as (buf & buf1 & Hm & Hb1); [lia..|].
  pose proof (setUint32_run _ _ _ _ _ Hm Hb1) as R1.
  pose proof (memory_with_memory _ buf1 _ Hm) as Hm1.
  assert (Ha1 : addressable (with_memory buf1 g) addr 8).
  { apply (addressable_with_memory _ _ _ _ _ Hm); [|exact Ha].
    by apply BufferFacts.blit_length in Hb1. }
  destruct (addressable_blit _ addr 8 (val / 4294967296) 4 (addr + 4) Ha1)
    as (buf1' & buf2 & Hm1' & Hb2); [lia..|].
  rewrite Hm1 in Hm1'. injection Hm1' as <-.
  pose proof (setUint32_run _ _ _ _ _ Hm1 Hb2) as R2.
  pose proof (memory_with_memory _ buf2 _ Hm1) as Hm2.
  eexists. split.
  { unfold setInt64. rewrite (bind_normal _ _ _ _ _ R1). exact R2. }
  assert (Hlo : ArrayBuffer.slice buf2 (addr + 0) 4 = Some (le_split 4 val)).
  { rewrite (BufferFacts.slice_blit_other _ _ _ _ _ _ Hb2) by (rewrite length_le_split; lia).
    pose proof (BufferFacts.slice_blit_same _ _ _ _ Hb1) as S.
    by rewrite length_le_split in S. }
  assert (Hhi : ArrayBuffer.slice buf2 (addr + 4) 4 = Some (le_split 4 (val / 4294967296))).
  { pose proof (BufferFacts.slice_blit_same _ _ _ _ Hb2) as S.
    by rewrite length_le_split in S. }
  unfold getInt64.
  rewrite (bind_normal _ _ _ _ _ (getInt32_run _ _ _ _ Hm2 Hlo)).
  rewrite (bind_normal _ _ _ _ _ (getInt32_run _ _ _ _ Hm2 Hhi)).
  unfold ret. do 2 f_equal.
  rewrite !le_combine_split. change (Z.of_nat 4 * 8) with 32.
  assert (0 <= val mod 2 ^ 32 < 2 ^ 32) by (apply Z.mod_pos_bound; lia).
  assert (0 <= val / 4294967296 < 2 ^ 21).
  { split; [apply Z.div_pos; lia|apply Z.div_lt_upper_bound; lia]. }
  rewrite (Z.mod_small (val / 4294967296)) by lia.
  rewrite !ToInt32_of_word by lia.
  destruct (Z.ltb_spec (val / 4294967296) (2 ^ 31)); [|lia].
  pose proof (Z.div_mod val 4294967296 ltac:(lia)) as Hdm.
  change (2 ^ 32) with 4294967296 in *.
  rewrite (round_to_double_exact (val / 4294967296 * 4294967296)) by lia.
  destruct (Z.ltb_spec (val mod 4294967296) (2 ^ 31));
    rewrite round_to_double_exact; lia.
Qed.

(** C3 (the code departs from it): [setInt64] writes the integer
    2147483648, which is within the 53-bit-safe range, as the words
    [0x80000000] and [0]; [getInt64] reads the low word with [getInt32]
    and returns -2147483648, not the integer that was written. *)
Theorem getInt64_setInt64_at_2147483648 :
  exists g',
    setInt64 0 2147483648 (fresh_go 16) = (Normal tt, g') /\
    getInt64 0 g' = (Normal (-2147483648), g') /\
    word_at g' 0 = Some 2147483648 /\ word_at g' 4 = Some 0.
Proof. eexists. repeat split; vm_compute; reflexivity. Qed.

(** ** The boxed wire format *)

Lemma with_memory_twice g b1 b2 :
  with_memory b2 (with_memory b1 g) = with_memory b2 g.
Proof.
  unfold with_memory. destruct g as [? ? [i|] ? ? ? ? ? ? ? ? ?]; reflexivity.
Qed.

Lemma slice_prefix buf off n m bs :
  0 <= n -> 0 <= m ->
  ArrayBuffer.slice buf off (n + m) = Some bs ->
  ArrayBuffer.slice buf off n = Some (take (Z.to_nat n) bs).
Proof.
  intros Hn Hm. unfold ArrayBuffer.slice.
  destruct (ArrayBuffer.in_range buf off (n + m)) eqn:E; [|discriminate].
  apply BufferFacts.in_range_spec in E.
  rewrite (proj2 (BufferFacts.in_range_spec buf off n)) by lia.
  intros [= <-]. f_equal. rewrite take_take. f_equal. lia.
Qed.

(** A slot whose high word carries the tag decodes as NaN, whatever the
    type flag and the index. *)
Lemma boxed_is_nan lo flag :
  0 <= lo < 2 ^ 32 -> 0 <= flag <= 3 ->
  Float64.is_nan_pattern (Z.lor lo (Z.shiftl (Z.lor nanHead flag) 32)) = true.
Proof.
  intros Hlo Hf. unfold Float64.is_nan_pattern.
  apply andb_true_iff. split.
  - apply Z.eqb_eq. unfold Float64.exponent_field.
    rewrite Z.shiftr_lor, Z.shiftr_shiftl_r by lia.
    rewrite (Z.shiftr_div_pow2 lo) by lia.
    rewrite (Z.div_small lo) by lia. rewrite Z.lor_0_l.
    assert (flag = 0 \/ flag = 1 \/ flag = 2 \/ flag = 3) as [->|[->|[->| ->]]] by lia;
      reflexivity.
  - apply negb_true_iff, Z.eqb_neq. unfold Float64.mantissa_field. intros E.
    apply (f_equal (fun z => Z.testbit z 51)) in E.
    rewrite Z.land_spec, Z.lor_spec, Z.shiftl_spec, Z.lor_spec in E by lia.
    rewrite Z.bits_0 in E.
    change (Z.testbit nanHead (51 - 32)) with true in E.
    change (Z.testbit (Z.ones 52) 51) with true in E.
    rewrite orb_true_l, orb_true_r in E. discriminate.
Qed.

(** [loadValue] on a slot that holds a double other than NaN. *)
Lemma loadValue_float g buf addr bs b :
  memory g = Some buf -> ArrayBuffer.slice buf addr 8 = Some bs ->
  le_combine bs = b -> Float64.is_nan_pattern b = false ->
  loadValue addr g = (Normal (VNumber (Float b)), g).
Proof.
  intros Hm Hs Hb Hn. unfold loadValue.
  rewrite (bind_normal _ _ _ _ _ (getFloat64_run _ _ _ _ Hm Hs)).
  rewrite Hb. unfold Float64.of_bits. rewrite Hn. reflexivity.
Qed.

(** [loadValue] on a slot that holds a NaN pattern: the low word indexes
    [_values], and an index without an element gives [undefined]. *)
Lemma loadValue_reference g buf addr bs values :
  memory g = Some buf -> ArrayBuffer.slice buf addr 8 = Some bs ->
  Float64.is_nan_pattern (le_combine bs) = true ->
  _values g = Some values ->
  loadValue addr g =
    (Normal (default VUndefined (values !! Z.to_nat (le_combine (take 4 bs)))), g).
Proof.
  intros Hm Hs Hn Hv. unfold loadValue.
  rewrite (bind_normal _ _ _ _ _ (getFloat64_run _ _ _ _ Hm Hs)).
  unfold Float64.of_bits. rewrite Hn. simpl.
  pose proof (slice_prefix buf addr 4 4 bs ltac:(lia) ltac:(lia) Hs) as Hs4.
  rewrite (bind_normal _ _ _ _ _ (getUint32_run _ _ _ _ Hm Hs4)).
  unfold bind, get_state, defined. rewrite Hv. reflexivity.
Qed.

(** The two word writes of a tagged slot. *)
Lemma store_words_run g buf addr hi lo :
  memory g = Some buf -> ArrayBuffer.in_range buf addr 8 = true ->
  exists buf',
    (setUint32 (addr + 4) hi >>> setUint32 addr lo) g = (Normal tt, with_memory buf' g) /\
    length buf' = length buf /\
    ArrayBuffer.slice buf' addr 8 = Some (le_split 4 lo ++ le_split 4 hi) /\
    (forall off len, off + len <= addr \/ addr + 8 <= off ->
       ArrayBuffer.slice buf' off len = ArrayBuffer.slice buf off len).
Proof.
  intros Hm Hr.
  destruct (BufferFacts.blit_Some buf (addr + 4) (le_split 4 hi)) as [buf1 Hb1].
  { rewrite length_le_split. apply (BufferFacts.in_range_sub _ _ _ _ _ Hr); lia. }
  destruct (BufferFacts.blit_Some buf1 addr (le_split 4 lo)) as [buf2 Hb2].
  { rewrite length_le_split, (BufferFacts.blit_in_range _ _ _ _ _ _ Hb1).
    apply (BufferFacts.in_range_sub _ _ _ _ _ Hr); lia. }
  exists buf2. repeat split.
  - rewrite (bind_normal _ _ _ _ _ (setUint32_run _ _ _ _ _ Hm Hb1)).
    rewrite (setUint32_run _ buf1 _ _ buf2); [|by eapply memory_with_memory|done].
    by rewrite with_memory_twice.
  - rewrite (BufferFacts.blit_length _ _ _ _ Hb2). apply (BufferFacts.blit_length _ _ _ _ Hb1).
  - apply (BufferFacts.slice_app _ _ 4 4).
    + pose proof (BufferFacts.slice_blit_same _ _ _ _ Hb2) as S.
      by rewrite length_le_split in S.
    + rewrite (BufferFacts.slice_blit_other _ _ _ _ _ _ Hb2) by (rewrite length_le_split; lia).
      pose proof (BufferFacts.slice_blit_same _ _ _ _ Hb1) as S.
      by rewrite length_le_split in S.
  - intros off len Hd.
    rewrite (BufferFacts.slice_blit_other _ _ _ _ _ _ Hb2) by (rewrite length_le_split; lia).
    apply (BufferFacts.slice_blit_other _ _ _ _ _ _ Hb1). rewrite length_le_split. lia.
Qed.

Lemma le_combine_words lo hi :
  le_combine (le_split 4 lo ++ le_split 4 hi) =
  Z.lor (lo mod 2 ^ 32) (Z.shiftl (hi mod 2 ^ 32) 32).
Proof.
  rewrite le_combine_app, !le_combine_split, length_le_split. reflexivity.
Qed.

Lemma take_words lo hi : take 4 (le_split 4 lo ++ le_split 4 hi) = le_split 4 lo.
Proof. apply take_app_length'. by rewrite length_le_split. Qed.

(** Storing a tagged slot and loading it gives the table's element at
    the index. *)
Lemma load_after_store_words g buf addr flag lo values :
  memory g = Some buf -> ArrayBuffer.in_range buf addr 8 = true ->
  _values g = Some values ->
  0 <= flag <= 3 -> 0 <= lo < 2 ^ 32 ->
  exists buf',
    (setUint32 (addr + 4) (Z.lor nanHead flag) >>> setUint32 addr lo) g
      = (Normal tt, with_memory buf' g) /\
    length buf' = length buf /\
    (forall off len, off + len <= addr \/ addr + 8 <= off ->
       ArrayBuffer.slice buf' off len = ArrayBuffer.slice buf off len) /\
    loadValue addr (with_memory buf' g) =
      (Normal (default VUndefined (values !! Z.to_nat lo)), with_memory buf' g).
Proof.
  intros Hm Hr Hv Hf Hlo.
  destruct (store_words_run g buf addr (Z.lor nanHead flag) lo Hm Hr)
    as (buf' & Hrun & Hlen & Hs & Hother).
  exists buf'. repeat split; try assumption.
  assert (Hhi : Z.lor nanHead flag mod 2 ^ 32 = Z.lor nanHead flag).
  { assert (flag = 0 \/ flag = 1 \/ flag = 2 \/ flag = 3) as [->|[->|[->| ->]]] by lia;
      reflexivity. }
  rewrite (loadValue_reference _ buf' addr _ values
             (memory_with_memory _ _ _ Hm) Hs).
  - rewrite take_words, le_combine_split.
    change (Z.of_nat 4 * 8) with 32. by rewrite Z.mod_small.
  - rewrite le_combine_words, Hhi, Z.mod_small by lia. by apply boxed_is_nan.
  - by rewrite values_with_memory.
Qed.

(** ** The value table *)

Lemma set_table_fields g values refs :
  _values (set_table values refs g) = Some values /\
  _refs (set_table values refs g) = Some refs /\
  memory (set_table values refs g) = memory g /\
  exited (set_table values refs g) = exited g /\
  running (set_table values refs g) = running g /\
  host (set_table values refs g) = host g /\
  instance (set_table values refs g) = instance g.
Proof. destruct g; simpl; tauto. Qed.

Lemma set_table_same g values refs :
  _values g = Some values -> _refs g = Some refs -> set_table values refs g = g.
Proof. destruct g; simpl. by intros -> ->. Qed.

Lemma reserved_lookup values (k : nat) :
  take 5 values = reserved -> (k < 5)%nat -> values !! k = reserved !! k.
Proof. intros <- Hk. by rewrite lookup_take_lt. Qed.

Lemma typeFlag_range v : 0 <= typeFlag v <= 3.
Proof. destruct v; unfold typeFlag; simpl; lia. Qed.

Lemma intern_lookup v values refs r values' refs' :
  intern v values refs = (r, values', refs') ->
  (forall w q, refs !! w = Some q -> 0 <= q /\ values !! Z.to_nat q = Some w) ->
  refs' !! v = Some r /\ 0 <= r /\ values' !! Z.to_nat r = Some v /\
  (forall w q, refs' !! w = Some q -> 0 <= q /\ values' !! Z.to_nat q = Some w) /\
  (forall k x, values !! k = Some x -> values' !! k = Some x).
Proof.
  unfold intern. intros H Hinv. destruct (refs !! v) as [q|] eqn:E.
  - injection H as <- <- <-. destruct (Hinv _ _ E). auto.
  - injection H as <- <- <-.
    assert (Hnew : (values ++ [v]) !! Z.to_nat (Z.of_nat (length values)) = Some v).
    { rewrite Nat2Z.id, lookup_app_r by lia. by rewrite Nat.sub_diag. }
    split; [apply lookup_insert_eq|]. split; [lia|]. split; [exact Hnew|]. split.
    + intros w q H. destruct (decide (v = w)) as [->|Hne].
      * rewrite lookup_insert_eq in H. injection H as <-. split; [lia|exact Hnew].
      * rewrite lookup_insert_ne in H by done. apply Hinv in H as [? H].
        split; [done|]. by apply lookup_app_l_Some.
    + intros k x. apply lookup_app_l_Some.
Qed.

(** The table lookup of [storeValue] (lines 411-417) is [intern]. *)
Lemma storeValue_interns g addr v values refs :
  ~ primitive v ->
  _values g = Some values -> _refs g = Some refs ->
  (is_Some (refs !! v) \/ Z.of_nat (length values) < 2 ^ 32 - 1) ->
  storeValue addr v g =
    (setUint32 (addr + 4) (Z.lor nanHead (typeFlag v)) >>>
     setUint32 addr (intern v values refs).1.1)
      (set_table (intern v values refs).1.2 (intern v values refs).2 g).
Proof.
  intros Hp Hv Hr Hroom.
  assert (E : storeValue addr v g =
    (let! g := get_state in
     let! refs := defined (_refs g) in
     let! ref :=
       match refs !! v with
       | Some ref => ret ref
       | None =>
           let! values := defined (_values g) in
           let ref := Z.of_nat (length values) in
           push_value v >>> modify (set_refs (Some (<[v := ref]> refs))) >>> ret ref
       end in
     setUint32 (addr + 4) (Z.lor nanHead (typeFlag v)) >>> setUint32 addr ref) g).
  { destruct v as [x| | |b| | | |]; try reflexivity; simpl in Hp; tauto. }
  rewrite E. clear E. unfold intern, bind at 1 2 3, get_state, defined.
  rewrite Hr. unfold ret at 1. destruct (refs !! v) as [r|] eqn:El; simpl.
  - by rewrite set_table_same.
  - destruct Hroom as [[? ?]|Hroom]; [discriminate|].
    unfold push_value, bind, get_state, defined, modify, ret. cbv beta iota.
    rewrite Hv. cbv beta iota. rewrite Hv. cbv beta iota.
    destruct (Z.leb_spec (2 ^ 32 - 1) (Z.of_nat (length values))) as [|_]; [lia|].
    reflexivity.
Qed.

(** [storeValue] on a primitive: the slot is written, the table is not
    touched, and [loadValue] reads the value back. *)
Lemma storeValue_primitive_run g addr v buf values :
  memory g = Some buf -> ArrayBuffer.in_range buf addr 8 = true ->
  _values g = Some values -> take 5 values = reserved ->
  wf_value v -> primitive v ->
  exists buf',
    storeValue addr v g = (Normal tt, with_memory buf' g) /\
    length buf' = length buf /\
    (forall off len, off + len <= addr \/ addr + 8 <= off ->
       ArrayBuffer.slice buf' off len = ArrayBuffer.slice buf off len) /\
    loadValue addr (with_memory buf' g) = (Normal v, with_memory buf' g).
Proof.
  intros Hm Hr Hv Hres Hwf Hp.
  assert (Htag : forall k : nat, (k < 5)%nat -> reserved !! k = Some v ->
    exists buf',
      (setUint32 (addr + 4) nanHead >>> setUint32 addr (Z.of_nat k)) g
        = (Normal tt, with_memory buf' g) /\
      length buf' = length buf /\
      (forall off len, off + len <= addr \/ addr + 8 <= off ->
         ArrayBuffer.slice buf' off len = ArrayBuffer.slice buf off len) /\
      loadValue addr (with_memory buf' g) = (Normal v, with_memory buf' g)).
  { intros k Hk Hkv.
    destruct (load_after_store_words g buf addr 0 (Z.of_nat k) values Hm Hr Hv)
      as (buf' & R & Hl & Hf & L); [lia..|].
    exists buf'. rewrite Nat2Z.id, (reserved_lookup _ _ Hres Hk), Hkv in L.
    auto. }
  destruct v as [[|b]| | |[|]| | | |]; simpl in Hp; try tauto.
  - apply (Htag 0%nat); [lia|reflexivity].
  - destruct Hwf as [Hb Hn].
    destruct (BufferFacts.blit_Some buf addr (le_split 8 b)) as [buf' Hb'].
    { by rewrite length_le_split. }
    assert (Hs : ArrayBuffer.slice buf' addr 8 = Some (le_split 8 b)).
    { pose proof (BufferFacts.slice_blit_same _ _ _ _ Hb') as S.
      by rewrite length_le_split in S. }
    exists buf'. split; [|split; [|split]].
    + apply (setFloat64_run _ _ _ (Float b) _ Hm Hb').
    + apply (BufferFacts.blit_length _ _ _ _ Hb').
    + intros off len Hd. apply (BufferFacts.slice_blit_other _ _ _ _ _ _ Hb').
      rewrite length_le_split. lia.
    + apply (loadValue_float _ buf' _ _ b (memory_with_memory _ _ _ Hm) Hs); [|done].
      rewrite le_combine_split. apply Z.mod_small. exact Hb.
  - apply (Htag 1%nat); [lia|reflexivity].
  - apply (Htag 2%nat); [lia|reflexivity].
  - apply (Htag 3%nat); [lia|reflexivity].
  - apply (Htag 4%nat); [lia|reflexivity].
Qed.

(** [storeValue] on any other value: the value gets its index by
    [intern], the slot holds the tag and the index, and [loadValue] reads
    the value back. *)
Lemma storeValue_reference_run g addr v buf values refs :
  ~ primitive v ->
  memory g = Some buf -> ArrayBuffer.in_range buf addr 8 = true ->
  _values g = Some values -> _refs g = Some refs ->
  Z.of_nat (length values) <= 2 ^ 32 - 1 ->
  (forall w q, refs !! w = Some q -> 0 <= q /\ values !! Z.to_nat q = Some w) ->
  (is_Some (refs !! v) \/ Z.of_nat (length values) < 2 ^ 32 - 1) ->
  exists buf' r values' refs',
    intern v values refs = (r, values', refs') /\
    0 <= r < 2 ^ 32 /\
    storeValue addr v g = (Normal tt, with_memory buf' (set_table values' refs' g)) /\
    length buf' = length buf /\
    (forall off len, off + len <= addr \/ addr + 8 <= off ->
       ArrayBuffer.slice buf' off len = ArrayBuffer.slice buf off len) /\
    ArrayBuffer.slice buf' addr 4 = Some (le_split 4 r) /\
    loadValue addr (with_memory buf' (set_table values' refs' g))
      = (Normal v, with_memory buf' (set_table values' refs' g)).
Proof.
  intros Hp Hm Hr Hv Hrefs Hlen Hinv Hroom.
  destruct (intern v values refs) as [[r values'] refs'] eqn:Ei.
  destruct (intern_lookup _ _ _ _ _ _ Ei Hinv) as (Hl & Hr0 & Hval & Hinv' & Hmono).
  assert (Hr32 : 0 <= r < 2 ^ 32).
  { split; [done|]. apply lookup_lt_Some in Hval.
    assert (Z.of_nat (length values') <= 2 ^ 32 - 1); [|lia].
    revert Ei. unfold intern. destruct (refs !! v) eqn:E.
    - by intros [= _ <- _].
    - intros [= _ <- _]. destruct Hroom as [[? ?]|?]; [discriminate|].
      rewrite length_app. simpl. lia. }
  pose proof (set_table_fields g values' refs') as (Fv & Fr & Fm & _).
  destruct (load_after_store_words (set_table values' refs' g) buf addr
              (typeFlag v) r values')
    as (buf' & R & Hl' & Hf & L); try done.
  { by rewrite Fm. }
  { apply typeFlag_range. }
  exists buf', r, values', refs'.
  rewrite (storeValue_interns g addr v values refs Hp Hv Hrefs Hroom), Ei. simpl.
  rewrite Hval in L. simpl in L.
  split; [done|]. split; [done|]. split; [done|]. split; [done|]. split; [done|].
  split; [|done].
  destruct (store_words_run (set_table values' refs' g) buf addr
              (Z.lor nanHead (typeFlag v)) r) as (buf'' & R' & _ & Hs & _).
  { by rewrite Fm. }
  { done. }
  rewrite R in R'. injection R' as E.
  assert (buf' = buf'') as ->.
  { apply (f_equal memory) in E.
    rewrite !(memory_with_memory _ _ buf) in E by (by rewrite Fm). congruence. }
  pose proof (slice_prefix _ _ 4 4 _ ltac:(lia) ltac:(lia) Hs) as Hs4.
  by rewrite take_words in Hs4.
Qed.

Lemma table_ok_load inst g : table_ok (load inst g).
Proof.
  eexists _, ∅. split; [by destruct g|]. split; [by destruct g|].
  split; [simpl; lia|]. split; [reflexivity|].
  intros v r H. by rewrite lookup_empty in H.
Qed.

Lemma table_ok_with_memory g buf : table_ok g -> table_ok (with_memory buf g).
Proof.
  intros (values & refs & Hv & Hr & H). exists values, refs.
  by rewrite values_with_memory, refs_with_memory.
Qed.

Lemma word_at_with_memory g buf0 buf addr r :
  memory g = Some buf0 -> 0 <= r < 2 ^ 32 ->
  ArrayBuffer.slice buf addr 4 = Some (le_split 4 r) ->
  word_at (with_memory buf g) addr = Some r.
Proof.
  intros Hm Hr Hs. unfold word_at. rewrite (memory_with_memory _ _ _ Hm). simpl.
  unfold DataView.getUint32. rewrite Hs. simpl. f_equal.
  rewrite le_combine_split. by apply Z.mod_small.
Qed.

(** [storeValue] on a value that is not a primitive, with everything it
    leaves behind. *)
Lemma storeValue_index g addr v :
  table_ok g -> addressable g addr 8 -> ~ primitive v ->
  interned g v \/ has_room g ->
  exists g' r values refs values' refs',
    _values g = Some values /\ _refs g = Some refs /\
    intern v values refs = (r, values', refs') /\
    storeValue addr v g = (Normal tt, g') /\
    word_at g' addr = Some r /\
    _values g' = Some values' /\ _refs g' = Some refs' /\
    table_ok g' /\
    (forall a n, addressable g a n -> addressable g' a n) /\
    loadValue addr g' = (Normal v, g') /\
    same_extent g g'.
Proof.
  intros (values & refs & Hv & Hr & Hlen & Hres & Hinv) (buf & Hm & Hin) Hp Hroom.
  assert (Hroom' : is_Some (refs !! v) \/ Z.of_nat (length values) < 2 ^ 32 - 1).
  { destruct Hroom as [(refs0 & r & Hr0 & Hl)|(values0 & Hv0 & Hl)].
    - left. rewrite Hr in Hr0. injection Hr0 as <-. eauto.
    - right. rewrite Hv in Hv0. injection Hv0 as <-. lia. }
  destruct (storeValue_reference_run g addr v buf values refs Hp Hm Hin Hv Hr Hlen Hinv Hroom')
    as (buf' & r & values' & refs' & Ei & Hr32 & R & Hl & Hf & Hs4 & L).
  pose proof (set_table_fields g values' refs') as (Fv & Fr & Fm & _).
  destruct (intern_lookup _ _ _ _ _ _ Ei Hinv) as (Hlk & _ & Hval & Hinv' & Hmono).
  exists (with_memory buf' (set_table values' refs' g)), r, values, refs, values', refs'.
  split; [done|]. split; [done|]. split; [done|]. split; [done|].
  split. { apply (word_at_with_memory _ buf); [by rewrite Fm|done|done]. }
  split. { by rewrite values_with_memory. }
  split. { by rewrite refs_with_memory. }
  split.
  { apply table_ok_with_memory. exists values', refs'.
    split; [done|]. split; [done|]. split.
    - revert Ei. unfold intern. destruct (refs !! v) eqn:E.
      + by intros [= _ <- _].
      + intros [= _ <- _]. destruct Hroom' as [[? ?]|?]; [discriminate|].
        rewrite length_app. simpl. lia.
    - split; [|done]. apply list_eq. intros k. rewrite <- Hres, !lookup_take.
      destruct (decide (k < 5)%nat); [|done].
      destruct (values !! k) eqn:E.
      + by apply Hmono.
      + exfalso. apply lookup_ge_None in E.
        apply (f_equal length) in Hres. rewrite length_take in Hres.
        change (length reserved) with 5%nat in Hres. lia. }
  assert (Hm' : memory (with_memory buf' (set_table values' refs' g)) = Some buf').
  { apply (memory_with_memory _ _ buf). by rewrite Fm. }
  split; [|split; [done|]].
  - intros a n (b & Hb & Hbr). exists buf'. split; [done|].
    rewrite Hm in Hb. injection Hb as <-.
    revert Hbr. unfold ArrayBuffer.in_range. by rewrite Hl.
  - by exists buf, buf'.
Qed.

Lemma classic_primitive v : primitive v \/ ~ primitive v.
Proof. destruct v; simpl; tauto. Qed.

Lemma is_finite_wf x : Float64.is_finite x -> Float64.wf x.
Proof.
  destruct x as [|b]; simpl; [tauto|]. intros [Hb He]. split; [done|].
  unfold Float64.is_nan_pattern. apply andb_false_iff. left. by apply Z.eqb_neq.
Qed.

(** ** References without an element *)

(** C5, as the code has it: a slot that holds a boxed reference whose
    index is at or beyond the length of [_values] makes [loadValue]
    return [undefined]; nothing is thrown and the bridge is unchanged. *)
Theorem loadValue_beyond_table g addr id values :
  slot_is_reference g addr -> word_at g addr = Some id ->
  _values g = Some values -> Z.of_nat (length values) <= id ->
  loadValue addr g = (Normal VUndefined, g).
Proof.
  intros (buf & bs & Hm & Hs & Hn) Hw Hv Hid.
  rewrite (loadValue_reference g buf addr bs values Hm Hs Hn Hv).
  unfold word_at in Hw. rewrite Hm in Hw. simpl in Hw.
  unfold DataView.getUint32 in Hw.
  rewrite (slice_prefix buf addr 4 4 bs ltac:(lia) ltac:(lia) Hs) in Hw.
  simpl in Hw. injection Hw as Hw. change (Z.to_nat 4) with 4%nat in Hw.
  rewrite Hw, lookup_ge_None_2 by lia. reflexivity.
Qed.

Lemma loadValue_beyond_table_witness :
  loadValue 0 dangling_go = (Normal VUndefined, dangling_go).
Proof.
  apply (loadValue_beyond_table dangling_go 0 8
           [VNumber NaN; VUndefined; VNull; VBool true; VBool false;
            internalGlobal; VObject (WasmMemory 0); VObject (GoInstance 0)]).
  - eexists _, _. split; [reflexivity|]. split; [reflexivity|]. reflexivity.
  - reflexivity.
  - reflexivity.
  - simpl. lia.
Defined.

(** C5 as it is written fails: the slot at 0 of [dangling_go] holds the
    tag with index 8, the table has eight elements, and [loadValue]
    does not throw. *)
Lemma loadValue_beyond_table_no_crash :
  slot_is_reference dangling_go 0 /\
  word_at dangling_go 0 = Some 8 /\
  (length <$> _values dangling_go) = Some 8%nat /\
  ~ (exists e g', loadValue 0 dangling_go = (Throw e, g')).
Proof.
  split. { eexists _, _. split; [reflexivity|]. split; reflexivity. }
  split; [reflexivity|]. split; [reflexivity|].
  intros (e & g' & H). vm_compute in H. discriminate.
Qed.

(** ** Determinism of the table *)

Lemma intern_refs v values refs r values' refs' :
  intern v values refs = (r, values', refs') ->
  refs' !! v = Some r /\
  (forall w q, refs !! w = Some q -> refs' !! w = Some q) /\
  (length values' <= S (length values))%nat.
Proof.
  unfold intern. destruct (refs !! v) as [q|] eqn:E; intros [= <- <- <-].
  - auto.
  - split; [apply lookup_insert_eq|]. split.
    + intros w q H. rewrite lookup_insert_ne; [done|]. intros ->. congruence.
    + rewrite length_app. simpl. lia.
Qed.

Lemma intern_known v values refs r :
  refs !! v = Some r -> intern v values refs = (r, values, refs).
Proof. unfold intern. by intros ->. Qed.

(** C7: [load] binds the ids 0-7 of every instantiation to NaN,
    [undefined], [null], [true], [false], the global object, the memory
    object and the bridge object; [storeValue] of a value that is not a
    primitive, done twice, writes the same index both times; and
    [storeValue] of two distinct such values writes two distinct
    indices. *)
Theorem value_table_determinism inst g0 g addr1 addr2 v1 v2 :
  table_ok g -> room g 2 ->
  addressable g addr1 8 -> addressable g addr2 8 ->
  ~ primitive v1 -> ~ primitive v2 ->
  _values (load inst g0) =
    Some [VNumber NaN; VUndefined; VNull; VBool true; VBool false;
          internalGlobal; VObject (WasmMemory (exports_mem inst));
          VObject (GoInstance (this_id g0))] /\
  (exists g1 g2 r,
     storeValue addr1 v1 g = (Normal tt, g1) /\
     storeValue addr2 v1 g1 = (Normal tt, g2) /\
     word_at g1 addr1 = Some r /\ word_at g2 addr2 = Some r) /\
  (v1 <> v2 ->
   exists g1 g2 r1 r2,
     storeValue addr1 v1 g = (Normal tt, g1) /\
     storeValue addr2 v2 g1 = (Normal tt, g2) /\
     word_at g1 addr1 = Some r1 /\ word_at g2 addr2 = Some r2 /\
     r1 <> r2).
Proof.
  intros Hok (values0 & Hv0 & Hroom) Ha1 Ha2 Hp1 Hp2.
  split. { by destruct g0. }
  assert (Hroom1 : interned g v1 \/ has_room g).
  { right. exists values0. split; [done|lia]. }
  destruct (storeValue_index g addr1 v1 Hok Ha1 Hp1 Hroom1)
    as (g1 & r1 & values & refs & values1 & refs1
        & Hv & Hr & Ei1 & R1 & W1 & Hv1 & Hr1 & Hok1 & Hadd1 & _).
  destruct (intern_refs _ _ _ _ _ _ Ei1) as (Hl1 & Hmono1 & Hlen1).
  rewrite Hv0 in Hv. injection Hv as <-.
  split.
  - assert (Hin : interned g1 v1) by (exists refs1, r1; done).
    destruct (storeValue_index g1 addr2 v1 Hok1 (Hadd1 _ _ Ha2) Hp1 (or_introl Hin))
      as (g2 & r2 & values' & refs' & values2 & refs2
          & Hv' & Hr' & Ei2 & R2 & W2 & _).
    rewrite Hr1 in Hr'. injection Hr' as <-.
    rewrite (intern_known _ _ _ _ Hl1) in Ei2. injection Ei2 as <- _ _.
    exists g1, g2, r1. done.
  - intros Hne.
    assert (Hroom2 : interned g1 v2 \/ has_room g1).
    { right. exists values1. split; [done|lia]. }
    destruct (storeValue_index g1 addr2 v2 Hok1 (Hadd1 _ _ Ha2) Hp2 Hroom2)
      as (g2 & r2 & values' & refs' & values2 & refs2
          & Hv' & Hr' & Ei2 & R2 & W2 & Hv2 & Hr2 & Hok2 & _).
    rewrite Hr1 in Hr'. injection Hr' as <-.
    destruct (intern_refs _ _ _ _ _ _ Ei2) as (Hl2 & Hmono2 & _).
    exists g1, g2, r1, r2. do 4 (split; [done|]).
    intros ->.
    destruct Hok2 as (vs & rs & Hvs & Hrs & _ & _ & Hinv).
    rewrite Hr2 in Hrs. injection Hrs as <-.
    destruct (Hinv _ _ Hl2) as [_ E2].
    destruct (Hinv _ _ (Hmono2 _ _ Hl1)) as [_ E1].
    congruence.
Qed.

Lemma value_table_determinism_witness :
  (exists g1 g2 r,
     storeValue 0 (VString "a") (fresh_go 16) = (Normal tt, g1) /\
     storeValue 8 (VString "a") g1 = (Normal tt, g2) /\
     word_at g1 0 = Some r /\ word_at g2 8 = Some r) /\
  (exists g1 g2 r1 r2,
     storeValue 0 (VString "a") (fresh_go 16) = (Normal tt, g1) /\
     storeValue 8 (VObject (HostObject 1)) g1 = (Normal tt, g2) /\
     word_at g1 0 = Some r1 /\ word_at g2 8 = Some r2 /\
     r1 <> r2).
Proof.
  destruct (value_table_determinism (zero_instance 16) (constructor 0) (fresh_go 16)
              0 8 (VString "a") (VObject (HostObject 1)))
    as (_ & Hsame & Hdiff).
  - apply table_ok_load.
  - eexists. split; [reflexivity|]. simpl. lia.
  - exists (replicate 16 Byte.x00). split; reflexivity.
  - exists (replicate 16 Byte.x00). split; reflexivity.
  - simpl. tauto.
  - simpl. tauto.
  - split; [exact Hsame|]. apply Hdiff. discriminate.
Defined.

(** ** Isolation of the dispatch operations *)

Lemma addressable_same_extent g g' a n :
  same_extent g g' -> addressable g a n -> addressable g' a n.
Proof.
  intros (buf & buf' & Hm & Hm' & Hl) (b & Hb & Hr).
  rewrite Hm in Hb. injection Hb as <-. exists buf'. split; [done|].
  revert Hr. unfold ArrayBuffer.in_range. by rewrite Hl.
Qed.

Lemma storeValue_any g addr v :
  table_ok g -> addressable g addr 8 -> wf_value v ->
  primitive v \/ interned g v \/ has_room g ->
  exists g',
    storeValue addr v g = (Normal tt, g') /\
    loadValue addr g' = (Normal v, g') /\
    table_ok g' /\ same_extent g g'.
Proof.
  intros Hok Ha Hwf Hv. destruct (classic_primitive v) as [Hp|Hp].
  - pose proof Hok as (values & refs & Hvs & _ & _ & Hres & _).
    destruct Ha as (buf & Hm & Hin).
    destruct (storeValue_primitive_run g addr v buf values Hm Hin Hvs Hres Hwf Hp)
      as (buf' & R & Hl & _ & L).
    exists (with_memory buf' g). split; [done|]. split; [done|].
    split; [by apply table_ok_with_memory|].
    exists buf, buf'. split; [done|]. split; [|done]. by eapply memory_with_memory.
  - assert (Hr : interned g v \/ has_room g) by tauto.
    destruct (storeValue_index g addr v Hok Ha Hp Hr)
      as (g' & r & values & refs & values' & refs' & _ & _ & _ & R & _ & _ & _ & Hok' & _ & L & He).
    exists g'. done.
Qed.

(** C1: on a bridge whose value table is in place, for every primitive
    (a double that is not NaN, finite ones included; NaN; [true];
    [false]; [null]; [undefined]) and for every other value that has an
    entry in the table or finds room in it, [storeValue] at an address of
    the linear memory followed by [loadValue] at that address completes
    and gives the value back. NaN comes back as the number NaN. *)
Theorem loadValue_storeValue_roundtrip g addr v :
  table_ok g -> addressable g addr 8 -> wf_value v ->
  primitive v \/ interned g v \/ has_room g ->
  exists g',
    storeValue addr v g = (Normal tt, g') /\
    loadValue addr g' = (Normal v, g').
Proof.
  intros Hok Ha Hwf Hv.
  destruct (storeValue_any g addr v Hok Ha Hwf Hv) as (g' & R & L & _).
  by exists g'.
Qed.

Lemma loadValue_storeValue_roundtrip_witness :
  exists g',
    storeValue 8 (VNumber NaN) (fresh_go 16) = (Normal tt, g') /\
    loadValue 8 g' = (Normal (VNumber NaN), g').
Proof.
  apply (loadValue_storeValue_roundtrip (fresh_go 16) 8 (VNumber NaN)).
  - apply table_ok_load.
  - exists (replicate 16 Byte.x00). split; reflexivity.
  - exact I.
  - left. exact I.
Defined.

(** The same on the doubles 1.5 and -Infinity, by their bit patterns. *)
Example loadValue_storeValue_doubles :
  Float64.is_finite (Float 0x3FF8000000000000) /\
  (exists g', storeValue 8 (VNumber (Float 0x3FF8000000000000)) (fresh_go 16)
                = (Normal tt, g') /\
              loadValue 8 g' = (Normal (VNumber (Float 0x3FF8000000000000)), g')) /\
  (exists g', storeValue 8 (VNumber (Float 0xFFF0000000000000)) (fresh_go 16)
                = (Normal tt, g') /\
              loadValue 8 g' = (Normal (VNumber (Float 0xFFF0000000000000)), g')).
Proof.
  split; [split; [vm_compute; split; [discriminate|reflexivity]|vm_compute; discriminate]|].
  split.
  - eexists. split; [vm_compute; reflexivity|]. vm_compute. reflexivity.
  - eexists. split; [vm_compute; reflexivity|]. vm_compute. reflexivity.
Qed.

(** The same on a value that is in the table: the string "a", stored
    once before. *)
Example loadValue_storeValue_interned :
  exists g1 g2,
    storeValue 0 (VString "a") (fresh_go 16) = (Normal tt, g1) /\
    interned g1 (VString "a") /\
    storeValue 8 (VString "a") g1 = (Normal tt, g2) /\
    loadValue 8 g2 = (Normal (VString "a"), g2) /\
    (length <$> _values g2) = Some 9%nat.
Proof.
  eexists _, _. split; [vm_compute; reflexivity|]. split.
  - eexists _, _. split; [reflexivity|]. vm_compute. reflexivity.
  - repeat split; vm_compute; reflexivity.
Qed.



Lemma getFloat64_outside g buf addr :
  memory g = Some buf -> ArrayBuffer.slice buf addr 8 = None ->
  getFloat64 addr g = (Throw (Raised KRangeError), g).
Proof.
  intros Hm Hs. unfold getFloat64. rewrite (bind_normal _ _ _ _ _ (memRaw_run _ _ Hm)).
  unfold DataView.getFloat64. rewrite Hs. reflexivity.
Qed.

(** [loadValue] reads the eight bytes of its slot and the table. *)
Lemma loadValue_frame g buf buf' addr v :
  memory g = Some buf ->
  ArrayBuffer.slice buf' addr 8 = ArrayBuffer.slice buf addr 8 ->
  loadValue addr g = (Normal v, g) ->
  loadValue addr (with_memory buf' g) = (Normal v, with_memory buf' g).
Proof.
  intros Hm Hs. pose proof (memory_with_memory g buf' buf Hm) as Hm'.
  destruct (ArrayBuffer.slice buf addr 8) as [bs|] eqn:E.
  - destruct (Float64.is_nan_pattern (le_combine bs)) eqn:En.
    + destruct (_values g) as [values|] eqn:Ev.
      * rewrite (loadValue_reference g buf addr bs values Hm E En Ev).
        rewrite (loadValue_reference _ buf' addr bs values Hm' Hs En);
          [|by rewrite values_with_memory].
        by intros [= ->].
      * unfold loadValue.
        rewrite (bind_normal _ _ _ _ _ (getFloat64_run _ _ _ _ Hm E)).
        unfold Float64.of_bits. rewrite En. simpl.
        pose proof (slice_prefix buf addr 4 4 bs ltac:(lia) ltac:(lia) E) as Hs4.
        rewrite (bind_normal _ _ _ _ _ (getUint32_run _ _ _ _ Hm Hs4)).
        unfold bind, get_state, defined. rewrite Ev. discriminate.
    + rewrite (loadValue_float g buf addr bs _ Hm E eq_refl En).
      rewrite (loadValue_float _ buf' addr bs _ Hm' Hs eq_refl En).
      by intros [= ->].
  - unfold loadValue.
    rewrite (bind_throw _ _ _ _ _ (getFloat64_outside _ _ _ Hm E)). discriminate.
Qed.

Lemma setUint8_flag g addr f :
  addressable g addr 1 -> 0 <= f < 256 ->
  exists buf buf',
    memory g = Some buf /\
    setUint8 addr f g = (Normal tt, with_memory buf' g) /\
    byte_at (with_memory buf' g) addr = Some f /\
    (forall off len, off + len <= addr \/ addr + 1 <= off ->
       ArrayBuffer.slice buf' off len = ArrayBuffer.slice buf off len).
Proof.
  intros (buf & Hm & Hin) Hf.
  destruct (BufferFacts.blit_Some buf addr (le_split 1 f)) as [buf' Hb].
  { by rewrite length_le_split. }
  exists buf, buf'. split; [done|]. split; [by apply (setUint8_run _ _ _ _ _ Hm Hb)|].
  split.
  - unfold byte_at. rewrite (memory_with_memory _ _ _ Hm). simpl.
    unfold DataView.getUint8.
    pose proof (BufferFacts.slice_blit_same _ _ _ _ Hb) as S.
    rewrite length_le_split in S. change (Z.of_nat 1) with 1 in S.
    rewrite S. simpl. f_equal.
    rewrite le_combine_split. apply Z.mod_small. simpl. lia.
  - intros off len Hd. apply (BufferFacts.slice_blit_other _ _ _ _ _ _ Hb).
    rewrite length_le_split. lia.
Qed.

(** Boxing a value and setting the flag after it. *)
Lemma box_and_flag g slot v f :
  storable g slot v -> 0 <= f < 256 ->
  exists g2,
    (storeValue slot v >>> setUint8 (slot + 8) f) g = (Normal tt, g2) /\
    loadValue slot g2 = (Normal v, g2) /\
    byte_at g2 (slot + 8) = Some f.
Proof.
  intros (Hok & Ha & Hwf & Hv) Hf.
  assert (Ha8 : addressable g slot 8).
  { destruct Ha as (buf & Hm & Hin). exists buf. split; [done|].
    apply (BufferFacts.in_range_sub _ _ _ _ _ Hin); lia. }
  assert (Ha1 : addressable g (slot + 8) 1).
  { destruct Ha as (buf & Hm & Hin). exists buf. split; [done|].
    apply (BufferFacts.in_range_sub _ _ _ _ _ Hin); lia. }
  destruct (storeValue_any g slot v Hok Ha8 Hwf Hv) as (g1 & R & L & _ & He).
  destruct (setUint8_flag g1 (slot + 8) f (addressable_same_extent _ _ _ _ He Ha1) Hf)
    as (buf1 & buf2 & Hm1 & R2 & B & Hfr).
  exists (with_memory buf2 g1). split.
  - by rewrite (bind_normal _ _ _ _ _ R).
  - split; [|done]. apply (loadValue_frame _ buf1); [done| |done].
    apply Hfr. lia.
Qed.

(** [catch (err)] always binds a value: what was thrown, or a new error
    object; the bridge's table and memory are as they were. *)
Lemma caught_run e g : caught e g = (Normal (thrown_value e g), (caught e g).2).
Proof. by destruct e. Qed.

Lemma storable_caught e g slot v : storable g slot v -> storable (caught e g).2 slot v.
Proof.
  destruct e as [w|k]; [done|].
  unfold storable, table_ok, addressable, interned, has_room, room, memory.
  by destruct g.
Qed.

(** The handler of the three calls: what was thrown is boxed and the
    flag cleared. *)
Lemma handler_boxes e g slot :
  storable g slot (thrown_value e g) ->
  exists g2,
    (let! err := caught e in
     storeValue slot err >>> setUint8 (slot + 8) 0) g = (Normal tt, g2) /\
    loadValue slot g2 = (Normal (thrown_value e g), g2) /\
    byte_at g2 (slot + 8) = Some 0.
Proof.
  intros Hst.
  destruct (box_and_flag (caught e g).2 slot (thrown_value e g) 0
              (storable_caught e g slot _ Hst) ltac:(lia)) as (g2 & R & L & B).
  exists g2. split; [|done].
  by rewrite (bind_normal _ _ _ _ _ (caught_run e g)).
Qed.

Lemma guarded_isolates {A} (operands : M A) (op : A -> M jsval) slot :
  isolates (guarded operands op slot (slot + 8)) operands op slot (slot + 8).
Proof.
  intros g. split; [|split].
  - intros e g1 Hops Hst.
    destruct (handler_boxes e g1 slot Hst) as (g2 & R & L & B).
    exists g2. split; [|done].
    unfold guarded, try_catch.
    by rewrite (bind_throw _ _ _ _ _ Hops).
  - intros a g0 e g1 Hops Hop Hst.
    destruct (handler_boxes e g1 slot Hst) as (g2 & R & L & B).
    exists g2. split; [|done].
    unfold guarded, try_catch.
    by rewrite (bind_normal _ _ _ _ _ Hops), (bind_throw _ _ _ _ _ Hop).
  - intros a g0 r g1 Hops Hop Hst.
    destruct (box_and_flag g1 slot r 1 Hst ltac:(lia)) as (g2 & R & L & B).
    exists g2. split; [|done].
    unfold guarded, try_catch.
    rewrite (bind_normal _ _ _ _ _ Hops), (bind_normal _ _ _ _ _ Hop).
    by rewrite R.
Qed.

Lemma try_catch_ext {A} (body body' : M A) handler g :
  body g = body' g -> try_catch body handler g = try_catch body' handler g.
Proof. unfold try_catch. by intros ->. Qed.

Section DispatchFacts.

Variable js_get : jsval -> string -> M jsval.
Variable Reflect_apply : jsval -> jsval -> list jsval -> M jsval.
Variable Reflect_construct : jsval -> list jsval -> M jsval.
Variable decode : list byte -> string.

Lemma valueCall_guarded addr g :
  valueCall js_get Reflect_apply decode addr g =
  guarded (valueCall_operands js_get decode addr)
          (fun a => Reflect_apply a.1.2 a.1.1 a.2)
          (addr + 56) (addr + 56 + 8) g.
Proof.
  replace (addr + 56 + 8) with (addr + 64) by lia.
  unfold valueCall, guarded, valueCall_operands. apply try_catch_ext.
  unfold bind.
  destruct (loadValue (addr + 8) g) as [[obj|e] g1]; [|reflexivity].
  cbv beta iota.
  destruct (loadString decode (addr + 16) g1) as [[name|e] g2]; [|reflexivity].
  cbv beta iota.
  destruct (js_get obj name g2) as [[method|e] g3]; [|reflexivity].
  cbv beta iota.
  destruct (loadSliceOfValues (addr + 32) g3) as [[args|e] g4]; reflexivity.
Qed.

Lemma valueInvoke_guarded addr g :
  valueInvoke Reflect_apply addr g =
  guarded (value_and_args addr)
          (fun a => Reflect_apply a.1 VUndefined a.2)
          (addr + 40) (addr + 40 + 8) g.
Proof.
  replace (addr + 40 + 8) with (addr + 48) by lia.
  unfold valueInvoke, guarded, value_and_args. apply try_catch_ext.
  unfold bind.
  destruct (loadValue (addr + 8) g) as [[obj|e] g1]; [|reflexivity].
  cbv beta iota.
  destruct (loadSliceOfValues (addr + 16) g1) as [[args|e] g2]; reflexivity.
Qed.

Lemma valueNew_guarded addr g :
  valueNew Reflect_construct addr g =
  guarded (value_and_args addr)
          (fun a => Reflect_construct a.1 a.2)
          (addr + 40) (addr + 40 + 8) g.
Proof.
  replace (addr + 40 + 8) with (addr + 48) by lia.
  unfold valueNew, guarded, value_and_args. apply try_catch_ext.
  unfold bind.
  destruct (loadValue (addr + 8) g) as [[obj|e] g1]; [|reflexivity].
  cbv beta iota.
  destruct (loadSliceOfValues (addr + 16) g1) as [[args|e] g2]; reflexivity.
Qed.

End DispatchFacts.

Lemma isolates_ext {A} (call call' : M unit) (operands : M A) op slot flag flag' :
  (forall g, call' g = call g) -> flag' = flag ->
  isolates call operands op slot flag -> isolates call' operands op slot flag'.
Proof.
  intros E -> H g. destruct (H g) as (H1 & H2 & H3).
  unfold isolated_outcome in *. split; [|split].
  - intros e g1 Hops Hst. rewrite E. eauto.
  - intros a g0 e g1 Hops Hop Hst. rewrite E. eauto.
  - intros a g0 r g1 Hops Hop Hst. rewrite E. eauto.
Qed.

(** C6: for [valueCall], [valueInvoke] and [valueNew], whatever the
    host's property read, [Reflect.apply], [Reflect.construct] and text
    decoder are. When the host operation throws ([Reflect.apply] or
    [Reflect.construct], and also the property read of [valueCall] and
    the reads of the operands, which are inside the [try] as well), the
    call returns normally, the result slot holds what was thrown (the
    thrown value itself, or the error object of a failure that the host
    raised) and the flag byte is 0; when it returns, the call returns
    normally, the result slot holds what it returned and the flag byte
    is 1. The slot and the flag are in the memory and the table can take
    the value. *)
Theorem dispatch_isolation
    (js_get : jsval -> string -> M jsval)
    (Reflect_apply : jsval -> jsval -> list jsval -> M jsval)
    (Reflect_construct : jsval -> list jsval -> M jsval)
    (decode : list byte -> string) (addr : Z) :
  isolates (valueCall js_get Reflect_apply decode addr)
           (valueCall_operands js_get decode addr)
           (fun a => Reflect_apply a.1.2 a.1.1 a.2)
           (addr + 56) (addr + 64) /\
  isolates (valueInvoke Reflect_apply addr)
           (value_and_args addr)
           (fun a => Reflect_apply a.1 VUndefined a.2)
           (addr + 40) (addr + 48) /\
  isolates (valueNew Reflect_construct addr)
           (value_and_args addr)
           (fun a => Reflect_construct a.1 a.2)
           (addr + 40) (addr + 48).
Proof.
  split; [|split].
  - eapply isolates_ext; [apply valueCall_guarded| |apply guarded_isolates]. lia.
  - eapply isolates_ext; [apply valueInvoke_guarded| |apply guarded_isolates]. lia.
  - eapply isolates_ext; [apply valueNew_guarded| |apply guarded_isolates]. lia.
Qed.

Lemma dispatch_isolation_witness :
  (exists g2,
     valueCall (fun _ _ => ret VUndefined)
               (fun _ _ _ => throw (Thrown (VString "boom")))
               (fun _ => EmptyString) 0 (fresh_go 128) = (Normal tt, g2) /\
     loadValue 56 g2 = (Normal (VString "boom"), g2) /\
     byte_at g2 64 = Some 0) /\
  (exists g2,
     valueCall (fun _ _ => throw (Raised KTypeError))
               (fun _ _ _ => ret VUndefined)
               (fun _ => EmptyString) 0 (fresh_go 128) = (Normal tt, g2) /\
     loadValue 56 g2 = (Normal (VObject (ErrorObject KTypeError 0)), g2) /\
     byte_at g2 64 = Some 0) /\
  (exists g2,
     valueNew (fun _ _ => ret (VObject (HostObject 7))) 0 (fresh_go 128)
       = (Normal tt, g2) /\
     loadValue 40 g2 = (Normal (VObject (HostObject 7)), g2) /\
     byte_at g2 48 = Some 1).
Proof.
  assert (Hst : forall slot v, 0 <= slot <= 100 -> wf_value v ->
            storable (fresh_go 128) slot v).
  { intros slot v Hs Hwf. split; [apply table_ok_load|]. split.
    - exists (replicate 128 Byte.x00). split; [reflexivity|].
      apply BufferFacts.in_range_spec. simpl. lia.
    - split; [done|]. right. right. eexists. split; [reflexivity|]. simpl. lia. }
  split; [|split].
  - destruct (dispatch_isolation
                (fun _ _ => ret VUndefined)
                (fun _ _ _ => throw (Thrown (VString "boom")))
                (fun _ _ => ret VUndefined)
                (fun _ => EmptyString) 0) as (Hcall & _ & _).
    destruct (Hcall (fresh_go 128)) as (_ & Hthrow & _).
    apply (Hthrow (VNumber (Float 0), VUndefined, []) (fresh_go 128)
             (Thrown (VString "boom")) (fresh_go 128));
      [reflexivity|reflexivity|].
    apply Hst; [lia|exact I].
  - destruct (dispatch_isolation
                (fun _ _ => throw (Raised KTypeError))
                (fun _ _ _ => ret VUndefined)
                (fun _ _ => ret VUndefined)
                (fun _ => EmptyString) 0) as (Hcall & _ & _).
    destruct (Hcall (fresh_go 128)) as (Hread & _ & _).
    apply (Hread (Raised KTypeError) (fresh_go 128)); [reflexivity|].
    apply Hst; [lia|exact I].
  - destruct (dispatch_isolation
                (fun _ _ => ret VUndefined)
                (fun _ _ _ => ret VUndefined)
                (fun _ _ => ret (VObject (HostObject 7)))
                (fun _ => EmptyString) 0) as (_ & _ & Hnew).
    destruct (Hnew (fresh_go 128)) as (_ & _ & Hret).
    apply (Hret (VNumber (Float 0), []) (fresh_go 128)
             (VObject (HostObject 7)) (fresh_go 128)); [reflexivity|reflexivity|].
    apply Hst; [lia|exact I].
Defined.

(** ** The argument block *)

#[local] Instance leb_total : Total (fun a b : string => Is_true (String.leb a b)).
Proof.
  intros a b. destruct (String.leb_total a b) as [H|H]; rewrite H; simpl; auto.
Qed.

(** The keys that [run] walks: those of the environment, each once, in
    ascending order. *)
Lemma sorted_keys_spec (e : gmap string string) :
  Sorted (fun a b : string => Is_true (String.leb a b)) (sorted_keys e) /\
  NoDup (sorted_keys e) /\
  forall k, k ∈ sorted_keys e <-> is_Some (e !! k).
Proof.
  unfold sorted_keys. split; [apply (Sorted_merge_sort _)|].
  pose proof (merge_sort_Permutation
                (fun a b : string => Is_true (String.leb a b))
                (map fst (map_to_list e))) as P.
  split.
  - rewrite P. apply NoDup_fst_map_to_list.
  - intros k. rewrite P. rewrite list_elem_of_fmap. split.
    + intros ([k' v] & -> & H). apply elem_of_map_to_list in H. eauto.
    + intros [v H]. exists (k, v). split; [done|]. by apply elem_of_map_to_list.
Qed.

Example sorted_keys_order :
  sorted_keys {[ "b"%string := "2"%string; "A"%string := "1"%string;
                 "aa"%string := "4"%string; "a"%string := "3"%string ]}
  = ["A"; "a"; "aa"; "b"]%string.
Proof. vm_compute. reflexivity. Qed.

(** C2, as the code has it: for the parameters ["prog", "42"] and the
    environment {"A": "1"}, [run] passes [argc = 3] and the block at
    [argv] reads back as the JSON texts of "main.wasm", "prog" and "42"
    (each between double quotes), then the number of environment keys,
    then the entries [key=value] in the order of their keys. *)
Theorem run_argv_block :
  exists argv g' buf,
    run_prepare ["prog"%string; "42"%string] marshal_go = (Normal (3, argv), g') /\
    memory g' = Some buf /\
    decodes_to buf argv
      [JSON_stringify "main.wasm"; JSON_stringify "prog"; JSON_stringify "42"]
      ["A=1"%string].
Proof.
  eexists _, _, _. split; [vm_compute; reflexivity|]. split; [reflexivity|].
  eexists _, _. repeat split; vm_compute; reflexivity.
Qed.

(** C2 as it is written fails: the count is 3, and no pointer of the
    block leads to the string "prog" or to the string "42". *)
Lemma run_argv_block_not_verbatim :
  exists argc argv g' buf,
    run_prepare ["prog"%string; "42"%string] marshal_go = (Normal (argc, argv), g') /\
    memory g' = Some buf /\
    argc <> 2 /\
    ~ decodes_to buf argv ["prog"%string; "42"%string] ["A=1"%string] /\
    forall ptrs strs,
      ReferenceDecoder.words buf argv 5 = Some ptrs ->
      ReferenceDecoder.strings buf (take 3 ptrs ++ drop 4 ptrs) = Some strs ->
      ("prog"%string ∉ strs) /\ ("42"%string ∉ strs).
Proof.
  eexists _, _, _, _. split; [vm_compute; reflexivity|]. split; [reflexivity|].
  split; [discriminate|]. split.
  - intros (ptrs & eptrs & Hw & Hs & _).
    vm_compute in Hw. injection Hw as <-. vm_compute in Hs. discriminate.
  - intros ptrs strs Hw Hs.
    vm_compute in Hw. injection Hw as <-. vm_compute in Hs. injection Hs as <-.
    split; intros H; repeat (apply elem_of_cons in H as [H|H]; [discriminate|]);
      by apply elem_of_nil in H.
Qed.

(** ** Timers *)

(** C4 (the code departs from it): neither the constructor nor [load]
    creates [_callbackTimeouts] or [_nextCallbackTimeoutID]. On a loaded
    instance [scheduleCallback] throws [TypeError] at
    [this._callbackTimeouts.set]: no timer is registered, no id is written
    to the memory, and the counter is left at NaN. *)
Theorem scheduleCallback_after_load id inst addr :
  exists g',
    scheduleCallback addr (load inst (constructor id))
      = (Throw (Raised KTypeError), g') /\
    timers (host g') = [] /\
    _callbackTimeouts g' = None /\
    _nextCallbackTimeoutID g' = CNaN /\
    memory g' = Some (buffer inst).
Proof. eexists. split; [vm_compute; reflexivity|]. by destruct inst. Qed.

(** With the two properties in place the same call registers a timer
    under the counter's value, writes that value at [addr + 16] and
    moves the counter on. *)
Example scheduleCallback_with_properties :
  exists g',
    scheduleCallback 0 timers_go = (Normal tt, g') /\
    timers (host g') = [Build_timer 0 1 CallResolver] /\
    _callbackTimeouts g' = Some [(CInt 1, 0%nat)] /\
    _nextCallbackTimeoutID g' = CInt 2 /\
    word_at g' 16 = Some 1.
Proof. eexists. split; [vm_compute; reflexivity|]. repeat split; vm_compute; reflexivity. Qed.

(** ** What keeps a property of the bridge *)

Lemma keeps_ret {A B} (f : Go -> B) (a : A) : keeps f (ret a).
Proof. by intros g. Qed.

Lemma keeps_throw {A B} (f : Go -> B) e : keeps f (@throw A e).
Proof. by intros g. Qed.

Lemma keeps_bind {A A' B} (f : Go -> B) (m : M A) (k : A -> M A') :
  keeps f m -> (forall a, keeps f (k a)) -> keeps f (bind m k).
Proof.
  intros Hm Hk g. unfold bind. specialize (Hm g).
  destruct (m g) as [[a|e] g1]; simpl in *; [|done].
  by rewrite Hk.
Qed.

Lemma keeps_modify {B} (f : Go -> B) (h : Go -> Go) :
  (forall g, f (h g) = f g) -> keeps f (modify h).
Proof. intros H g. apply H. Qed.

Lemma keeps_get_state {B} (f : Go -> B) : keeps f get_state.
Proof. by intros g. Qed.

Lemma keeps_checked {A B} (f : Go -> B) (r : option A) : keeps f (checked r).
Proof. by destruct r. Qed.

Lemma keeps_defined {A B} (f : Go -> B) (r : option A) : keeps f (defined r).
Proof. by destruct r. Qed.

Lemma keeps_memRaw {B} (f : Go -> B) : keeps f memRaw.
Proof.
  apply keeps_bind; [apply keeps_get_state|]. intros g.
  apply keeps_bind; [apply keeps_defined|]. intros i. apply keeps_ret.
Qed.

Lemma keeps_running_write_memRaw buf : keeps running (write_memRaw buf).
Proof. intros g. apply with_memory_fields. Qed.

Lemma keeps_running_setUint32 addr v : keeps running (setUint32 addr v).
Proof.
  apply keeps_bind; [apply keeps_memRaw|]. intros buf.
  apply keeps_bind; [apply keeps_checked|]. intros buf'.
  apply keeps_running_write_memRaw.
Qed.

Lemma keeps_running_strPtr str offset : keeps running (strPtr str offset).
Proof.
  unfold strPtr.
  apply keeps_bind; [apply keeps_memRaw|]. intros buf.
  apply keeps_bind; [apply keeps_checked|]. intros _.
  destruct (_ <? _); [apply keeps_throw|].
  apply keeps_bind; [apply keeps_checked|]. intros buf'.
  apply keeps_bind; [apply keeps_running_write_memRaw|]. intros _. apply keeps_ret.
Qed.

Lemma keeps_running_strPtrs strs : forall offset, keeps running (strPtrs strs offset).
Proof.
  induction strs as [|str rest IH]; intros offset; simpl; [apply keeps_ret|].
  apply keeps_bind; [apply keeps_running_strPtr|]. intros r.
  apply keeps_bind; [apply IH|]. intros rs. apply keeps_ret.
Qed.

Lemma keeps_running_write_ptrs ptrs : forall offset, keeps running (write_ptrs ptrs offset).
Proof.
  induction ptrs as [|ptr rest IH]; intros offset; simpl; [apply keeps_ret|].
  apply keeps_bind; [apply keeps_running_setUint32|]. intros _.
  apply keeps_bind; [apply keeps_running_setUint32|]. intros _. apply IH.
Qed.

(** ** The guard of [run] *)

(** [run] on a bridge whose flag is set throws at once: the bridge is
    what it was, and so is the log of the entry point's calls. *)
Lemma run_prepare_rejects params g :
  running g = true ->
  run_prepare params g = (Throw (Raised (KError "Go Module already running")), g).
Proof. intros H. unfold run_prepare, bind, get_state. by rewrite H. Qed.

Lemma run_rejects guest params g :
  running g = true ->
  run guest params g = (Throw (Raised (KError "Go Module already running")), g).
Proof.
  intros H. unfold run. by rewrite (bind_throw _ _ _ _ _ (run_prepare_rejects params g H)).
Qed.

(** However [run]'s first part completes, it leaves the flag set. *)
Lemma run_prepare_running params g : running (run_prepare params g).2 = true.
Proof.
  destruct (running g) eqn:E.
  - by rewrite run_prepare_rejects.
  - unfold run_prepare. unfold bind at 1, get_state. rewrite E.
    cbn [negb Bool.eqb].
    assert (K : forall A (m : M A), keeps running m ->
              running (m (set_running true g)).2 = true).
    { intros A m Hm. rewrite Hm. by destruct g. }
    unfold bind at 1, modify. cbv beta iota. apply K.
    apply keeps_bind; [apply keeps_running_strPtrs|]. intros a.
    apply keeps_bind; [apply keeps_running_strPtrs|]. intros e.
    apply keeps_bind; [apply keeps_running_write_ptrs|]. intros _. apply keeps_ret.
Qed.

Lemma keeps_running_iteration guest argc argv :
  (forall c v, keeps running (guest c v)) ->
  keeps running (run_iteration guest argc argv).
Proof.
  intros Hg. unfold run_iteration.
  apply keeps_bind; [by intros g; destruct g|]. intros p.
  apply keeps_bind; [apply keeps_modify; by intros g; destruct g|]. intros _.
  apply keeps_bind; [apply keeps_get_state|]. intros g.
  apply keeps_bind; [apply keeps_defined|]. intros _.
  apply keeps_bind; [apply keeps_modify; by intros g'; destruct g'|]. intros _.
  apply keeps_bind; [apply Hg|]. intros _.
  apply keeps_bind; [apply keeps_get_state|]. intros g'.
  destruct (exited g'); apply keeps_ret.
Qed.

Lemma keeps_running_resolver : keeps running resolveCallbackPromise.
Proof.
  unfold resolveCallbackPromise.
  apply keeps_bind; [apply keeps_get_state|]. intros g.
  apply keeps_bind; [apply keeps_defined|]. intros p.
  destruct (exited g); [apply keeps_throw|].
  apply keeps_bind; [by intros s; destruct s|]. intros _. apply keeps_ret.
Qed.

Lemma keeps_running_timer n : keeps running (timer_elapses n).
Proof.
  unfold timer_elapses.
  apply keeps_bind; [apply keeps_get_state|]. intros g.
  destruct (List.find _ _) as [t|]; [|apply keeps_ret].
  apply keeps_bind; [apply keeps_modify; by intros s; destruct s|]. intros _.
  destruct (action t); [|apply keeps_ret].
  apply keeps_bind; [apply keeps_running_resolver|]. intros _. apply keeps_ret.
Qed.

(** While a [run] is under way the flag is set. *)
Lemma run_active_running guest g0 g :
  (forall c v, keeps running (guest c v)) ->
  run_active guest g0 g -> running g = true.
Proof.
  intros Hg H. induction H as [params r g1 H1|g1 argc argv r g2 _ IH H2|g1 n r g2 _ IH H2].
  - revert H1. unfold run. unfold bind at 1.
    pose proof (run_prepare_running params g0) as Hp.
    destruct (run_prepare params g0) as [[a|e] g']; simpl in Hp.
    + intros H1. unfold bind in H1.
      pose proof (keeps_running_iteration guest a.1 a.2 Hg g') as Hk.
      destruct (run_iteration guest a.1 a.2 g') as [[s|e] g'']; simpl in *;
        injection H1 as _ <-; congruence.
    + by intros [= _ <-].
  - pose proof (keeps_running_iteration guest argc argv Hg g1) as Hk.
    unfold run_resume in H2. rewrite H2 in Hk. simpl in Hk. congruence.
  - pose proof (keeps_running_timer n g1) as Hk.
    rewrite H2 in Hk. simpl in Hk. congruence.
Qed.

(** C8: while a [run] is under way (it got past its turn of the loop,
    went through further turns, timers elapsed), with a guest that does
    not reload the bridge, a second [run] throws the error "Go Module
    already running"; it leaves the bridge as it was, the log of the
    entry point's calls included: the entry point is not called again. *)
Theorem run_reentry_rejected guest g0 g params :
  (forall c v, keeps running (guest c v)) ->
  run_active guest g0 g ->
  run guest params g
    = (Throw (Raised (KError "Go Module already running")), g) /\
  entry_calls (host (run guest params g).2) = entry_calls (host g).
Proof.
  intros Hg H.
  rewrite (run_rejects guest params g (run_active_running guest g0 g Hg H)). done.
Qed.

Lemma run_reentry_rejected_witness :
  run idle_guest ["42"%string] (run idle_guest ["prog"%string] marshal_go).2
    = (Throw (Raised (KError "Go Module already running")),
       (run idle_guest ["prog"%string] marshal_go).2) /\
  entry_calls
    (host (run idle_guest ["42"%string]
             (run idle_guest ["prog"%string] marshal_go).2).2)
    = [(2, 4128)].
Proof.
  destruct (run_reentry_rejected idle_guest marshal_go
              (run idle_guest ["prog"%string] marshal_go).2 ["42"%string]) as [H1 H2].
  - intros c v g. reflexivity.
  - apply (active_started _ _ ["prog"%string] (run idle_guest ["prog"%string] marshal_go).1).
    by destruct (run idle_guest ["prog"%string] marshal_go).
  - split; [exact H1|]. rewrite H2. vm_compute. reflexivity.
Defined.

(** ** Resolving after exit *)

(** C9: once [exited] is set, calling the resolver that [run] installed
    for its pending promise throws the error "bad callback: Go program
    has already exited"; no [resolve] is queued, so the loop is not
    resumed. A timer of [scheduleCallback] that elapses then throws the
    same error and queues nothing. *)
Theorem resolve_after_exit g p :
  exited g = true -> _resolveCallbackPromise g = Some p ->
  resolveCallbackPromise g
    = (Throw (Raised (KError "bad callback: Go program has already exited")), g) /\
  forall n t,
    List.find (fun x => Nat.eqb (handle x) n) (timers (host g)) = Some t ->
    action t = CallResolver ->
    exists g',
      timer_elapses n g
        = (Throw (Raised (KError "bad callback: Go program has already exited")), g') /\
      timers (host g') = filter (fun x => handle x <> n) (timers (host g)).
Proof.
  intros He Hp.
  assert (R : forall s, exited s = true -> _resolveCallbackPromise s = Some p ->
    resolveCallbackPromise s
      = (Throw (Raised (KError "bad callback: Go program has already exited")), s)).
  { intros s Hs Hps. unfold resolveCallbackPromise, bind, get_state, defined.
    rewrite Hps. simpl. by rewrite Hs. }
  split; [by apply R|].
  intros n t Hf Ha. eexists. split.
  - unfold timer_elapses. unfold bind at 1, get_state. rewrite Hf.
    unfold bind at 1, clearTimeout, modify. cbv beta iota. rewrite Ha.
    apply bind_throw. apply R; by destruct g.
  - by destruct g.
Qed.

Lemma resolve_after_exit_witness :
  resolveCallbackPromise exited_go
    = (Throw (Raised (KError "bad callback: Go program has already exited")),
       exited_go).
Proof.
  apply (resolve_after_exit exited_go 0); reflexivity.
Defined.

(** ** After the guest's exit *)



(** A new [load()] is what clears the flags. *)
Lemma load_clears_flags inst g :
  running (load inst g) = false /\ exited (load inst g) = false /\
  loaded (load inst g) = true.
Proof. by destruct g. Qed.

(** * Further properties *)

(** * Further properties of the bridge *)

(** ** The 32-bit and 64-bit accessors *)

Lemma ToInt32_mod z : ToInt32 (z mod 2 ^ 32) = ToInt32 z.
Proof. unfold ToInt32. f_equal. rewrite Zplus_mod_idemp_l. reflexivity. Qed.

Lemma ToInt32_small z : - 2 ^ 31 <= z < 2 ^ 31 -> ToInt32 z = z.
Proof. intros H. unfold ToInt32. rewrite Z.mod_small; lia. Qed.

Lemma write_word_run g addr v :
  addressable g addr 4 ->
  exists buf buf',
    memory g = Some buf /\
    ArrayBuffer.blit buf addr (le_split 4 v) = Some buf' /\
    setUint32 addr v g = (Normal tt, with_memory buf' g) /\
    setInt32 addr v g = (Normal tt, with_memory buf' g) /\
    memory (with_memory buf' g) = Some buf' /\
    ArrayBuffer.slice buf' addr 4 = Some (le_split 4 v).
Proof.
  intros Ha.
  destruct (addressable_blit g addr 4 v 4 addr Ha) as (buf & buf' & Hm & Hb); [lia..|].
  exists buf, buf'. split; [done|]. split; [done|].
  split; [by apply (setUint32_run _ buf)|]. split; [by apply (setInt32_run _ buf)|].
  split; [by eapply memory_with_memory|].
  pose proof (BufferFacts.slice_blit_same _ _ _ _ Hb) as S.
  by rewrite length_le_split in S.
Qed.

(** X1: a 32-bit word written with [setInt32] or [setUint32] reads back
    with [getInt32] as its signed and with [getUint32] as its unsigned
    reduction; a value within the accessor's range comes back as it
    is. *)
Theorem word32_roundtrip g addr val :
  addressable g addr 4 ->
  exists g',
    setInt32 addr val g = (Normal tt, g') /\
    setUint32 addr val g = (Normal tt, g') /\
    getInt32 addr g' = (Normal (ToInt32 val), g') /\
    getUint32 addr g' = (Normal (ToUint32 val), g') /\
    (- 2 ^ 31 <= val < 2 ^ 31 -> getInt32 addr g' = (Normal val, g')) /\
    (0 <= val < 2 ^ 32 -> getUint32 addr g' = (Normal val, g')).
Proof.
  intros Ha.
  destruct (write_word_run g addr val Ha) as (buf & buf' & Hm & Hb & R1 & R2 & Hm' & Hs).
  exists (with_memory buf' g). split; [done|]. split; [done|].
  assert (G1 : getInt32 addr (with_memory buf' g)
               = (Normal (ToInt32 val), with_memory buf' g)).
  { rewrite (getInt32_run _ _ _ _ Hm' Hs), le_combine_split.
    change (Z.of_nat 4 * 8) with 32. by rewrite ToInt32_mod. }
  assert (G2 : getUint32 addr (with_memory buf' g)
               = (Normal (ToUint32 val), with_memory buf' g)).
  { by rewrite (getUint32_run _ _ _ _ Hm' Hs), le_combine_split. }
  split; [done|]. split; [done|]. split.
  - intros H. by rewrite G1, ToInt32_small.
  - intros H. rewrite G2. unfold ToUint32. by rewrite Z.mod_small.
Qed.

Lemma word32_roundtrip_witness :
  exists g',
    setInt32 4 (-7) (fresh_go 16) = (Normal tt, g') /\
    getInt32 4 g' = (Normal (-7), g') /\
    getUint32 4 g' = (Normal 4294967289, g').
Proof.
  destruct (word32_roundtrip (fresh_go 16) 4 (-7)) as (g' & R & _ & _ & G2 & G1 & _).
  - exists (replicate 16 Byte.x00). split; reflexivity.
  - exists g'. split; [done|]. split; [apply G1; lia|exact G2].
Defined.

Lemma le_split_app n m z :
  le_split (n + m) z = le_split n z ++ le_split m (Z.shiftr z (8 * Z.of_nat n)).
Proof.
  revert z. induction n as [|n IH]; intros z.
  - simpl. by rewrite Z.shiftr_0_r.
  - change (S n + m)%nat with (S (n + m)). cbn [le_split app].
    unfold le_split at 1 2; fold le_split. cbn [app]. f_equal.
    rewrite IH. f_equal. f_equal. rewrite Z.shiftr_shiftr by lia. f_equal. lia.
Qed.

Lemma setInt64_run g addr val :
  addressable g addr 8 ->
  exists buf buf',
    memory g = Some buf /\
    setInt64 addr val g = (Normal tt, with_memory buf' g) /\
    length buf' = length buf /\
    ArrayBuffer.slice buf' addr 8 = Some (le_split 8 val) /\
    (forall off len, off + len <= addr \/ addr + 8 <= off ->
       ArrayBuffer.slice buf' off len = ArrayBuffer.slice buf off len).
Proof.
  intros (buf & Hm & Hin).
  destruct (BufferFacts.blit_Some buf (addr + 0) (le_split 4 val)) as [buf1 Hb1].
  { rewrite length_le_split. apply (BufferFacts.in_range_sub _ _ _ _ _ Hin); lia. }
  destruct (BufferFacts.blit_Some buf1 (addr + 4) (le_split 4 (val / 4294967296)))
    as [buf2 Hb2].
  { rewrite length_le_split, (BufferFacts.blit_in_range _ _ _ _ _ _ Hb1).
    apply (BufferFacts.in_range_sub _ _ _ _ _ Hin); lia. }
  exists buf, buf2. split; [done|]. split.
  { unfold setInt64. rewrite (bind_normal _ _ _ _ _ (setUint32_run _ _ _ _ _ Hm Hb1)).
    rewrite (setUint32_run _ buf1 _ _ buf2); [|by eapply memory_with_memory|done].
    by rewrite with_memory_twice. }
  split.
  { rewrite (BufferFacts.blit_length _ _ _ _ Hb2). apply (BufferFacts.blit_length _ _ _ _ Hb1). }
  split.
  - change 8%nat with (4 + 4)%nat. rewrite le_split_app.
    change (8 * Z.of_nat 4) with 32. rewrite Z.shiftr_div_pow2 by lia.
    apply (BufferFacts.slice_app _ _ 4 4).
    + rewrite (BufferFacts.slice_blit_other _ _ _ _ _ _ Hb2) by (rewrite length_le_split; lia).
      pose proof (BufferFacts.slice_blit_same _ _ _ _ Hb1) as S.
      rewrite length_le_split, Z.add_0_r in S. exact S.
    + pose proof (BufferFacts.slice_blit_same _ _ _ _ Hb2) as S.
      by rewrite length_le_split in S.
  - intros off len Hd.
    rewrite (BufferFacts.slice_blit_other _ _ _ _ _ _ Hb2) by (rewrite length_le_split; lia).
    apply (BufferFacts.slice_blit_other _ _ _ _ _ _ Hb1). rewrite length_le_split. lia.
Qed.

(** X2: [setInt64] writes the little-endian two's-complement bytes of
    its integer, negative ones included, and touches no other byte. *)
Theorem setInt64_writes_int64 g addr val :
  addressable g addr 8 ->
  exists buf buf' g',
    memory g = Some buf /\ memory g' = Some buf' /\
    setInt64 addr val g = (Normal tt, g') /\
    ArrayBuffer.slice buf' addr 8 = Some (le_split 8 val) /\
    length buf' = length buf /\
    (forall off len, off + len <= addr \/ addr + 8 <= off ->
       ArrayBuffer.slice buf' off len = ArrayBuffer.slice buf off len).
Proof.
  intros Ha.
  destruct (setInt64_run g addr val Ha) as (buf & buf' & Hm & R & Hl & Hs & Hf).
  exists buf, buf', (with_memory buf' g).
  split; [done|]. split; [by eapply memory_with_memory|]. done.
Qed.

Lemma setInt64_writes_int64_witness :
  exists g' buf',
    setInt64 8 (-2) (fresh_go 16) = (Normal tt, g') /\ memory g' = Some buf' /\
    ArrayBuffer.slice buf' 8 8
      = Some [Byte.xfe; Byte.xff; Byte.xff; Byte.xff; Byte.xff; Byte.xff; Byte.xff; Byte.xff].
Proof.
  destruct (setInt64_writes_int64 (fresh_go 16) 8 (-2))
    as (buf & buf' & g' & _ & Hm & R & Hs & _).
  - exists (replicate 16 Byte.x00). split; reflexivity.
  - exists g', buf'. split; [done|]. split; [done|]. exact Hs.
Defined.

Lemma getInt64_of_bytes g buf addr v :
  memory g = Some buf ->
  ArrayBuffer.slice buf addr 8 = Some (le_split 8 v) ->
  - 2 ^ 52 <= v < 2 ^ 52 ->
  getInt64 addr g
    = (Normal (if v mod 2 ^ 32 <? 2 ^ 31 then v else v - 2 ^ 32), g).
Proof.
  intros Hm Hs Hv.
  change 8%nat with (4 + 4)%nat in Hs. rewrite le_split_app in Hs.
  change (8 * Z.of_nat 4) with 32 in Hs. rewrite Z.shiftr_div_pow2 in Hs by lia.
  assert (Hlo : ArrayBuffer.slice buf (addr + 0) 4 = Some (le_split 4 v)).
  { rewrite Z.add_0_r.
    change 8 with (4 + 4) in Hs.
    pose proof (slice_prefix buf addr 4 4 _ ltac:(lia) ltac:(lia) Hs) as P.
    by rewrite take_app_length' in P by (by rewrite length_le_split). }
  change (4 + 4) with 8 in Hs.
  assert (Hhi : ArrayBuffer.slice buf (addr + 4) 4 = Some (le_split 4 (v / 2 ^ 32))).
  { revert Hs. unfold ArrayBuffer.slice.
    destruct (ArrayBuffer.in_range buf addr 8) eqn:E; [|discriminate].
    apply BufferFacts.in_range_spec in E.
    rewrite (proj2 (BufferFacts.in_range_spec buf (addr + 4) 4)) by lia.
    intros [= Hs]. f_equal.
    apply (f_equal (drop 4)) in Hs. cbn [drop] in Hs. rewrite ?drop_0 in Hs.
    rewrite <- Hs. change (Z.to_nat 8) with (4 + 4)%nat.
    change (Z.to_nat 4) with 4%nat.
    rewrite <- take_drop_commute, drop_drop. f_equal. f_equal. lia. }
  unfold getInt64.
  rewrite (bind_normal _ _ _ _ _ (getInt32_run _ _ _ _ Hm Hlo)).
  rewrite (bind_normal _ _ _ _ _ (getInt32_run _ _ _ _ Hm Hhi)).
  unfold ret. do 2 f_equal.
  rewrite !le_combine_split. change (Z.of_nat 4 * 8) with 32.
  rewrite !ToInt32_mod.
  assert (- 2 ^ 20 <= v / 2 ^ 32 < 2 ^ 20).
  { split; [apply Z.div_le_lower_bound; lia|apply Z.div_lt_upper_bound; lia]. }
  rewrite (ToInt32_small (v / 2 ^ 32)) by lia.
  rewrite <- (ToInt32_mod v).
  assert (0 <= v mod 2 ^ 32 < 2 ^ 32) by (apply Z.mod_pos_bound; lia).
  rewrite ToInt32_of_word by lia.
  pose proof (Z.div_mod v (2 ^ 32) ltac:(lia)) as Hdm.
  change 4294967296 with (2 ^ 32).
  rewrite (round_to_double_exact (v / 2 ^ 32 * 2 ^ 32)) by lia.
  destruct (Z.ltb_spec (v mod 2 ^ 32) (2 ^ 31)); rewrite round_to_double_exact; lia.
Qed.

(** X3: [getInt64] on the eight little-endian bytes of a 64-bit integer
    [v] between -2^52 and 2^52 changes nothing and returns [v] when bit
    31 of [v] is clear, and [v - 2^32] when it is set: the low word goes
    through [getInt32]. *)
Theorem getInt64_reads_int64 g buf addr v :
  memory g = Some buf ->
  ArrayBuffer.slice buf addr 8 = Some (le_split 8 v) ->
  - 2 ^ 52 <= v < 2 ^ 52 ->
  getInt64 addr g
    = (Normal (if v mod 2 ^ 32 <? 2 ^ 31 then v else v - 2 ^ 32), g).
Proof. apply getInt64_of_bytes. Qed.

Lemma getInt64_reads_int64_witness :
  exists g buf,
    setInt64 0 (-1) (fresh_go 16) = (Normal tt, g) /\ memory g = Some buf /\
    getInt64 0 g = (Normal (-1 - 2 ^ 32), g).
Proof.
  destruct (setInt64_run (fresh_go 16) 0 (-1)) as (buf & buf' & Hm & R & _ & Hs & _).
  - exists (replicate 16 Byte.x00). split; reflexivity.
  - exists (with_memory buf' (fresh_go 16)), buf'. split; [done|].
    assert (Hm' : memory (with_memory buf' (fresh_go 16)) = Some buf')
      by (by eapply memory_with_memory).
    split; [done|].
    apply (getInt64_reads_int64 _ buf' 0 (-1) Hm' Hs). lia.
Defined.

(** ** The table under [storeValue] *)

Lemma keeps_write_memRaw {B} (f : Go -> B) buf :
  (forall b g, f (with_memory b g) = f g) -> keeps f (write_memRaw buf).
Proof. intros H g. apply H. Qed.

Lemma keeps_setUint32 {B} (f : Go -> B) addr v :
  (forall b g, f (with_memory b g) = f g) -> keeps f (setUint32 addr v).
Proof.
  intros H. apply keeps_bind; [apply keeps_memRaw|]. intros buf.
  apply keeps_bind; [apply keeps_checked|]. intros buf'.
  by apply keeps_write_memRaw.
Qed.

Lemma keeps_setFloat64 {B} (f : Go -> B) addr v :
  (forall b g, f (with_memory b g) = f g) -> keeps f (setFloat64 addr v).
Proof.
  intros H. apply keeps_bind; [apply keeps_memRaw|]. intros buf.
  apply keeps_bind; [apply keeps_checked|]. intros buf'.
  by apply keeps_write_memRaw.
Qed.

Lemma keeps_words {B} (f : Go -> B) addr hi lo :
  (forall b g, f (with_memory b g) = f g) ->
  keeps f (setUint32 (addr + 4) hi >>> setUint32 addr lo).
Proof.
  intros H. apply keeps_bind; [by apply keeps_setUint32|]. intros _.
  by apply keeps_setUint32.
Qed.

Lemma storeValue_primitive_keeps {B} (f : Go -> B) addr v :
  (forall b g, f (with_memory b g) = f g) ->
  primitive v -> keeps f (storeValue addr v).
Proof.
  intros H Hp. destruct v as [[|b]| | |[|]| | | |]; simpl in Hp; try tauto;
    simpl; (by apply keeps_words) || (by apply keeps_setFloat64).
Qed.

(** What [storeValue] does to the table, however it completes: nothing,
    or the one entry of [intern]. *)
Lemma storeValue_table g addr v :
  (_values (storeValue addr v g).2 = _values g /\
   _refs (storeValue addr v g).2 = _refs g) \/
  (~ primitive v /\
   exists values refs,
     _values g = Some values /\ _refs g = Some refs /\
     refs !! v = None /\ Z.of_nat (length values) < 2 ^ 32 - 1 /\
     _values (storeValue addr v g).2 = Some (values ++ [v]) /\
     _refs (storeValue addr v g).2
       = Some (<[v := Z.of_nat (length values)]> refs)).
Proof.
  destruct (classic_primitive v) as [Hp|Hp].
  { left. split; apply storeValue_primitive_keeps; try done; intros; apply with_memory_fields. }
  assert (E : storeValue addr v g =
    (let! g := get_state in
     let! refs := defined (_refs g) in
     let! ref :=
       match refs !! v with
       | Some ref => ret ref
       | None =>
           let! values := defined (_values g) in
           let ref := Z.of_nat (length values) in
           push_value v >>> modify (set_refs (Some (<[v := ref]> refs))) >>> ret ref
       end in
     setUint32 (addr + 4) (Z.lor nanHead (typeFlag v)) >>> setUint32 addr ref) g).
  { destruct v as [x| | |b| | | |]; try reflexivity; simpl in Hp; tauto. }
  rewrite E. clear E.
  set (W := fun ref : Z =>
              setUint32 (addr + 4) (Z.lor nanHead (typeFlag v)) >>> setUint32 addr ref).
  change (_values ((let! g := get_state in
     let! refs := defined (_refs g) in
     let! ref :=
       match refs !! v with
       | Some ref => ret ref
       | None =>
           let! values := defined (_values g) in
           let ref := Z.of_nat (length values) in
           push_value v >>> modify (set_refs (Some (<[v := ref]> refs))) >>> ret ref
       end in W ref) g).2 = _values g /\
   _refs ((let! g := get_state in
     let! refs := defined (_refs g) in
     let! ref :=
       match refs !! v with
       | Some ref => ret ref
       | None =>
           let! values := defined (_values g) in
           let ref := Z.of_nat (length values) in
           push_value v >>> modify (set_refs (Some (<[v := ref]> refs))) >>> ret ref
       end in W ref) g).2 = _refs g \/
   ~ primitive v /\
   (exists values refs,
     _values g = Some values /\ _refs g = Some refs /\
     refs !! v = None /\ Z.of_nat (length values) < 2 ^ 32 - 1 /\
     _values ((let! g := get_state in
     let! refs := defined (_refs g) in
     let! ref :=
       match refs !! v with
       | Some ref => ret ref
       | None =>
           let! values := defined (_values g) in
           let ref := Z.of_nat (length values) in
           push_value v >>> modify (set_refs (Some (<[v := ref]> refs))) >>> ret ref
       end in W ref) g).2 = Some (values ++ [v]) /\
     _refs ((let! g := get_state in
     let! refs := defined (_refs g) in
     let! ref :=
       match refs !! v with
       | Some ref => ret ref
       | None =>
           let! values := defined (_values g) in
           let ref := Z.of_nat (length values) in
           push_value v >>> modify (set_refs (Some (<[v := ref]> refs))) >>> ret ref
       end in W ref) g).2
       = Some (<[v := Z.of_nat (length values)]> refs))).
  assert (Kv : forall lo s, _values (W lo s).2 = _values s).
  { intros. apply keeps_words. intros. apply with_memory_fields. }
  assert (Kr : forall lo s, _refs (W lo s).2 = _refs s).
  { intros. apply keeps_words. intros. apply with_memory_fields. }
  clearbody W.
  destruct g as [a b c refs0 values0 f h i j k l m].
  cbv [bind get_state defined push_value modify ret throw]. cbn [_refs _values].
  destruct refs0 as [refs|]; [|by left].
  destruct (refs !! v) as [r|] eqn:El.
  { left. by rewrite Kv, Kr. }
  cbn [_refs _values]. destruct values0 as [values|]; [|by left].
  cbn [_refs _values]. destruct (Z.leb_spec (2 ^ 32 - 1) (Z.of_nat (length values))) as [Hfull|Hroom].
  { by left. }
  right. split; [done|]. exists values, refs. rewrite Kv, Kr. done.
Qed.

(** X4: however [storeValue] completes, it never changes or removes what
    the table holds: an index keeps its value, an entry of [_refs] stays,
    [_values] grows by the stored value at most, and a primitive leaves
    both untouched. *)
Theorem storeValue_append_only g addr v :
  (forall values, _values g = Some values ->
     _values (storeValue addr v g).2 = Some values \/
     _values (storeValue addr v g).2 = Some (values ++ [v])) /\
  (forall values k x, _values g = Some values -> values !! k = Some x ->
     exists values', _values (storeValue addr v g).2 = Some values' /\
                     values' !! k = Some x) /\
  (forall refs w r, _refs g = Some refs -> refs !! w = Some r ->
     exists refs', _refs (storeValue addr v g).2 = Some refs' /\
                   refs' !! w = Some r) /\
  (primitive v ->
     _values (storeValue addr v g).2 = _values g /\
     _refs (storeValue addr v g).2 = _refs g).
Proof.
  destruct (storeValue_table g addr v)
    as [[Hv Hr]|(Hp & values & refs & Hv & Hr & El & Hroom & Hv' & Hr')].
  - split; [intros values H; left; congruence|].
    split; [intros values k x H Hk; exists values; split; congruence|].
    split; [intros refs w r H Hw; exists refs; split; congruence|]. done.
  - split.
    { intros values0 H. right. congruence. }
    split.
    { intros values0 k x H Hk. exists (values ++ [v]). split; [done|].
      apply lookup_app_l_Some. congruence. }
    split.
    { intros refs0 w r H Hw. eexists. split; [done|].
      rewrite lookup_insert_ne; [congruence|]. intros ->. congruence. }
    tauto.
Qed.

Lemma table_ok_after_store g addr v :
  table_ok g -> table_ok (storeValue addr v g).2.
Proof.
  intros (values & refs & Hv & Hr & Hlen & Hres & Hinv).
  destruct (storeValue_table g addr v)
    as [[Hv' Hr']|(Hp & values0 & refs0 & Hv0 & Hr0 & El & Hroom & Hv' & Hr')].
  - exists values, refs. rewrite Hv', Hr'. done.
  - rewrite Hv in Hv0. injection Hv0 as <-. rewrite Hr in Hr0. injection Hr0 as <-.
    assert (Ei : intern v values refs
                 = (Z.of_nat (length values), values ++ [v],
                    <[v := Z.of_nat (length values)]> refs)).
    { unfold intern. by rewrite El. }
    destruct (intern_lookup _ _ _ _ _ _ Ei Hinv) as (_ & _ & _ & Hinv' & Hmono).
    eexists _, _. split; [done|]. split; [done|]. split.
    { rewrite length_app. simpl. lia. }
    split; [|done]. rewrite take_app_le; [done|].
    apply (f_equal length) in Hres. rewrite length_take in Hres.
    change (length reserved) with 5%nat in Hres. lia.
Qed.

(** X5: [storeValue] keeps the table in order ([table_ok]) however it
    completes, also when it throws after the table took the value. *)
Theorem storeValue_keeps_table_ok g addr v :
  table_ok g -> table_ok (storeValue addr v g).2.
Proof. apply table_ok_after_store. Qed.

Lemma storeValue_keeps_table_ok_witness :
  table_ok (storeValue 100 (VString "a") (fresh_go 16)).2 /\
  (storeValue 100 (VString "a") (fresh_go 16)).1 = Throw (Raised KRangeError) /\
  (length <$> _values (storeValue 100 (VString "a") (fresh_go 16)).2) = Some 9%nat.
Proof.
  split; [|split; reflexivity].
  apply (storeValue_keeps_table_ok (fresh_go 16) 100 (VString "a")).
  apply table_ok_load.
Defined.

(** ** The wire format *)

Lemma store_words_slot g addr hi lo :
  addressable g addr 8 ->
  exists buf buf',
    memory g = Some buf /\
    (setUint32 (addr + 4) hi >>> setUint32 addr lo) g = (Normal tt, with_memory buf' g) /\
    memory (with_memory buf' g) = Some buf' /\
    length buf' = length buf /\
    ArrayBuffer.slice buf' addr 8 = Some (le_split 4 lo ++ le_split 4 hi) /\
    (forall off len, off + len <= addr \/ addr + 8 <= off ->
       ArrayBuffer.slice buf' off len = ArrayBuffer.slice buf off len).
Proof.
  intros (buf & Hm & Hin).
  destruct (store_words_run g buf addr hi lo Hm Hin) as (buf' & R & Hl & Hs & Hf).
  exists buf, buf'. split; [done|]. split; [done|].
  split; [by eapply memory_with_memory|]. done.
Qed.

(** X6: the bytes that [storeValue] leaves in its slot. A double other
    than NaN is stored as it is. Every other value is stored as the tag
    [0x7FF80000], or-ed with the type flag (1 for a string, 2 for a
    symbol, 3 for a function, 0 otherwise), in the high word and an index
    in the low word: 0 for NaN, 1 for [undefined], 2 for [null], 3 for
    [true], 4 for [false], the index by [intern] for the others. The
    singletons need no table. *)
Theorem storeValue_wire_format g addr v :
  addressable g addr 8 -> wf_value v ->
  primitive v \/ (table_ok g /\ (interned g v \/ has_room g)) ->
  exists id g' buf',
    wire_id g v = Some id /\
    storeValue addr v g = (Normal tt, g') /\
    memory g' = Some buf' /\
    ArrayBuffer.slice buf' addr 8 = Some (slot_bytes v id).
Proof.
  intros Ha Hwf Hv.
  assert (Htag : forall k, wire_id g v = Some k -> typeFlag v = 0 ->
            storeValue addr v g = (setUint32 (addr + 4) nanHead >>> setUint32 addr k) g ->
            slot_bytes v k = le_split 4 k ++ le_split 4 (Z.lor nanHead (typeFlag v)) ->
            exists id g' buf',
              wire_id g v = Some id /\
              storeValue addr v g = (Normal tt, g') /\
              memory g' = Some buf' /\
              ArrayBuffer.slice buf' addr 8 = Some (slot_bytes v id)).
  { intros k Hk Hflag E Hb.
    destruct (store_words_slot g addr nanHead k Ha) as (buf & buf' & Hm & R & Hm' & _ & Hs & _).
    exists k, (with_memory buf' g), buf'. rewrite E, Hb, Hflag. done. }
  destruct (classic_primitive v) as [Hp|Hp].
  - destruct v as [[|b]| | |[|]| | | |]; simpl in Hp; try tauto;
      [apply (Htag 0); reflexivity| |apply (Htag 1); reflexivity
      |apply (Htag 2); reflexivity|apply (Htag 3); reflexivity
      |apply (Htag 4); reflexivity].
    destruct Ha as (buf & Hm & Hin).
    destruct (BufferFacts.blit_Some buf addr (le_split 8 b)) as [buf' Hb'].
    { by rewrite length_le_split. }
    exists 0, (with_memory buf' g), buf'. split; [done|]. split.
    { apply (setFloat64_run _ _ _ (Float b) _ Hm Hb'). }
    split; [by eapply memory_with_memory|].
    pose proof (BufferFacts.slice_blit_same _ _ _ _ Hb') as S.
    by rewrite length_le_split in S.
  - destruct Hv as [Hv|[Hok Hroom]]; [tauto|].
    pose proof Hok as (values & refs & Hvs & Hrs & Hlen & Hres & Hinv).
    assert (Hroom' : is_Some (refs !! v) \/ Z.of_nat (length values) < 2 ^ 32 - 1).
    { destruct Hroom as [(refs0 & r & Hr0 & Hl)|(values0 & Hv0 & Hl)].
      - left. rewrite Hrs in Hr0. injection Hr0 as <-. eauto.
      - right. rewrite Hvs in Hv0. injection Hv0 as <-. lia. }
    rewrite (storeValue_interns g addr v values refs Hp Hvs Hrs Hroom').
    destruct (intern v values refs) as [[r values'] refs'] eqn:Ei. simpl.
    pose proof (set_table_fields g values' refs') as (_ & _ & Fm & _).
    destruct (store_words_slot (set_table values' refs' g) addr
                (Z.lor nanHead (typeFlag v)) r) as (buf & buf' & Hm & R & Hm' & _ & Hs & _).
    { destruct Ha as (buf & Hm & Hin). exists buf. by rewrite Fm. }
    exists r, (with_memory buf' (set_table values' refs' g)), buf'.
    split.
    { destruct v; simpl in Hp; try tauto; simpl; by rewrite Hvs, Hrs; simpl; rewrite Ei. }
    split; [done|]. split; [done|].
    rewrite Hs. destruct v as [[|]| | | | | | |]; simpl in Hp; try tauto; reflexivity.
Qed.

Lemma storeValue_wire_format_witness :
  exists g' buf',
    storeValue 0 (VFunction 5) (fresh_go 16) = (Normal tt, g') /\
    memory g' = Some buf' /\
    ArrayBuffer.slice buf' 0 8
      = Some [Byte.x08; Byte.x00; Byte.x00; Byte.x00;
              Byte.x03; Byte.x00; Byte.xf8; Byte.x7f].
Proof.
  destruct (storeValue_wire_format (fresh_go 16) 0 (VFunction 5))
    as (id & g' & buf' & Hid & R & Hm & Hs).
  - exists (replicate 16 Byte.x00). split; reflexivity.
  - exact I.
  - right. split; [apply table_ok_load|]. right.
    eexists. split; [reflexivity|]. simpl. lia.
  - exists g', buf'. split; [done|]. split; [done|].
    injection Hid as <-. exact Hs.
Defined.

(** ** Slots next to one another *)

Lemma word_at_slice g buf addr bs :
  memory g = Some buf -> ArrayBuffer.slice buf addr 8 = Some bs ->
  word_at g addr = Some (le_combine (take 4 bs)).
Proof.
  intros Hm Hs. unfold word_at. rewrite Hm. simpl. unfold DataView.getUint32.
  by rewrite (slice_prefix buf addr 4 4 bs ltac:(lia) ltac:(lia) Hs).
Qed.





(** X8: a slot whose index is the current length of the table decodes
    to [undefined]; once [storeValue] has given that index to a new value
    elsewhere, the same slot decodes to that value. *)
Theorem stale_index_is_reused g addr1 addr2 v values :
  table_ok g -> addressable g addr1 8 ->
  addr2 + 8 <= addr1 \/ addr1 + 8 <= addr2 ->
  _values g = Some values ->
  slot_is_reference g addr2 ->
  word_at g addr2 = Some (Z.of_nat (length values)) ->
  ~ primitive v -> ~ interned g v -> has_room g ->
  loadValue addr2 g = (Normal VUndefined, g) /\
  exists g',
    storeValue addr1 v g = (Normal tt, g') /\
    loadValue addr2 g' = (Normal v, g').
Proof.
  intros Hok (buf & Hm & Hin) Hd Hvs (buf0 & bs & Hm0 & Hs & Hn) Hw Hp Hni Hroom.
  rewrite Hm in Hm0. injection Hm0 as <-.
  rewrite (word_at_slice _ _ _ _ Hm Hs) in Hw. injection Hw as Hw.
  split.
  { rewrite (loadValue_reference g buf addr2 bs values Hm Hs Hn Hvs), Hw, Nat2Z.id.
    by rewrite lookup_ge_None_2. }
  pose proof Hok as (values0 & refs & Hvs0 & Hrs & Hlen & Hres & Hinv).
  rewrite Hvs in Hvs0. injection Hvs0 as <-.
  assert (El : refs !! v = None).
  { destruct (refs !! v) as [r|] eqn:E; [|done]. exfalso. apply Hni. by exists refs, r. }
  assert (Hroom' : is_Some (refs !! v) \/ Z.of_nat (length values) < 2 ^ 32 - 1).
  { right. destruct Hroom as (values0 & Hv0 & Hl). rewrite Hvs in Hv0.
    injection Hv0 as <-. lia. }
  destruct (storeValue_reference_run g addr1 v buf values refs Hp Hm Hin Hvs Hrs Hlen Hinv Hroom')
    as (buf' & r & values' & refs' & Ei & _ & R & _ & Hf & _ & _).
  unfold intern in Ei. rewrite El in Ei. injection Ei as <- <- <-.
  eexists. split; [exact R|].
  pose proof (set_table_fields g (values ++ [v])
                (<[v:=Z.of_nat (length values)]> refs)) as (Fv & _ & Fm & _).
  assert (Hs' : ArrayBuffer.slice buf' addr2 8 = Some bs).
  { rewrite <- Hs. apply Hf. lia. }
  rewrite (loadValue_reference _ buf' addr2 bs (values ++ [v])); try done.
  - rewrite Hw, Nat2Z.id, lookup_app_r by lia. by rewrite Nat.sub_diag.
  - apply (memory_with_memory _ _ buf). by rewrite Fm.
  - by rewrite values_with_memory.
Qed.

Lemma stale_index_is_reused_witness :
  loadValue 0 dangling_go = (Normal VUndefined, dangling_go) /\
  exists g',
    storeValue 8 (VObject (HostObject 1)) dangling_go = (Normal tt, g') /\
    loadValue 0 g' = (Normal (VObject (HostObject 1)), g').
Proof.
  apply (stale_index_is_reused dangling_go 8 0 (VObject (HostObject 1))
           (reserved ++ [internalGlobal; VObject (WasmMemory 0); VObject (GoInstance 0)])).
  - apply table_ok_with_memory, table_ok_load.
  - eexists. split; reflexivity.
  - lia.
  - reflexivity.
  - eexists _, _. split; [reflexivity|]. split; reflexivity.
  - reflexivity.
  - simpl. tauto.
  - intros (refs & r & Hr & Hl). injection Hr as <-. by rewrite lookup_empty in Hl.
  - eexists. split; [reflexivity|]. simpl. lia.
Defined.

(** ** The bridge after [wasmExit] *)

Lemma loadValue_without_table g addr :
  _values g = None -> slot_is_reference g addr ->
  loadValue addr g = (Throw (Raised KTypeError), g).
Proof.
  intros Hv (buf & bs & Hm & Hs & Hn). unfold loadValue.
  rewrite (bind_normal _ _ _ _ _ (getFloat64_run _ _ _ _ Hm Hs)).
  unfold Float64.of_bits. rewrite Hn. simpl.
  pose proof (slice_prefix buf addr 4 4 bs ltac:(lia) ltac:(lia) Hs) as Hs4.
  rewrite (bind_normal _ _ _ _ _ (getUint32_run _ _ _ _ Hm Hs4)).
  unfold bind, get_state, defined. by rewrite Hv.
Qed.

Lemma storeValue_without_refs g addr v :
  _refs g = None -> ~ primitive v ->
  storeValue addr v g = (Throw (Raised KTypeError), g).
Proof.
  intros Hr Hp.
  destruct v as [x| | |b| | | |]; simpl in Hp; try tauto;
    unfold storeValue, bind, get_state, defined; by rewrite Hr.
Qed.

(** X9: [wasmExit] with its code inside the memory sets [exited] and
    removes the table. From then on (the exit callback leaving the table
    alone) [loadValue] throws [TypeError] on every slot that holds a
    boxed value, the encodings of NaN, [undefined], [null], [true] and
    [false] included, and [storeValue] throws [TypeError] on every value
    that is not a primitive, without writing to the memory. *)
Theorem table_gone_after_exit exit addr g :
  addressable g (addr + 8) 4 ->
  (forall code, keeps _values (exit code)) ->
  (forall code, keeps _refs (exit code)) ->
  _values (wasmExit exit addr g).2 = None /\
  _refs (wasmExit exit addr g).2 = None /\
  (forall slot,
     slot_is_reference (wasmExit exit addr g).2 slot ->
     loadValue slot (wasmExit exit addr g).2
       = (Throw (Raised KTypeError), (wasmExit exit addr g).2)) /\
  (forall slot v,
     ~ primitive v ->
     storeValue slot v (wasmExit exit addr g).2
       = (Throw (Raised KTypeError), (wasmExit exit addr g).2)).
Proof.
  intros (buf & Hm & Hin) Kv Kr.
  destruct (ArrayBuffer.slice buf (addr + 8) 4) as [bs|] eqn:Hs.
  2:{ unfold ArrayBuffer.slice in Hs. by rewrite Hin in Hs. }
  assert (E : (wasmExit exit addr g).2
              = (exit (ToInt32 (le_combine bs))
                   (set_refs None (set_values None (set_exited true g)))).2).
  { unfold wasmExit. rewrite (bind_normal _ _ _ _ _ (getInt32_run _ _ _ _ Hm Hs)).
    reflexivity. }
  assert (Hv : _values (wasmExit exit addr g).2 = None).
  { rewrite E, Kv. by destruct g. }
  assert (Hr : _refs (wasmExit exit addr g).2 = None).
  { rewrite E, Kr. by destruct g. }
  split; [done|]. split; [done|]. split.
  - intros slot Hslot. by apply loadValue_without_table.
  - intros slot v Hp. by apply storeValue_without_refs.
Qed.

Lemma table_gone_after_exit_witness :
  exists g',
    wasmExit default_exit 0 (fresh_go 16) = (Normal tt, g') /\
    storeValue 0 VNull g' = (Normal tt, (storeValue 0 VNull g').2) /\
    loadValue 0 (storeValue 0 VNull g').2
      = (Throw (Raised KTypeError), (storeValue 0 VNull g').2) /\
    storeValue 0 (VString "a") g' = (Throw (Raised KTypeError), g').
Proof.
  destruct (table_gone_after_exit default_exit 0 (fresh_go 16)) as (Hv & Hr & _ & Hst).
  - eexists. split; reflexivity.
  - intros code g. reflexivity.
  - intros code g. reflexivity.
  - exists (wasmExit default_exit 0 (fresh_go 16)).2.
    split; [reflexivity|]. split; [reflexivity|]. split; [reflexivity|].
    apply Hst. simpl. tauto.
Defined.

(** ** Slices of boxed values *)

Lemma slice_suffix buf off n m bs :
  0 <= n -> 0 <= m ->
  ArrayBuffer.slice buf off (n + m) = Some bs ->
  ArrayBuffer.slice buf (off + n) m = Some (drop (Z.to_nat n) bs).
Proof.
  intros Hn Hm. unfold ArrayBuffer.slice.
  destruct (ArrayBuffer.in_range buf off (n + m)) eqn:E; [|discriminate].
  apply BufferFacts.in_range_spec in E.
  rewrite (proj2 (BufferFacts.in_range_spec buf (off + n) m)) by lia.
  intros [= <-]. f_equal.
  rewrite (Z2Nat.inj_add n m), (Z2Nat.inj_add off n) by lia.
  by rewrite <- take_drop_commute, drop_drop.
Qed.

(** The header of a slice: its address and its length, 8 bytes each. *)
Lemma slice_header g buf addr array len :
  memory g = Some buf ->
  ArrayBuffer.slice buf addr 16 = Some (le_split 8 array ++ le_split 8 len) ->
  0 <= array < 2 ^ 31 -> 0 <= len < 2 ^ 32 ->
  getInt64 (addr + 0) g = (Normal array, g) /\
  getInt64 (addr + 8) g
    = (Normal (if len <? 2 ^ 31 then len else len - 2 ^ 32), g).
Proof.
  intros Hm Hs Ha Hl. split.
  - rewrite Z.add_0_r.
    pose proof (slice_prefix buf addr 8 8 _ ltac:(lia) ltac:(lia) Hs) as P.
    rewrite take_app_length' in P by (by rewrite length_le_split).
    rewrite (getInt64_of_bytes g buf addr array Hm P) by lia.
    rewrite Z.mod_small by lia. destruct (Z.ltb_spec array (2 ^ 31)); [done|lia].
  - pose proof (slice_suffix buf addr 8 8 _ ltac:(lia) ltac:(lia) Hs) as P.
    rewrite drop_app_length' in P by (by rewrite length_le_split).
    rewrite (getInt64_of_bytes g buf (addr + 8) len Hm P) by lia.
    by rewrite Z.mod_small by lia.
Qed.

Lemma loadValues_run g array vs : forall i,
  (forall j v, vs !! j = Some v ->
     loadValue (array + (i + Z.of_nat j) * 8) g = (Normal v, g)) ->
  loadValues array (length vs) i g = (Normal vs, g).
Proof.
  induction vs as [|v vs IH]; intros i H; [reflexivity|].
  simpl. pose proof (H 0%nat v eq_refl) as H0. rewrite Z.add_0_r in H0.
  rewrite (bind_normal _ _ _ _ _ H0).
  assert (Hrest : forall j w, vs !! j = Some w ->
            loadValue (array + (i + 1 + Z.of_nat j) * 8) g = (Normal w, g)).
  { intros j w Hj. specialize (H (S j) w Hj).
    rewrite <- H. do 3 f_equal. lia. }
  by rewrite (bind_normal _ _ _ _ _ (IH (i + 1) Hrest)).
Qed.

(** The two words of a header, as [getInt64] reads them. *)
Lemma header_words g buf addr a b :
  memory g = Some buf ->
  ArrayBuffer.slice buf addr 16 = Some (le_split 8 a ++ le_split 8 b) ->
  0 <= a < 2 ^ 32 -> 0 <= b < 2 ^ 32 ->
  getInt64 (addr + 0) g
    = (Normal (if a <? 2 ^ 31 then a else a - 2 ^ 32), g) /\
  getInt64 (addr + 8) g
    = (Normal (if b <? 2 ^ 31 then b else b - 2 ^ 32), g).
Proof.
  intros Hm Hs Ha Hb.
  assert (P32 : 2 ^ 32 < 2 ^ 52) by (by vm_compute).
  split.
  - rewrite Z.add_0_r.
    pose proof (slice_prefix buf addr 8 8 _ ltac:(lia) ltac:(lia) Hs) as P.
    rewrite take_app_length' in P by (by rewrite length_le_split).
    rewrite (getInt64_of_bytes g buf addr a Hm P) by lia.
    by rewrite Z.mod_small by lia.
  - pose proof (slice_suffix buf addr 8 8 _ ltac:(lia) ltac:(lia) Hs) as P.
    rewrite drop_app_length' in P by (by rewrite length_le_split).
    rewrite (getInt64_of_bytes g buf (addr + 8) b Hm P) by lia.
    by rewrite Z.mod_small by lia.
Qed.

Lemma loadValue_negative g buf addr :
  memory g = Some buf -> addr < 0 ->
  loadValue addr g = (Throw (Raised KRangeError), g).
Proof.
  intros Hm Ha. unfold loadValue. apply bind_throw.
  apply (getFloat64_outside g buf); [done|].
  unfold ArrayBuffer.slice.
  destruct (ArrayBuffer.in_range buf addr 8) eqn:E; [|done].
  apply BufferFacts.in_range_spec in E. lia.
Qed.

(** X10: [loadSliceOfValues] on the header of a slice whose address and
    length words are below 2^32. With both below 2^31 it returns the
    values of the slots of the slice, in order, and changes nothing,
    when each slot decodes. A length from 2^31 is read as a negative
    number and the call throws [RangeError]. An address from 2^31 is
    read as a negative number: the call throws [RangeError] at the first
    slot, unless the slice is empty; an empty slice gives the empty list
    whatever its address. *)
Theorem loadSliceOfValues_loads g buf addr array len :
  memory g = Some buf ->
  ArrayBuffer.slice buf addr 16 = Some (le_split 8 array ++ le_split 8 len) ->
  0 <= array < 2 ^ 32 -> 0 <= len < 2 ^ 32 ->
  (forall vs,
     array < 2 ^ 31 -> len < 2 ^ 31 -> Z.of_nat (length vs) = len ->
     (forall i v, vs !! i = Some v ->
        loadValue (array + Z.of_nat i * 8) g = (Normal v, g)) ->
     loadSliceOfValues addr g = (Normal vs, g)) /\
  (2 ^ 31 <= len -> loadSliceOfValues addr g = (Throw (Raised KRangeError), g)) /\
  (2 ^ 31 <= array -> 0 < len < 2 ^ 31 ->
     loadSliceOfValues addr g = (Throw (Raised KRangeError), g)) /\
  (len = 0 -> loadSliceOfValues addr g = (Normal [], g)).
Proof.
  intros Hm Hs Ha Hl.
  destruct (header_words g buf addr array len Hm Hs Ha Hl) as [G1 G2].
  assert (P : 2 ^ 32 = 2 ^ 31 + 2 ^ 31) by (by vm_compute).
  split; [|split; [|split]].
  - intros vs Ha31 Hsmall Hlen Hslots. unfold loadSliceOfValues.
    rewrite (bind_normal _ _ _ _ _ G1), (bind_normal _ _ _ _ _ G2).
    destruct (Z.ltb_spec array (2 ^ 31)) as [_|]; [|lia].
    destruct (Z.ltb_spec len (2 ^ 31)) as [_|]; [|lia].
    destruct (Z.ltb_spec len 0); [lia|].
    destruct (Z.leb_spec (2 ^ 32) len); [lia|]. simpl.
    rewrite <- Hlen, Nat2Z.id. apply loadValues_run.
    intros j v Hj. rewrite Z.add_0_l. by apply Hslots.
  - intros Hbig. unfold loadSliceOfValues.
    rewrite (bind_normal _ _ _ _ _ G1), (bind_normal _ _ _ _ _ G2).
    destruct (Z.ltb_spec len (2 ^ 31)) as [|_]; [lia|].
    destruct (Z.ltb_spec (len - 2 ^ 32) 0); [reflexivity|lia].
  - intros Hbig Hlen. unfold loadSliceOfValues.
    rewrite (bind_normal _ _ _ _ _ G1), (bind_normal _ _ _ _ _ G2).
    destruct (Z.ltb_spec array (2 ^ 31)) as [|_]; [lia|].
    destruct (Z.ltb_spec len (2 ^ 31)) as [_|]; [|lia].
    destruct (Z.ltb_spec len 0); [lia|].
    destruct (Z.leb_spec (2 ^ 32) len); [lia|]. cbn [orb].
    destruct (Z.to_nat len) as [|k] eqn:E; [lia|]. cbn [loadValues].
    apply bind_throw. apply (loadValue_negative g buf); [done|lia].
  - intros ->. unfold loadSliceOfValues.
    rewrite (bind_normal _ _ _ _ _ G1), (bind_normal _ _ _ _ _ G2).
    reflexivity.
Qed.

Lemma loadSliceOfValues_loads_witness :
  loadSliceOfValues 0 slice_go
    = (Normal [VNumber (Float 0); VNumber (Float 0)], slice_go).
Proof.
  destruct (loadSliceOfValues_loads slice_go
              (le_split 8 16 ++ le_split 8 2 ++ replicate 16 Byte.x00) 0 16 2)
    as [H _]; [reflexivity|reflexivity|by vm_compute|by vm_compute|].
  apply H; [by vm_compute|by vm_compute|reflexivity|].
  intros [|[|i]] v Hv; [| |discriminate]; injection Hv as <-; reflexivity.
Defined.

(** ** Timers *)

Lemma Map_get_set {V} k (v : V) m : Map_get k (Map_set k v m) = Some v.
Proof.
  induction m as [|[k' v'] m IH]; simpl.
  - by rewrite decide_True.
  - destruct (decide (k' = k)) as [->|Hne]; simpl.
    + by rewrite decide_True.
    + by rewrite decide_False.
Qed.

Lemma Map_delete_set {V} k (v : V) m :
  Map_delete k (Map_set k v m) = Map_delete k m.
Proof.
  unfold Map_delete. induction m as [|[k' v'] m IH]; simpl.
  - rewrite filter_cons_False; [done|]. simpl. tauto.
  - destruct (decide (k' = k)) as [->|Hne].
    + rewrite !filter_cons_False; simpl; tauto.
    + rewrite !filter_cons_True by done. by rewrite IH.
Qed.

Lemma Map_delete_absent {V} k (m : list (counter * V)) :
  Map_get k m = None -> Map_delete k m = m.
Proof.
  unfold Map_delete. induction m as [|[k' v'] m IH]; simpl; [done|].
  destruct (decide (k' = k)) as [->|Hne]; [discriminate|].
  intros H. rewrite filter_cons_True by done. by rewrite IH.
Qed.

Lemma filter_fresh_handle (ts : list timer) (h : nat) :
  Forall (fun t => (handle t < h)%nat) ts ->
  filter (fun x => handle x <> h) ts = ts.
Proof.
  induction 1 as [|t ts Ht _ IH]; [done|].
  rewrite filter_cons_True by lia. by rewrite IH.
Qed.

Lemma scheduled_fields n d g :
  memory (scheduled n d g) = memory g /\
  timers (host (scheduled n d g))
    = timers (host g)
      ++ [Build_timer (next_handle (host g)) (int64_as_read d + 1) CallResolver] /\
  next_handle (host (scheduled n d g)) = S (next_handle (host g)) /\
  _callbackTimeouts (scheduled n d g)
    = Some (Map_set (CInt n) (next_handle (host g)) (default [] (_callbackTimeouts g))) /\
  _nextCallbackTimeoutID (scheduled n d g) = CInt (round_to_double (n + 1)) /\
  entry_calls (host (scheduled n d g)) = entry_calls (host g).
Proof. by destruct g. Qed.

Lemma int64_as_read_bounds v : v - 2 ^ 32 <= int64_as_read v <= v.
Proof. unfold int64_as_read. destruct (_ <? _); lia. Qed.

Lemma int64_as_read_word v :
  0 <= v < 2 ^ 32 -> int64_as_read v = if v <? 2 ^ 31 then v else v - 2 ^ 32.
Proof. intros H. unfold int64_as_read. by rewrite Z.mod_small by lia. Qed.

Lemma scheduleCallback_run g buf addr n d m :
  _callbackTimeouts g = Some m ->
  _nextCallbackTimeoutID g = CInt n ->
  memory g = Some buf ->
  ArrayBuffer.slice buf (addr + 8) 8 = Some (le_split 8 d) ->
  - 2 ^ 52 <= d < 2 ^ 52 ->
  ArrayBuffer.in_range buf (addr + 16) 4 = true ->
  exists buf',
    ArrayBuffer.blit buf (addr + 16) (le_split 4 n) = Some buf' /\
    scheduleCallback addr g = (Normal tt, with_memory buf' (scheduled n d g)).
Proof.
  intros Ht Hn Hm Hs Hd Hin.
  destruct (BufferFacts.blit_Some buf (addr + 16) (le_split 4 n)) as [buf' Hb].
  { by rewrite length_le_split. }
  exists buf'. split; [done|].
  unfold scheduleCallback. unfold bind at 1, get_state. cbv beta iota.
  rewrite Hn, Ht. unfold bind at 1, modify. cbv beta iota.
  unfold bind at 1, defined, ret. cbv beta iota.
  set (g1 := set_nextCallbackTimeoutID (increment (CInt n)) g).
  assert (Hm1 : memory g1 = Some buf) by (by destruct g).
  assert (G : getInt64 (addr + 8) g1 = (Normal (int64_as_read d), g1)).
  { by rewrite (getInt64_of_bytes g1 buf (addr + 8) d Hm1 Hs) by lia. }
  rewrite (bind_normal _ _ _ _ _ G).
  unfold bind at 1, setTimeout. cbv beta iota zeta.
  unfold bind at 1, modify. cbv beta iota.
  pose proof (int64_as_read_bounds d) as B.
  assert (P32 : 2 ^ 32 < 2 ^ 52) by (by vm_compute).
  assert (P53 : 2 ^ 52 + 2 ^ 52 = 2 ^ 53) by (by vm_compute).
  rewrite (round_to_double_exact (int64_as_read d + 1)) by lia.
  subst g1. cbn [increment counter_integer].
  match goal with |- setInt32 _ _ ?s = _ =>
    replace s with (scheduled n d g) by (unfold scheduled; rewrite Ht; by destruct g) end.
  apply (setInt32_run _ buf); [|done].
  by rewrite (proj1 (scheduled_fields n d g)).
Qed.

(** X11: with the map and an integer counter [n] in place, and a delay
    word [d] with -2^52 <= d < 2^52, [scheduleCallback] registers one
    timer that calls the resolver after the delay as [getInt64] reads it
    ([d], or [d - 2^32] when bit 31 of [d] is set) plus one, records its
    handle under [n], writes [n] as a 32-bit word at [addr + 16], which
    reads back as [n] when [n] is a signed 32-bit integer and as [n]
    wrapped to 32 bits otherwise, and moves the counter to [n + 1]
    rounded to a double, which is [n + 1] below 2^53. *)
Theorem scheduleCallback_registers g buf addr n d m :
  _callbackTimeouts g = Some m ->
  _nextCallbackTimeoutID g = CInt n ->
  memory g = Some buf ->
  ArrayBuffer.slice buf (addr + 8) 8 = Some (le_split 8 d) ->
  - 2 ^ 52 <= d < 2 ^ 52 ->
  ArrayBuffer.in_range buf (addr + 16) 4 = true ->
  exists g',
    scheduleCallback addr g = (Normal tt, g') /\
    timers (host g')
      = timers (host g)
        ++ [Build_timer (next_handle (host g)) (int64_as_read d + 1) CallResolver] /\
    (0 <= d < 2 ^ 31 -> int64_as_read d = d) /\
    (2 ^ 31 <= d < 2 ^ 32 -> int64_as_read d = d - 2 ^ 32) /\
    _callbackTimeouts g' = Some (Map_set (CInt n) (next_handle (host g)) m) /\
    Map_get (CInt n) (Map_set (CInt n) (next_handle (host g)) m)
      = Some (next_handle (host g)) /\
    getInt32 (addr + 16) g' = (Normal (ToInt32 n), g') /\
    (- 2 ^ 31 <= n < 2 ^ 31 -> getInt32 (addr + 16) g' = (Normal n, g')) /\
    _nextCallbackTimeoutID g' = CInt (round_to_double (n + 1)) /\
    (Z.abs (n + 1) < 2 ^ 53 -> _nextCallbackTimeoutID g' = CInt (n + 1)).
Proof.
  intros Ht Hn Hm Hs Hd Hin.
  destruct (scheduleCallback_run g buf addr n d m Ht Hn Hm Hs Hd Hin)
    as (buf' & Hb & R).
  pose proof (scheduled_fields n d g) as (Fm & Ft & _ & Fc & Fn & _).
  pose proof (with_memory_fields (scheduled n d g) buf')
    as (_ & _ & _ & _ & Fh & _ & Fc' & Fn' & _).
  exists (with_memory buf' (scheduled n d g)).
  split; [done|]. rewrite Fh, Fc', Fn', Ft, Fc, Fn, Ht.
  split; [done|].
  split. { intros Hd'. rewrite int64_as_read_word by lia.
           destruct (Z.ltb_spec d (2 ^ 31)); lia. }
  split. { intros Hd'. rewrite int64_as_read_word by lia.
           destruct (Z.ltb_spec d (2 ^ 31)); lia. }
  split; [done|]. split; [apply Map_get_set|].
  assert (Hm' : memory (with_memory buf' (scheduled n d g)) = Some buf').
  { apply (memory_with_memory _ _ buf). by rewrite Fm. }
  pose proof (BufferFacts.slice_blit_same _ _ _ _ Hb) as S.
  rewrite length_le_split in S.
  assert (G : getInt32 (addr + 16) (with_memory buf' (scheduled n d g))
              = (Normal (ToInt32 n), with_memory buf' (scheduled n d g))).
  { rewrite (getInt32_run _ _ _ _ Hm' S), le_combine_split.
    change (Z.of_nat 4 * 8) with 32. by rewrite ToInt32_mod. }
  split; [done|].
  split. { intros Hn32. by rewrite G, ToInt32_small. }
  split; [done|]. intros Hn53. by rewrite round_to_double_exact.
Qed.

Lemma scheduleCallback_registers_witness :
  (exists g',
     scheduleCallback 0 timers_go = (Normal tt, g') /\
     timers (host g') = [Build_timer 0 1 CallResolver] /\
     getInt32 16 g' = (Normal 1, g') /\
     _nextCallbackTimeoutID g' = CInt 2) /\
  (exists g',
     scheduleCallback 0 late_timers_go = (Normal tt, g') /\
     timers (host g') = [Build_timer 0 (-2147483647) CallResolver] /\
     getInt32 16 g' = (Normal (-2147483648), g')).
Proof.
  split.
  - destruct (scheduleCallback_registers timers_go (replicate 32 Byte.x00) 0 1 0 [])
      as (g' & R & Ht & _ & _ & _ & _ & _ & G & _ & Hn);
      [reflexivity|reflexivity|reflexivity|reflexivity|by vm_compute|reflexivity|].
    exists g'. split; [done|]. split; [done|]. split; [by apply G; vm_compute|].
    by apply Hn; vm_compute.
  - destruct (scheduleCallback_registers late_timers_go
                (replicate 8 Byte.x00 ++ le_split 8 (2 ^ 31) ++ replicate 16 Byte.x00)
                0 (2 ^ 31) (2 ^ 31) [])
      as (g' & R & Ht & _ & _ & _ & _ & G & _);
      [reflexivity|reflexivity|reflexivity|reflexivity|by vm_compute|reflexivity|].
    exists g'. done.
Defined.

Lemma clearScheduledCallback_run g buf addr id m :
  memory g = Some buf ->
  ArrayBuffer.slice buf (addr + 8) 4 = Some (le_split 4 id) ->
  - 2 ^ 31 <= id < 2 ^ 31 ->
  _callbackTimeouts g = Some m ->
  clearScheduledCallback addr g
    = (Normal tt,
       set_callbackTimeouts (Some (Map_delete (CInt id) m))
         (clearTimeout (Map_get (CInt id) m) g).2).
Proof.
  intros Hm Hs Hid Ht. unfold clearScheduledCallback.
  rewrite (bind_normal _ _ _ _ _ (memRaw_run _ _ Hm)).
  unfold DataView.getInt32. rewrite Hs. simpl.
  rewrite le_combine_split. change (Z.of_nat 4 * 8) with 32.
  rewrite ToInt32_mod, ToInt32_small by lia.
  unfold bind at 1, checked, ret. cbv beta iota.
  unfold bind at 1, get_state. cbv beta iota. rewrite Ht.
  unfold bind at 1, defined, ret. cbv beta iota.
  unfold bind, modify.
  destruct (Map_get (CInt id) m); reflexivity.
Qed.

(** The word that [clearScheduledCallback] finds is read as a signed
    32-bit integer. *)
Lemma clearScheduledCallback_word g buf addr w m :
  memory g = Some buf ->
  ArrayBuffer.slice buf (addr + 8) 4 = Some (le_split 4 w) ->
  _callbackTimeouts g = Some m ->
  clearScheduledCallback addr g
    = (Normal tt,
       set_callbackTimeouts (Some (Map_delete (CInt (ToInt32 w)) m))
         (clearTimeout (Map_get (CInt (ToInt32 w)) m) g).2).
Proof.
  intros Hm Hs Ht.
  assert (Hw : - 2 ^ 31 <= ToInt32 w < 2 ^ 31).
  { unfold ToInt32. pose proof (Z.mod_pos_bound (w + 2 ^ 31) (2 ^ 32) ltac:(lia)).
    assert (2 ^ 32 = 2 ^ 31 + 2 ^ 31) by (by vm_compute). lia. }
  apply (clearScheduledCallback_run g buf addr (ToInt32 w) m Hm); [|done|done].
  rewrite Hs. f_equal.
  rewrite (le_split_mod w 4), (le_split_mod (ToInt32 w) 4). f_equal.
  change (Z.of_nat 4 * 8) with 32. unfold ToInt32.
  rewrite Zminus_mod_idemp_l.
  replace (w + 2 ^ 31 - 2 ^ 31) with w by lia. reflexivity.
Qed.

Lemma Map_get_set_other {V} k k' (v : V) m :
  k' <> k -> Map_get k' (Map_set k v m) = Map_get k' m.
Proof.
  intros Hne. induction m as [|[k0 v0] m IH]; simpl.
  - by rewrite decide_False.
  - destruct (decide (k0 = k)) as [->|Hk]; simpl.
    + by rewrite !decide_False.
    + destruct (decide (k0 = k')); [done|exact IH].
Qed.

Lemma Map_get_delete {V} k (m : list (counter * V)) :
  Map_get k (Map_delete k m) = None.
Proof.
  induction m as [|[k0 v] m IH]; [done|]. unfold Map_delete in *.
  destruct (decide (k0 = k)) as [->|Hne].
  - rewrite filter_cons_False by (simpl; tauto). exact IH.
  - rewrite filter_cons_True by done. simpl. by rewrite decide_False.
Qed.

(** X12: [scheduleCallback] and then [clearScheduledCallback] with the
    word that was written at [addr + 16] (counter [n] an integer, delay
    word [d] with -2^52 <= d < 2^52, handles of the pending timers given
    out by [setTimeout]). When [n] is a signed 32-bit integer the timer
    is taken back: the pending timers are those from before and the map
    has no entry under [n]. When [n] is outside of that range the word
    reads back as another id, and, that id having no entry, the timer
    stays pending and its entry stays in the map. *)
Theorem schedule_then_clear g buf addr n d m :
  _callbackTimeouts g = Some m ->
  _nextCallbackTimeoutID g = CInt n ->
  memory g = Some buf ->
  ArrayBuffer.slice buf (addr + 8) 8 = Some (le_split 8 d) ->
  - 2 ^ 52 <= d < 2 ^ 52 ->
  ArrayBuffer.in_range buf (addr + 16) 4 = true ->
  handles_fresh g ->
  exists g1 g2,
    scheduleCallback addr g = (Normal tt, g1) /\
    clearScheduledCallback (addr + 8) g1 = (Normal tt, g2) /\
    (- 2 ^ 31 <= n < 2 ^ 31 ->
       timers (host g2) = timers (host g) /\
       _callbackTimeouts g2 = Some (Map_delete (CInt n) m) /\
       Map_get (CInt n) (Map_delete (CInt n) m) = None) /\
    (~ - 2 ^ 31 <= n < 2 ^ 31 -> Map_get (CInt (ToInt32 n)) m = None ->
       timers (host g2)
         = timers (host g)
           ++ [Build_timer (next_handle (host g)) (int64_as_read d + 1) CallResolver] /\
       _callbackTimeouts g2 = Some (Map_set (CInt n) (next_handle (host g)) m) /\
       Map_get (CInt n) (Map_set (CInt n) (next_handle (host g)) m)
         = Some (next_handle (host g))).
Proof.
  intros Ht Hn Hm Hs Hd Hin Hfresh.
  destruct (scheduleCallback_run g buf addr n d m Ht Hn Hm Hs Hd Hin)
    as (buf' & Hb & R).
  pose proof (scheduled_fields n d g) as (Fm & Ft & _ & Fc & _).
  pose proof (with_memory_fields (scheduled n d g) buf')
    as (_ & _ & _ & _ & Fh & _ & Fc' & _).
  set (g1 := with_memory buf' (scheduled n d g)) in *.
  assert (Hm1 : memory g1 = Some buf').
  { apply (memory_with_memory _ _ buf). by rewrite Fm. }
  pose proof (BufferFacts.slice_blit_same _ _ _ _ Hb) as S.
  rewrite length_le_split in S.
  replace (addr + 16) with (addr + 8 + 8) in S by lia.
  set (h := next_handle (host g)) in *.
  assert (Hc1 : _callbackTimeouts g1 = Some (Map_set (CInt n) h m)).
  { by rewrite Fc', Fc, Ht. }
  pose proof (clearScheduledCallback_word g1 buf' (addr + 8) n _ Hm1 S Hc1) as R2.
  eexists g1, _. split; [done|]. split; [exact R2|]. split.
  - intros Hn32. rewrite (ToInt32_small n Hn32), Map_get_set, Map_delete_set.
    split; [|split].
    + transitivity (filter (fun x => handle x <> h) (timers (host g1))).
      { by destruct g1. }
      rewrite Fh, Ft, filter_app, filter_cons_False by (simpl; tauto).
      rewrite filter_nil, app_nil_r. by apply filter_fresh_handle.
    + by destruct g1.
    + apply Map_get_delete.
  - intros Hn32 Habs.
    assert (Hne : CInt (ToInt32 n) <> CInt n).
    { intros [= E]. apply Hn32. rewrite <- E. unfold ToInt32.
      pose proof (Z.mod_pos_bound (n + 2 ^ 31) (2 ^ 32) ltac:(lia)).
      assert (2 ^ 32 = 2 ^ 31 + 2 ^ 31) by (by vm_compute). lia. }
    rewrite (Map_get_set_other _ _ _ _ Hne), Habs.
    rewrite Map_delete_absent by (by rewrite (Map_get_set_other _ _ _ _ Hne)).
    split; [|split].
    + transitivity (timers (host g1)); [by destruct g1|]. by rewrite Fh, Ft.
    + by destruct g1.
    + apply Map_get_set.
Qed.

Lemma schedule_then_clear_witness :
  (exists g1 g2,
     scheduleCallback 0 timers_go = (Normal tt, g1) /\
     clearScheduledCallback 8 g1 = (Normal tt, g2) /\
     timers (host g2) = [] /\ _callbackTimeouts g2 = Some []) /\
  (exists g1 g2,
     scheduleCallback 0 late_timers_go = (Normal tt, g1) /\
     clearScheduledCallback 8 g1 = (Normal tt, g2) /\
     timers (host g2) = [Build_timer 0 (-2147483647) CallResolver] /\
     _callbackTimeouts g2 = Some [(CInt (2 ^ 31), 0%nat)]).
Proof.
  split.
  - destruct (schedule_then_clear timers_go (replicate 32 Byte.x00) 0 1 0 [])
      as (g1 & g2 & R1 & R2 & H & _);
      [reflexivity|reflexivity|reflexivity|reflexivity|by vm_compute|reflexivity
      |constructor|].
    destruct H as (Ht & Hc & _); [by vm_compute|].
    exists g1, g2. done.
  - destruct (schedule_then_clear late_timers_go
                (replicate 8 Byte.x00 ++ le_split 8 (2 ^ 31) ++ replicate 16 Byte.x00)
                0 (2 ^ 31) (2 ^ 31) [])
      as (g1 & g2 & R1 & R2 & _ & H);
      [reflexivity|reflexivity|reflexivity|reflexivity|by vm_compute|reflexivity
      |constructor|].
    destruct H as (Ht & Hc & _);
      [intros [_ H]; vm_compute in H; discriminate H|reflexivity|].
    exists g1, g2. done.
Defined.

(** X13: [clearScheduledCallback] with an id that has no entry in the
    map changes nothing; without the map, as [load] leaves the bridge,
    it throws [TypeError] and changes nothing. *)
Theorem clear_without_entry g buf addr id :
  memory g = Some buf ->
  ArrayBuffer.slice buf (addr + 8) 4 = Some (le_split 4 id) ->
  - 2 ^ 31 <= id < 2 ^ 31 ->
  (forall m, _callbackTimeouts g = Some m -> Map_get (CInt id) m = None ->
     clearScheduledCallback addr g = (Normal tt, g)) /\
  (_callbackTimeouts g = None ->
     clearScheduledCallback addr g = (Throw (Raised KTypeError), g)).
Proof.
  intros Hm Hs Hid. split.
  - intros m Ht Hg.
    rewrite (clearScheduledCallback_run g buf addr id m Hm Hs Hid Ht), Hg.
    rewrite Map_delete_absent by done. simpl. f_equal.
    rewrite <- Ht. by destruct g.
  - intros Ht. unfold clearScheduledCallback.
    rewrite (bind_normal _ _ _ _ _ (memRaw_run _ _ Hm)).
    unfold DataView.getInt32. rewrite Hs. simpl.
    unfold bind at 1, checked, ret. cbv beta iota.
    unfold bind at 1, get_state. cbv beta iota. rewrite Ht.
    reflexivity.
Qed.

Lemma clear_without_entry_witness :
  clearScheduledCallback 0 (fresh_go 16)
    = (Throw (Raised KTypeError), fresh_go 16) /\
  clearScheduledCallback 0 timers_go = (Normal tt, timers_go).
Proof.
  split.
  - destruct (clear_without_entry (fresh_go 16) (replicate 16 Byte.x00) 0 0)
      as [_ H]; [reflexivity|reflexivity|lia|]. by apply H.
  - destruct (clear_without_entry timers_go (replicate 32 Byte.x00) 0 0)
      as [H _]; [reflexivity|reflexivity|lia|]. by apply (H []).
Defined.

(** ** The strings of [run] *)

Lemma code_unit_range c : 0 <= code_unit c < 256.
Proof.
  unfold code_unit. pose proof (N_ascii_bounded c) as H. lia.
Qed.

Lemma length_app_string a b :
  String.length (a +:+ b) = (String.length a + String.length b)%nat.
Proof. induction a as [|c a IH]; simpl; [done|]. by rewrite IH. Qed.

Lemma utf8_encode_app a b : utf8_encode (a +:+ b) = utf8_encode a ++ utf8_encode b.
Proof.
  induction a as [|c a IH]; [done|]. simpl.
  destruct (code_unit c <? 128); simpl; by rewrite IH.
Qed.

Lemma utf8_encode_NUL str :
  utf8_encode (str +:+ String NUL EmptyString) = utf8_encode str ++ [Byte.x00].
Proof. by rewrite utf8_encode_app. Qed.

Lemma utf8_encode_length s : (String.length s <= length (utf8_encode s))%nat.
Proof.
  induction s as [|c s IH]; simpl; [lia|].
  destruct (code_unit c <? 128); simpl; lia.
Qed.

Lemma utf8_encode_ascii7 s :
  ascii7 s -> length (utf8_encode s) = String.length s.
Proof.
  induction s as [|c s IH]; simpl; [done|]. intros [Hc Hs].
  rewrite (proj2 (Z.ltb_lt _ _) Hc). simpl. by rewrite IH.
Qed.

Lemma utf8_encode_longer s :
  ~ ascii7 s -> (String.length s < length (utf8_encode s))%nat.
Proof.
  induction s as [|c s IH]; simpl; [tauto|]. intros H.
  pose proof (utf8_encode_length s).
  destruct (code_unit c <? 128) eqn:E; simpl; [|lia].
  apply Z.ltb_lt in E. assert (~ ascii7 s) by tauto. specialize (IH H1). lia.
Qed.

Lemma ascii7_dec s : {ascii7 s} + {~ ascii7 s}.
Proof.
  induction s as [|c s [IH|IH]]; simpl; [by left| |right; tauto].
  destruct (Z_lt_dec (code_unit c) 128); [left|right]; tauto.
Qed.

Lemma plain_ascii7 s : plain s -> ascii7 s.
Proof. induction s as [|c s IH]; simpl; [done|]. intros [? ?]. split; [lia|auto]. Qed.

Lemma plain_app a b : plain a -> plain b -> plain (a +:+ b).
Proof. induction a as [|c a IH]; simpl; [done|]. intros [? ?] ?. auto. Qed.

Lemma ascii7_app a b : ascii7 (a +:+ b) <-> ascii7 a /\ ascii7 b.
Proof. induction a as [|c a IH]; simpl; [tauto|]. rewrite IH. tauto. Qed.

Lemma hex_digit_plain d : 0 <= d < 16 -> 0 < code_unit (hex_digit d) < 128.
Proof.
  intros H. assert (C : In d (map Z.of_nat (seq 0 16))).
  { apply in_map_iff. exists (Z.to_nat d). split; [lia|]. apply in_seq. lia. }
  simpl in C. repeat (destruct C as [<-|C]; [vm_compute; split; reflexivity|]).
  destruct C.
Qed.

(** [JSON.stringify] escapes the code units below 32, so its output has
    no zero; it leaves those from 128 as they are. *)
Lemma JSON_quote_plain s : ascii7 s -> plain (JSON_quote s).
Proof.
  induction s as [|c s IH]; [done|]. intros [Hc Hs]. cbn [JSON_quote].
  apply plain_app; [|by apply IH].
  pose proof (code_unit_range c) as R.
  repeat (match goal with
          | |- context [if ?b then _ else _] =>
              let E := fresh "E" in destruct b eqn:E;
              [try (vm_compute; intuition congruence)|]
          end).
  - cbn [plain String.append]. apply Z.eqb_eq in E4.
    repeat split; try (rewrite E4; lia); try (vm_compute; reflexivity).
  - apply Z.ltb_lt in E6. cbn [plain String.append].
    pose proof (hex_digit_plain (code_unit c / 16) ltac:(split; [apply Z.div_pos; lia|apply Z.div_lt_upper_bound; lia])).
    pose proof (hex_digit_plain (code_unit c mod 16) ltac:(apply Z.mod_pos_bound; lia)).
    repeat split; try (vm_compute; reflexivity); lia.
  - cbn [plain]. apply Z.ltb_ge in E6. repeat split; lia.
Qed.

Lemma JSON_stringify_plain s : ascii7 s -> plain (JSON_stringify s).
Proof.
  intros H. unfold JSON_stringify. cbn [String.append plain]. split.
  { vm_compute. split; reflexivity. }
  apply plain_app; [by apply JSON_quote_plain|].
  simpl. split; [|done]. vm_compute. split; reflexivity.
Qed.

Lemma JSON_quote_ascii7 s : ascii7 (JSON_quote s) -> ascii7 s.
Proof.
  induction s as [|c s IH]; [done|]. cbn [JSON_quote]. rewrite ascii7_app.
  intros [Hc Hs]. split; [|by apply IH].
  destruct (Z_lt_dec (code_unit c) 128) as [|Hn]; [done|]. exfalso.
  revert Hc.
  repeat (match goal with
          | |- context [if ?b then _ else _] =>
              let E := fresh "E" in destruct b eqn:E;
              [first [apply Z.eqb_eq in E|apply Z.ltb_lt in E]; lia|]
          end).
  simpl. lia.
Qed.

Lemma JSON_stringify_ascii7 s : ascii7 (JSON_stringify s) -> ascii7 s.
Proof.
  unfold JSON_stringify. cbn [String.append ascii7]. intros [_ H].
  apply ascii7_app in H. apply JSON_quote_ascii7, H.
Qed.

(** *** [strPtr] *)

Lemma strPtr_run g buf str offset :
  memory g = Some buf -> ascii7 str ->
  ArrayBuffer.in_range buf offset (Z.of_nat (String.length str) + 1) = true ->
  exists buf',
    ArrayBuffer.blit buf offset (utf8_encode str ++ [Byte.x00]) = Some buf' /\
    strPtr str offset g = (Normal (offset, advance offset str), with_memory buf' g).
Proof.
  intros Hm Ha Hin.
  assert (L : Z.of_nat (length (utf8_encode str ++ [Byte.x00]))
              = Z.of_nat (String.length str) + 1).
  { rewrite length_app, utf8_encode_ascii7 by done. simpl. lia. }
  destruct (BufferFacts.blit_Some buf offset (utf8_encode str ++ [Byte.x00]))
    as [buf' Hb]; [by rewrite L|].
  exists buf'. split; [done|]. unfold strPtr.
  rewrite (bind_normal _ _ _ _ _ (memRaw_run _ _ Hm)).
  unfold ArrayBuffer.slice. rewrite Hin.
  unfold bind at 1, checked, ret. cbv beta iota.
  rewrite utf8_encode_NUL, L, Z.ltb_irrefl, Hb.
  reflexivity.
Qed.

Lemma strPtr_throws g buf str offset :
  memory g = Some buf ->
  ~ ascii7 str \/
  ArrayBuffer.in_range buf offset (Z.of_nat (String.length str) + 1) = false ->
  strPtr str offset g = (Throw (Raised KRangeError), g).
Proof.
  intros Hm H. unfold strPtr.
  rewrite (bind_normal _ _ _ _ _ (memRaw_run _ _ Hm)).
  unfold ArrayBuffer.slice.
  destruct (ArrayBuffer.in_range buf offset _) eqn:E; [|reflexivity].
  destruct H as [H|H]; [|discriminate].
  unfold bind at 1, checked, ret. cbv beta iota.
  rewrite utf8_encode_NUL.
  assert (L : Z.of_nat (String.length str) + 1
              < Z.of_nat (length (utf8_encode str ++ [Byte.x00]))).
  { rewrite length_app. pose proof (utf8_encode_longer str H). simpl. lia. }
  by rewrite (proj2 (Z.ltb_lt _ _) L).
Qed.

Lemma advance_bounds offset str :
  offset + Z.of_nat (String.length str) + 1 <= advance offset str
  /\ advance offset str <= offset + Z.of_nat (String.length str) + 8.
Proof.
  unfold advance. cbv zeta.
  pose proof (Z.mod_pos_bound (Z.of_nat (String.length str)) 8 ltac:(lia)). lia.
Qed.

Lemma advance_aligned offset str : offset mod 8 = 0 -> advance offset str mod 8 = 0.
Proof.
  unfold advance. cbv zeta. intros H.
  set (len := Z.of_nat (String.length str)).
  rewrite (Z.div_mod len 8) at 1 by lia.
  replace (offset + (8 * (len / 8) + len mod 8 + (8 - len mod 8)))
    with (offset + (len / 8 + 1) * 8) by lia.
  by rewrite Z.mod_add by lia.
Qed.

Lemma block_end_le strs : forall offset, offset <= block_end strs offset.
Proof.
  induction strs as [|s strs IH]; intros offset; simpl; [lia|].
  specialize (IH (advance offset s)). pose proof (advance_bounds offset s).
  unfold block_end in *. lia.
Qed.

Lemma block_end_app xs ys offset :
  block_end (xs ++ ys) offset = block_end ys (block_end xs offset).
Proof. unfold block_end. by rewrite fold_left_app. Qed.

Lemma block_end_aligned strs : forall offset,
  offset mod 8 = 0 -> block_end strs offset mod 8 = 0.
Proof.
  induction strs as [|s strs IH]; intros offset H; simpl; [done|].
  apply IH. by apply advance_aligned.
Qed.

(** The strings go to consecutive places from [offset]; what is outside
    of them stays. *)
Lemma strPtrs_run strs : forall g buf offset,
  memory g = Some buf -> Forall ascii7 strs -> 0 <= offset -> offset mod 8 = 0 ->
  block_end strs offset <= Z.of_nat (length buf) ->
  exists buf' ptrs,
    strPtrs strs offset g
      = (Normal (ptrs, block_end strs offset), with_memory buf' g) /\
    length buf' = length buf /\
    Forall2 (fun p s => stored buf' p s /\ offset <= p /\ p mod 8 = 0 /\
                        p + Z.of_nat (String.length s) + 1 <= block_end strs offset)
            ptrs strs /\
    (forall a n, a + n <= offset \/ block_end strs offset <= a ->
       ArrayBuffer.slice buf' a n = ArrayBuffer.slice buf a n).
Proof.
  induction strs as [|s strs IH]; intros g buf offset Hm Ha Ho Hal Hend.
  - exists buf, []. repeat split; [|constructor].
    simpl. unfold ret. f_equal. unfold with_memory, memory in *.
    destruct g as [? ? [[e b]|] ? ? ? ? ? ? ? ? ?]; simpl in *; [|discriminate].
    by injection Hm as ->.
  - apply Forall_cons in Ha as [Hs Ha]. cbn [block_end fold_left] in *.
    fold (block_end strs (advance offset s)) in *.
    pose proof (advance_bounds offset s) as B.
    pose proof (block_end_le strs (advance offset s)) as M.
    destruct (strPtr_run g buf s offset Hm Hs) as (buf1 & Hb & R).
    { apply BufferFacts.in_range_spec. lia. }
    pose proof (BufferFacts.blit_length _ _ _ _ Hb) as L1.
    destruct (IH (with_memory buf1 g) buf1 (advance offset s))
      as (buf' & ptrs & R' & L' & F & Fr);
      [by apply (memory_with_memory _ _ buf)|done|lia|by apply advance_aligned|lia|].
    rewrite with_memory_twice in R'.
    assert (Len : Z.of_nat (length (utf8_encode s ++ [Byte.x00]))
                  = Z.of_nat (String.length s) + 1).
    { rewrite length_app, utf8_encode_ascii7 by done. simpl. lia. }
    exists buf', (offset :: ptrs). split; [|split; [|split]].
    + cbn [strPtrs]. rewrite (bind_normal _ _ _ _ _ R). cbn [snd fst].
      rewrite (bind_normal _ _ _ _ _ R'). reflexivity.
    + congruence.
    + constructor.
      * split; [|lia]. unfold stored. rewrite Fr by lia.
        rewrite <- Len. apply (BufferFacts.slice_blit_same buf). exact Hb.
      * eapply Forall2_impl; [exact F|]. cbv beta.
        intros p s' (? & ? & ? & ?). repeat split; try done; lia.
    + intros a n Hd. rewrite Fr by lia.
      apply (BufferFacts.slice_blit_other _ _ _ _ _ _ Hb). lia.
Qed.

Lemma with_memory_same g buf : memory g = Some buf -> with_memory buf g = g.
Proof.
  unfold with_memory, memory.
  destruct g as [? ? [[e b]|] ? ? ? ? ? ? ? ? ?]; simpl; [|discriminate].
  by intros [= ->].
Qed.

(** A string with a code unit from 128 stops the marshalling: its
    encoding is longer than the [str.length + 1] bytes of the view. *)
Lemma strPtrs_throws strs : forall g buf offset,
  memory g = Some buf -> Exists (fun s => ~ ascii7 s) strs ->
  exists buf', strPtrs strs offset g = (Throw (Raised KRangeError), with_memory buf' g).
Proof.
  induction strs as [|s strs IH]; intros g buf offset Hm Hex.
  { by apply Exists_nil in Hex. }
  cbn [strPtrs].
  destruct (ascii7_dec s) as [Hs|Hs];
    [destruct (ArrayBuffer.in_range buf offset (Z.of_nat (String.length s) + 1)) eqn:E|].
  - destruct (strPtr_run g buf s offset Hm Hs E) as (buf1 & Hb & R).
    rewrite (bind_normal _ _ _ _ _ R). cbn [snd fst].
    apply Exists_cons in Hex as [Hex|Hex]; [done|].
    destruct (IH (with_memory buf1 g) buf1 (advance offset s)
                 (memory_with_memory _ _ _ Hm) Hex) as [buf' R'].
    exists buf'. rewrite (bind_throw _ _ _ _ _ R'). by rewrite with_memory_twice.
  - exists buf. rewrite (with_memory_same _ _ Hm).
    by rewrite (bind_throw _ _ _ _ _ (strPtr_throws g buf s offset Hm (or_intror E))).
  - exists buf. rewrite (with_memory_same _ _ Hm).
    by rewrite (bind_throw _ _ _ _ _ (strPtr_throws g buf s offset Hm (or_introl Hs))).
Qed.

Lemma memory_set_running b g : memory (set_running b g) = memory g.
Proof. by destruct g. Qed.

(** X14: a parameter of [run] with a code unit from 128 makes [run]
    throw [RangeError] while it writes the strings: the guest is not
    entered, [running] stays set, and every later [run] is rejected. *)
Theorem run_non_ascii_parameter guest params g buf :
  running g = false -> memory g = Some buf ->
  Exists (fun s => ~ ascii7 s) params ->
  exists g',
    run guest params g = (Throw (Raised KRangeError), g') /\
    running g' = true /\
    entry_calls (host g') = entry_calls (host g) /\
    forall params',
      run guest params' g'
        = (Throw (Raised (KError "Go Module already running")), g').
Proof.
  intros Hr Hm Hex.
  assert (Hex' : Exists (fun s => ~ ascii7 s)
                   (map JSON_stringify ("main.wasm"%string :: params))).
  { apply Exists_exists in Hex as (s & Hin & Hs). apply Exists_exists.
    exists (JSON_stringify s). split.
    - apply list_elem_of_fmap. exists s. split; [done|]. by right.
    - intros H. by apply Hs, JSON_stringify_ascii7. }
  destruct (strPtrs_throws _ (set_running true g) buf 4096
              (eq_trans (memory_set_running true g) Hm) Hex') as [buf' R].
  exists (with_memory buf' (set_running true g)).
  assert (Hrun : running (with_memory buf' (set_running true g)) = true).
  { transitivity (running (set_running true g)); [apply with_memory_fields|by destruct g]. }
  split; [|split; [done|split]].
  - unfold run. apply bind_throw. unfold run_prepare.
    unfold bind at 1, get_state. rewrite Hr. cbn [negb Bool.eqb]. cbv beta iota.
    unfold bind at 1, modify. cbv beta iota.
    by apply bind_throw.
  - transitivity (entry_calls (host (set_running true g))); [|by destruct g].
    f_equal. apply with_memory_fields.
  - intros params'. by apply run_rejects.
Qed.

Lemma run_non_ascii_parameter_witness :
  exists g',
    run idle_guest [String (ascii_of_nat 233) EmptyString] marshal_go
      = (Throw (Raised KRangeError), g') /\
    running g' = true.
Proof.
  destruct (run_non_ascii_parameter idle_guest
              [String (ascii_of_nat 233) EmptyString] marshal_go
              (replicate 4400 Byte.x00))
    as (g' & R & Hr & _); [reflexivity|reflexivity| |by exists g'].
  constructor. vm_compute. intros [H _]. discriminate H.
Defined.

(** *** The pointer block *)

Lemma words_app buf n : forall a m xs ys,
  length xs = n ->
  ReferenceDecoder.words buf a (n + m) = Some (xs ++ ys) ->
  ReferenceDecoder.words buf a n = Some xs /\
  ReferenceDecoder.words buf (a + 8 * Z.of_nat n) m = Some ys.
Proof.
  induction n as [|n IH]; intros a m xs ys Hl H.
  - destruct xs; [|discriminate]. simpl in *. by rewrite Z.add_0_r.
  - destruct xs as [|x xs]; [discriminate|]. injection Hl as Hl.
    cbn [Nat.add ReferenceDecoder.words] in *.
    destruct (ReferenceDecoder.word_at buf a) as [w|]; [|discriminate].
    cbn [mbind option_bind] in *.
    destruct (ReferenceDecoder.words buf (a + 8) (n + m)) as [ws|] eqn:E; [|discriminate].
    cbn [mbind option_bind] in *. injection H as -> ->.
    destruct (IH _ _ _ _ Hl E) as [-> H2]. cbn [mbind option_bind].
    split; [done|]. rewrite <- H2. f_equal. lia.
Qed.

Lemma write_ptrs_run ptrs : forall g buf offset,
  memory g = Some buf -> Forall (fun p => 0 <= p < 2 ^ 32) ptrs -> 0 <= offset ->
  offset + 8 * Z.of_nat (length ptrs) <= Z.of_nat (length buf) ->
  exists buf',
    write_ptrs ptrs offset g
      = (Normal (offset + 8 * Z.of_nat (length ptrs)), with_memory buf' g) /\
    length buf' = length buf /\
    ReferenceDecoder.words buf' offset (length ptrs) = Some ptrs /\
    ReferenceDecoder.words buf' (offset + 4) (length ptrs)
      = Some (replicate (length ptrs) 0) /\
    (forall a n, a + n <= offset \/ offset + 8 * Z.of_nat (length ptrs) <= a ->
       ArrayBuffer.slice buf' a n = ArrayBuffer.slice buf a n).
Proof.
  induction ptrs as [|p ptrs IH]; intros g buf offset Hm Hp Ho Hend.
  - exists buf. rewrite (with_memory_same _ _ Hm). simpl.
    rewrite Z.add_0_r. by repeat split.
  - apply Forall_cons in Hp as [Hp Hps]. cbn [length] in *.
    destruct (BufferFacts.blit_Some buf offset (le_split 4 p)) as [buf1 Hb1].
    { apply BufferFacts.in_range_spec. rewrite length_le_split. lia. }
    pose proof (BufferFacts.blit_length _ _ _ _ Hb1) as L1.
    destruct (BufferFacts.blit_Some buf1 (offset + 4) (le_split 4 0)) as [buf2 Hb2].
    { apply BufferFacts.in_range_spec. rewrite length_le_split. lia. }
    pose proof (BufferFacts.blit_length _ _ _ _ Hb2) as L2.
    pose proof (memory_with_memory g buf1 buf Hm) as Hm1.
    pose proof (memory_with_memory (with_memory buf1 g) buf2 buf1 Hm1) as Hm2.
    rewrite with_memory_twice in Hm2.
    destruct (IH (with_memory buf2 g) buf2 (offset + 8) Hm2 Hps)
      as (buf' & R & L' & W & Z0 & Fr); [lia|lia|].
    rewrite with_memory_twice in R.
    exists buf'. split; [|split; [congruence|split; [|split]]].
    + cbn [write_ptrs].
      rewrite (bind_normal _ _ _ _ _ (setUint32_run g buf offset p buf1 Hm Hb1)).
      rewrite (bind_normal _ _ _ _ _
                 (setUint32_run _ buf1 (offset + 4) 0 buf2 Hm1 Hb2)).
      rewrite with_memory_twice, R. do 2 f_equal. lia.
    + cbn [ReferenceDecoder.words]. unfold ReferenceDecoder.word_at, DataView.getUint32.
      rewrite Fr by lia.
      rewrite (BufferFacts.slice_blit_other _ _ _ _ offset 4 Hb2) by lia.
      pose proof (BufferFacts.slice_blit_same _ _ _ _ Hb1) as S.
      rewrite length_le_split in S. change (Z.of_nat 4) with 4 in S. rewrite S.
      cbn [fmap option_fmap option_map mbind option_bind]. rewrite W.
      cbn [mbind option_bind]. rewrite le_combine_split.
      change (Z.of_nat 4 * 8) with 32. by rewrite Z.mod_small by lia.
    + cbn [ReferenceDecoder.words]. unfold ReferenceDecoder.word_at, DataView.getUint32.
      rewrite Fr by lia.
      pose proof (BufferFacts.slice_blit_same _ _ _ _ Hb2) as S.
      rewrite length_le_split in S. change (Z.of_nat 4) with 4 in S. rewrite S.
      cbn [fmap option_fmap option_map mbind option_bind].
      replace (offset + 4 + 8) with (offset + 8 + 4) by lia. rewrite Z0.
      reflexivity.
    + intros a n Hd. rewrite Fr by lia.
      rewrite (BufferFacts.slice_blit_other _ _ _ _ a n Hb2) by (rewrite length_le_split; lia).
      apply (BufferFacts.slice_blit_other _ _ _ _ a n Hb1). rewrite length_le_split. lia.
Qed.

(** *** Reading the strings back *)

Lemma ascii_of_code_unit c : ascii_of_byte (byte.of_Z (code_unit c)) = c.
Proof. destruct c as [[] [] [] [] [] [] [] []]; reflexivity. Qed.

Lemma c_string_from_plain s rest :
  plain s ->
  ReferenceDecoder.c_string_from (utf8_encode s ++ Byte.x00 :: rest) = Some s.
Proof.
  induction s as [|c s IH]; [done|]. intros [Hc Hs]. cbn [utf8_encode].
  cbv zeta. rewrite (proj2 (Z.ltb_lt _ _) (proj2 Hc)).
  cbn [app ReferenceDecoder.c_string_from].
  rewrite byte.unsigned_of_Z. unfold byte.wrap.
  rewrite Z.mod_small by (change (2 ^ 8) with 256; lia).
  rewrite (proj2 (Z.eqb_neq _ _)) by lia.
  by rewrite IH, ascii_of_code_unit.
Qed.

Lemma c_string_stored buf ptr s :
  stored buf ptr s -> plain s -> ReferenceDecoder.c_string buf ptr = Some s.
Proof.
  unfold stored, ArrayBuffer.slice, ReferenceDecoder.c_string. intros H Hs.
  destruct (ArrayBuffer.in_range _ _ _) eqn:E; [|discriminate].
  apply BufferFacts.in_range_spec in E. injection H as H.
  rewrite (proj2 (Z.leb_le _ _)) by lia.
  rewrite <- (take_drop (Z.to_nat (Z.of_nat (String.length s) + 1))
                        (drop (Z.to_nat ptr) buf)), H, <- app_assoc.
  by apply c_string_from_plain.
Qed.

Lemma strings_stored buf ptrs strs :
  Forall2 (stored buf) ptrs strs -> Forall plain strs ->
  ReferenceDecoder.strings buf ptrs = Some strs.
Proof.
  intros F P. unfold ReferenceDecoder.strings. apply mapM_Some.
  induction F as [|p s ptrs strs H F IH]; [constructor|].
  apply Forall_cons in P as [Ps P]. constructor; [by apply c_string_stored|auto].
Qed.

Lemma environ_plain g :
  (forall k v, env g !! k = Some v -> plain k /\ plain v) ->
  Forall plain (environ g).
Proof.
  intros H. apply Forall_forall. intros s Hs. unfold environ in Hs.
  apply list_elem_of_fmap in Hs as (key & -> & Hk).
  apply sorted_keys_spec in Hk as [v Hv]. rewrite Hv. simpl.
  destruct (H key v Hv) as [Pk Pv].
  apply plain_app; [done|]. apply plain_app; [|done].
  simpl. split; [|done]. vm_compute. split; reflexivity.
Qed.

(** [run] up to its loop, when every string fits and is plain enough:
    the result, the memory, and what the block reads back as. *)
Lemma run_prepare_run params g buf :
  running g = false -> memory g = Some buf ->
  Z.of_nat (length buf) <= 2 ^ 32 ->
  Forall ascii7 params -> Forall plain (environ g) ->
  block_end (map JSON_stringify ("main.wasm"%string :: params) ++ environ g) 4096
    + 8 * Z.of_nat (S (length params) + 1 + length (environ g))
    <= Z.of_nat (length buf) ->
  exists buf',
    run_prepare params g
      = (Normal (Z.of_nat (S (length params)),
                 block_end (map JSON_stringify ("main.wasm"%string :: params)
                            ++ environ g) 4096),
         with_memory buf' (set_running true g)) /\
    length buf' = length buf /\
    decodes_to buf'
      (block_end (map JSON_stringify ("main.wasm"%string :: params) ++ environ g) 4096)
      (map JSON_stringify ("main.wasm"%string :: params)) (environ g) /\
    (forall a n,
       a + n <= 4096 \/
       block_end (map JSON_stringify ("main.wasm"%string :: params) ++ environ g) 4096
         + 8 * Z.of_nat (S (length params) + 1 + length (environ g)) <= a ->
       ArrayBuffer.slice buf' a n = ArrayBuffer.slice buf a n).
Proof.
  intros Hr Hm Hlen Hp He Hend.
  set (args := map JSON_stringify ("main.wasm"%string :: params)) in *.
  set (envs := environ g) in *.
  assert (Pa : Forall plain args).
  { unfold args. apply Forall_forall. intros s Hs.
    apply list_elem_of_fmap in Hs as (s' & -> & Hs').
    apply JSON_stringify_plain.
    apply elem_of_cons in Hs' as [->|Hs'].
    - vm_compute. tauto.
    - by apply (proj1 (Forall_forall _ _) Hp). }
  assert (Ln : length args = S (length params)).
  { unfold args. by rewrite length_map. }
  rewrite block_end_app in *.
  set (mid := block_end args 4096) in *.
  set (argv := block_end envs mid) in *.
  pose proof (block_end_le args 4096) as B1. fold mid in B1.
  pose proof (block_end_le envs mid) as B2. fold argv in B2.
  assert (A1 : mid mod 8 = 0) by (by apply block_end_aligned).
  set (g0 := set_running true g).
  assert (Hm0 : memory g0 = Some buf) by (by rewrite <- Hm; destruct g).
  destruct (strPtrs_run args g0 buf 4096 Hm0) as (buf1 & ptrs1 & R1 & L1 & F1 & Fr1);
    [eapply Forall_impl; [exact Pa|apply plain_ascii7]|lia|done|fold mid; lia|].
  fold mid in R1, F1, Fr1.
  pose proof (memory_with_memory g0 buf1 buf Hm0) as Hm1.
  destruct (strPtrs_run envs (with_memory buf1 g0) buf1 mid Hm1)
    as (buf2 & ptrs2 & R2 & L2 & F2 & Fr2);
    [eapply Forall_impl; [exact He|apply plain_ascii7]|lia|done|fold argv; lia|].
  fold argv in R2, F2, Fr2. rewrite with_memory_twice in R2.
  pose proof (memory_with_memory g0 buf2 buf Hm0) as Hm2.
  pose proof (Forall2_length _ _ _ F1) as N1.
  pose proof (Forall2_length _ _ _ F2) as N2.
  set (ptrs := ptrs1 ++ [Z.of_nat (length envs)] ++ ptrs2).
  assert (Lp : length ptrs = (S (length params) + 1 + length envs)%nat).
  { unfold ptrs. rewrite !length_app. simpl. lia. }
  destruct (write_ptrs_run ptrs (with_memory buf2 g0) buf2 argv Hm2)
    as (buf3 & R3 & L3 & W & Z0 & Fr3); [|lia|rewrite Lp; lia|].
  { unfold ptrs. rewrite !Forall_app. split; [|split].
    - eapply Forall2_Forall_l; [exact F1|]. apply Forall_forall.
      intros s _ p (_ & ? & _ & ?). lia.
    - constructor; [lia|constructor].
    - eapply Forall2_Forall_l; [exact F2|]. apply Forall_forall.
      intros s _ p (_ & ? & _ & ?). lia. }
  rewrite with_memory_twice, Lp in R3. rewrite Lp in W, Z0, Fr3.
  exists buf3. split; [|split; [congruence|split]].
  - unfold run_prepare. unfold bind at 1, get_state. rewrite Hr.
    cbn [negb Bool.eqb]. cbv beta iota zeta.
    unfold bind at 1, modify. cbv beta iota.
    fold g0. fold args. rewrite (bind_normal _ _ _ _ _ R1). cbn [fst snd].
    fold (environ g). fold envs. rewrite (bind_normal _ _ _ _ _ R2). cbn [fst snd].
    replace (length (sorted_keys (env g))) with (length envs)
      by (unfold envs, environ; by rewrite length_map).
    fold ptrs. rewrite (bind_normal _ _ _ _ _ R3). reflexivity.
  - assert (S1 : Forall2 (stored buf3) ptrs1 args).
    { eapply Forall2_impl; [exact F1|]. cbv beta. intros p s (Hs & ? & _ & ?).
      unfold stored in *. rewrite Fr3, Fr2 by lia. exact Hs. }
    assert (S2 : Forall2 (stored buf3) ptrs2 envs).
    { eapply Forall2_impl; [exact F2|]. cbv beta. intros p s (Hs & ? & _ & ?).
      unfold stored in *. rewrite Fr3 by lia. exact Hs. }
    unfold ptrs in W. unfold decodes_to. cbv zeta.
    replace (S (length params) + 1 + length envs)%nat
      with (length ptrs1 + (1 + length ptrs2))%nat in W by lia.
    apply words_app in W as [W1 W]; [|done].
    apply (words_app _ 1 _ _ [Z.of_nat (length envs)]) in W as [W2 W3]; [|done].
    exists ptrs1, ptrs2. rewrite N1 in W1, W2, W3. rewrite N2 in W3.
    split; [done|]. split; [by apply strings_stored|].
    split; [done|]. split.
    { rewrite <- W3. f_equal; lia. }
    split; [by apply strings_stored|]. by rewrite Ln.
  - intros a n Hd. rewrite Fr3, Fr2, Fr1 by lia. done.
Qed.

(** X15: for parameters of code units below 128 and an environment of
    keys and values with code units from 1 to 127, on a memory of at
    most 4 GiB that has room for the block, [run] passes the count of
    the parameters plus one, and the block at [argv] reads back as the
    JSON texts of "main.wasm" and the parameters, the number of
    environment entries, and the entries [key=value] in the order of
    their keys. *)
Theorem run_prepare_marshals params g buf :
  running g = false -> memory g = Some buf ->
  Z.of_nat (length buf) <= 2 ^ 32 ->
  Forall ascii7 params ->
  (forall k v, env g !! k = Some v -> plain k /\ plain v) ->
  block_end (map JSON_stringify ("main.wasm"%string :: params) ++ environ g) 4096
    + 8 * Z.of_nat (S (length params) + 1 + length (environ g))
    <= Z.of_nat (length buf) ->
  exists argv g' buf',
    run_prepare params g = (Normal (Z.of_nat (length params) + 1, argv), g') /\
    memory g' = Some buf' /\
    decodes_to buf' argv
      (map JSON_stringify ("main.wasm"%string :: params)) (environ g).
Proof.
  intros Hr Hm Hlen Hp He Hend.
  destruct (run_prepare_run params g buf Hr Hm Hlen Hp (environ_plain g He) Hend)
    as (buf' & R & _ & D & _).
  eexists _, _, buf'. split; [|split; [|exact D]].
  - rewrite R. do 3 f_equal. lia.
  - apply (memory_with_memory _ _ buf). by rewrite memory_set_running.
Qed.

Lemma run_prepare_marshals_witness :
  exists argv g' buf',
    run_prepare ["prog"%string; "42"%string] marshal_go
      = (Normal (3, argv), g') /\
    memory g' = Some buf' /\
    decodes_to buf' argv
      (map JSON_stringify ["main.wasm"%string; "prog"%string; "42"%string])
      ["A=1"%string].
Proof.
  apply (run_prepare_marshals ["prog"%string; "42"%string] marshal_go
           (replicate 4400 Byte.x00)).
  - reflexivity.
  - reflexivity.
  - by vm_compute.
  - repeat constructor; by vm_compute.
  - intros k v H. change (env marshal_go)
      with ({[ "A"%string := "1"%string ]} : gmap string string) in H.
    apply lookup_singleton_Some in H as [<- <-].
    split; vm_compute; tauto.
  - by vm_compute.
Defined.

(** X16: under the same conditions the block starts at a multiple of 8,
    the memory keeps its length, and [run] writes nothing below 4096 or
    from the end of the block on. *)
Theorem run_prepare_footprint params g buf :
  running g = false -> memory g = Some buf ->
  Z.of_nat (length buf) <= 2 ^ 32 ->
  Forall ascii7 params ->
  (forall k v, env g !! k = Some v -> plain k /\ plain v) ->
  block_end (map JSON_stringify ("main.wasm"%string :: params) ++ environ g) 4096
    + 8 * Z.of_nat (S (length params) + 1 + length (environ g))
    <= Z.of_nat (length buf) ->
  exists argc argv g' buf',
    run_prepare params g = (Normal (argc, argv), g') /\
    memory g' = Some buf' /\ length buf' = length buf /\
    argv mod 8 = 0 /\
    4096 + 8 * (argc + Z.of_nat (length (environ g))) <= argv /\
    forall a n,
      a + n <= 4096 \/ argv + 8 * (argc + 1 + Z.of_nat (length (environ g))) <= a ->
      ArrayBuffer.slice buf' a n = ArrayBuffer.slice buf a n.
Proof.
  intros Hr Hm Hlen Hp He Hend.
  destruct (run_prepare_run params g buf Hr Hm Hlen Hp (environ_plain g He) Hend)
    as (buf' & R & L & _ & Fr).
  eexists _, _, _, buf'. split; [exact R|].
  split; [apply (memory_with_memory _ _ buf); by rewrite memory_set_running|].
  split; [done|]. split; [by apply block_end_aligned|]. split.
  - assert (K : forall strs off, off + 8 * Z.of_nat (length strs) <= block_end strs off).
    { induction strs as [|s strs IH]; intros off; [simpl; lia|].
      specialize (IH (advance off s)).
      change (block_end (s :: strs) off) with (block_end strs (advance off s)).
      cbn [length]. rewrite Nat2Z.inj_succ.
      assert (off + 8 <= advance off s); [|lia].
      unfold advance. cbv zeta.
      pose proof (Z.mod_le (Z.of_nat (String.length s)) 8 ltac:(lia) ltac:(lia)).
      lia. }
    specialize (K (map JSON_stringify ("main.wasm"%string :: params) ++ environ g) 4096).
    rewrite length_app, length_map in K. cbn [length] in K. lia.
  - intros a n Hd. apply Fr. lia.
Qed.

Lemma run_prepare_footprint_witness :
  exists argc argv g' buf',
    run_prepare ["prog"%string; "42"%string] marshal_go = (Normal (argc, argv), g') /\
    memory g' = Some buf' /\ length buf' = 4400%nat /\ argv mod 8 = 0 /\
    ArrayBuffer.slice buf' 0 4096 = Some (replicate 4096 Byte.x00).
Proof.
  destruct (run_prepare_footprint ["prog"%string; "42"%string] marshal_go
              (replicate 4400 Byte.x00))
    as (argc & argv & g' & buf' & R & Hm & L & A & _ & Fr).
  - reflexivity.
  - reflexivity.
  - by vm_compute.
  - repeat constructor; by vm_compute.
  - intros k v H. change (env marshal_go)
      with ({[ "A"%string := "1"%string ]} : gmap string string) in H.
    apply lookup_singleton_Some in H as [<- <-].
    split; vm_compute; tauto.
  - by vm_compute.
  - exists argc, argv, g', buf'. split; [done|]. split; [done|].
    split; [by rewrite L|]. split; [done|].
    rewrite Fr by (left; lia). by vm_compute.
Defined.

(** ** The loop and its wake-up *)

Lemma find_fresh_handle (ts : list timer) (t : timer) :
  Forall (fun x => (handle x < handle t)%nat) ts ->
  List.find (fun x => Nat.eqb (handle x) (handle t)) (ts ++ [t]) = Some t.
Proof.
  induction 1 as [|x ts Hx _ IH]; simpl.
  - by rewrite Nat.eqb_refl.
  - by rewrite (proj2 (Nat.eqb_neq _ _)) by lia.
Qed.

Lemma resolver_run g p :
  _resolveCallbackPromise g = Some p -> exited g = false ->
  resolveCallbackPromise g = (Normal tt, (setTimeout (ResolvePromise p) 0 g).2).
Proof.
  intros Hp He. unfold resolveCallbackPromise, bind, get_state, defined.
  rewrite Hp. simpl. by rewrite He.
Qed.

Lemma resolve_timer_elapses g p :
  handles_fresh g ->
  exists g',
    timer_elapses (next_handle (host g)) (setTimeout (ResolvePromise p) 0 g).2
      = (Normal (Some p), g') /\
    timers (host g') = timers (host g) /\
    next_handle (host g') = S (next_handle (host g)).
Proof.
  intros Hf. eexists. split; [|split].
  - unfold timer_elapses. unfold bind at 1, get_state.
    replace (timers (host (setTimeout (ResolvePromise p) 0 g).2))
      with (timers (host g) ++ [Build_timer (next_handle (host g)) 0 (ResolvePromise p)])
      by (by destruct g).
    pose proof (find_fresh_handle (timers (host g))
                  (Build_timer (next_handle (host g)) 0 (ResolvePromise p)) Hf) as F.
    cbn [handle] in F. rewrite F. reflexivity.
  - transitivity (filter (fun x => handle x <> next_handle (host g))
                    (timers (host g) ++ [Build_timer (next_handle (host g)) 0 (ResolvePromise p)])).
    { by destruct g. }
    rewrite filter_app, filter_cons_False by (simpl; tauto).
    rewrite filter_nil, app_nil_r. by apply filter_fresh_handle.
  - by destruct g.
Qed.

(** X17: while the program has not exited, an elapsing timer of
    [scheduleCallback] calls the resolver, which queues the [resolve] of
    the pending promise; when that elapses the promise is resolved, and
    of the two timers none is left. *)
Theorem callback_wakes_loop g p n t :
  exited g = false -> _resolveCallbackPromise g = Some p -> handles_fresh g ->
  List.find (fun x => Nat.eqb (handle x) n) (timers (host g)) = Some t ->
  action t = CallResolver ->
  exists g1 g2,
    timer_elapses n g = (Normal None, g1) /\
    timer_elapses (next_handle (host g)) g1 = (Normal (Some p), g2) /\
    timers (host g2) = filter (fun x => handle x <> n) (timers (host g)).
Proof.
  intros He Hp Hf Hfind Ha.
  set (g0 := (clearTimeout (Some n) g).2).
  assert (He0 : exited g0 = false) by (by rewrite <- He; destruct g).
  assert (Hp0 : _resolveCallbackPromise g0 = Some p) by (by rewrite <- Hp; destruct g).
  assert (Ht0 : timers (host g0) = filter (fun x => handle x <> n) (timers (host g)))
    by (by destruct g).
  assert (Hn0 : next_handle (host g0) = next_handle (host g)) by (by destruct g).
  assert (Hf0 : handles_fresh g0).
  { unfold handles_fresh. rewrite Ht0, Hn0. apply Forall_forall.
    intros x Hx. apply list_elem_of_filter in Hx as [_ Hx].
    by apply (proj1 (Forall_forall _ _) Hf). }
  destruct (resolve_timer_elapses g0 p Hf0) as (g2 & R2 & T2 & _).
  exists (setTimeout (ResolvePromise p) 0 g0).2, g2. split; [|split].
  - unfold timer_elapses. unfold bind at 1, get_state. rewrite Hfind.
    unfold bind at 1, clearTimeout, modify. cbv beta iota. rewrite Ha.
    fold (clearTimeout (Some n) g). fold g0.
    rewrite (bind_normal _ _ _ _ _ (resolver_run g0 p Hp0 He0)). reflexivity.
  - by rewrite <- Hn0.
  - by rewrite T2, Ht0.
Qed.

Lemma callback_wakes_loop_witness :
  exists g1 g2,
    timer_elapses 0 waiting_go = (Normal None, g1) /\
    timer_elapses 1 g1 = (Normal (Some 0%nat), g2) /\
    timers (host g2) = [].
Proof.
  destruct (callback_wakes_loop waiting_go 0%nat 0%nat (Build_timer 0 1 CallResolver))
    as (g1 & g2 & R1 & R2 & T); try (vm_compute; reflexivity).
  - repeat constructor.
  - exists g1, g2. split; [done|]. split; [done|]. rewrite T. vm_compute. reflexivity.
Defined.

(** X18: a turn of the loop in which the guest returns: the entry point
    was called once, with [argc] and [argv]; the resolver of the bridge
    is the one of the promise made in this turn; and the loop ends when
    [exited] is set and awaits that promise otherwise. *)
Theorem loop_turn guest argc argv g g' :
  loaded g = true ->
  (forall c v, keeps _resolveCallbackPromise (guest c v)) ->
  guest argc argv (turn_entry argc argv g) = (Normal tt, g') ->
  run_iteration guest argc argv g
    = (Normal (if exited g' then Exited else Awaiting (next_promise (host g))), g') /\
  entry_calls (host (turn_entry argc argv g)) = entry_calls (host g) ++ [(argc, argv)] /\
  _resolveCallbackPromise g' = Some (next_promise (host g)).
Proof.
  intros Hl Hk Hg. split; [|split].
  - assert (E : run_iteration guest argc argv g
                = (guest argc argv >>>
                   let! s := get_state in
                   if exited s then ret Exited
                   else ret (Awaiting (next_promise (host g))))
                    (turn_entry argc argv g)).
    { unfold loaded in Hl. destruct g as [? ? [i|] ? ? ? ? ? ? ? ? ?];
        [reflexivity|discriminate]. }
    rewrite E, (bind_normal _ _ _ _ _ Hg). unfold bind, get_state.
    by destruct (exited g').
  - unfold turn_entry. by destruct g.
  - pose proof (Hk argc argv (turn_entry argc argv g)) as K. rewrite Hg in K.
    cbn [snd] in K. rewrite K. unfold turn_entry. by destruct g.
Qed.

Lemma loop_turn_witness :
  run_iteration idle_guest 3 4144 (fresh_go 16)
    = (Normal (Awaiting 0%nat), turn_entry 3 4144 (fresh_go 16)).
Proof.
  apply (loop_turn idle_guest 3 4144 (fresh_go 16) (turn_entry 3 4144 (fresh_go 16)));
    [reflexivity|intros c v s; reflexivity|reflexivity].
Defined.

(** ** Strings and property reads *)

Section StringFacts.

Variable js_get : jsval -> string -> M jsval.
Variable decode : list byte -> string.

Lemma loadString_run g buf addr saddr len bytes :
  memory g = Some buf ->
  ArrayBuffer.slice buf addr 16 = Some (le_split 8 saddr ++ le_split 8 len) ->
  0 <= saddr < 2 ^ 31 -> 0 <= len < 2 ^ 31 ->
  ArrayBuffer.slice buf saddr len = Some bytes ->
  loadString decode addr g = (Normal (decode bytes), g).
Proof.
  intros Hm Hh Hs Hl Hb.
  destruct (slice_header g buf addr saddr len Hm Hh Hs ltac:(lia)) as [R1 R2].
  rewrite (proj2 (Z.ltb_lt _ _) (proj2 Hl)) in R2.
  unfold loadString.
  rewrite (bind_normal _ _ _ _ _ R1), (bind_normal _ _ _ _ _ R2).
  rewrite (bind_normal _ _ _ _ _ (memRaw_run _ _ Hm)), Hb. reflexivity.
Qed.

(** The view of [loadString] cannot be made: an address or a length
    that is read as negative, or a range outside of the memory. *)
Lemma loadString_throws g buf addr saddr len :
  memory g = Some buf ->
  ArrayBuffer.slice buf addr 16 = Some (le_split 8 saddr ++ le_split 8 len) ->
  0 <= saddr < 2 ^ 32 -> 0 <= len < 2 ^ 32 ->
  2 ^ 31 <= saddr \/ 2 ^ 31 <= len \/ ArrayBuffer.in_range buf saddr len = false ->
  loadString decode addr g = (Throw (Raised KRangeError), g).
Proof.
  intros Hm Hh Hs Hl Hbad.
  destruct (header_words g buf addr saddr len Hm Hh Hs Hl) as [R1 R2].
  assert (P : 2 ^ 32 = 2 ^ 31 + 2 ^ 31) by (by vm_compute).
  unfold loadString.
  rewrite (bind_normal _ _ _ _ _ R1), (bind_normal _ _ _ _ _ R2).
  rewrite (bind_normal _ _ _ _ _ (memRaw_run _ _ Hm)).
  unfold ArrayBuffer.slice.
  match goal with |- context [ArrayBuffer.in_range buf ?a ?l] =>
    destruct (ArrayBuffer.in_range buf a l) eqn:E end; [|reflexivity].
  exfalso. apply BufferFacts.in_range_spec in E.
  destruct (Z.ltb_spec saddr (2 ^ 31)); [|lia].
  destruct (Z.ltb_spec len (2 ^ 31)); [|lia].
  destruct Hbad as [?|[?|Hbad]]; [lia|lia|].
  apply (proj2 (BufferFacts.in_range_spec buf saddr len)) in E. congruence.
Qed.

(** X19: [stringVal] on the header of a Go string at [addr + 8] whose
    address and length words are below 2^32. With both below 2^31 and
    the bytes inside the memory, it decodes them and boxes the text at
    [addr + 24]: the slot then decodes to that string. With an address
    or a length from 2^31, which is read as a negative number, or with
    bytes outside of the memory, it throws [RangeError] and changes
    nothing. *)
Theorem stringVal_roundtrip g buf addr saddr len :
  memory g = Some buf ->
  ArrayBuffer.slice buf (addr + 8) 16 = Some (le_split 8 saddr ++ le_split 8 len) ->
  0 <= saddr < 2 ^ 32 -> 0 <= len < 2 ^ 32 ->
  (forall bytes,
     saddr < 2 ^ 31 -> len < 2 ^ 31 ->
     ArrayBuffer.slice buf saddr len = Some bytes ->
     table_ok g ->
     ArrayBuffer.in_range buf (addr + 24) 8 = true ->
     interned g (VString (decode bytes)) \/ has_room g ->
     exists g',
       stringVal decode addr g = (Normal tt, g') /\
       loadValue (addr + 24) g' = (Normal (VString (decode bytes)), g') /\
       table_ok g') /\
  (2 ^ 31 <= saddr \/ 2 ^ 31 <= len \/ ArrayBuffer.in_range buf saddr len = false ->
   stringVal decode addr g = (Throw (Raised KRangeError), g)).
Proof.
  intros Hm Hh Hs Hl. split.
  - intros bytes Hs31 Hl31 Hb Hok Hin Hroom.
    destruct (storeValue_any g (addr + 24) (VString (decode bytes)) Hok)
      as (g' & R & L & Hok' & _); [by exists buf|done|by right|].
    exists g'. split; [|done]. unfold stringVal.
    by rewrite (bind_normal _ _ _ _ _
                  (loadString_run g buf (addr + 8) saddr len bytes Hm Hh
                     ltac:(lia) ltac:(lia) Hb)).
  - intros Hbad. unfold stringVal. apply bind_throw.
    by apply (loadString_throws g buf (addr + 8) saddr len).
Qed.

(** X20: [valueGet] has no [try]: once its operands are read, what the
    property read returns is boxed at [addr + 32], and what it throws
    leaves [valueGet] as it is, with nothing written by [valueGet]. *)
Theorem valueGet_outcome g addr obj prop g1 :
  loadValue (addr + 8) g = (Normal obj, g) ->
  loadString decode (addr + 16) g = (Normal prop, g) ->
  (forall val,
     js_get obj prop g = (Normal val, g1) ->
     table_ok g1 -> addressable g1 (addr + 32) 8 -> wf_value val ->
     primitive val \/ interned g1 val \/ has_room g1 ->
     exists g',
       valueGet js_get decode addr g = (Normal tt, g') /\
       loadValue (addr + 32) g' = (Normal val, g')) /\
  (forall e,
     js_get obj prop g = (Throw e, g1) ->
     valueGet js_get decode addr g = (Throw e, g1)).
Proof.
  intros Hobj Hprop. split.
  - intros val Hget Hok Ha Hwf Hv.
    destruct (storeValue_any g1 (addr + 32) val Hok Ha Hwf Hv) as (g' & R & L & _).
    exists g'. split; [|done]. unfold valueGet.
    by rewrite (bind_normal _ _ _ _ _ Hobj), (bind_normal _ _ _ _ _ Hprop),
      (bind_normal _ _ _ _ _ Hget).
  - intros e Hget. unfold valueGet.
    by rewrite (bind_normal _ _ _ _ _ Hobj), (bind_normal _ _ _ _ _ Hprop),
      (bind_throw _ _ _ _ _ Hget).
Qed.

End StringFacts.

Lemma stringVal_roundtrip_witness :
  exists g',
    stringVal ascii_decode 8 property_go = (Normal tt, g') /\
    loadValue 32 g' = (Normal (VString "hi"), g').
Proof.
  destruct (stringVal_roundtrip ascii_decode property_go
              (replicate 8 Byte.x00
               ++ le_split 4 5 ++ le_split 4 nanHead
               ++ le_split 8 48 ++ le_split 8 2
               ++ replicate 16 Byte.x00
               ++ [Byte.x68; Byte.x69] ++ replicate 6 Byte.x00)
              8 48 2)
    as [H _]; [reflexivity|reflexivity|by vm_compute|by vm_compute|].
  destruct (H [Byte.x68; Byte.x69]) as (g' & R & L & _).
  - by vm_compute.
  - by vm_compute.
  - reflexivity.
  - apply table_ok_with_memory, table_ok_load.
  - reflexivity.
  - right. eexists. split; [reflexivity|]. by vm_compute.
  - by exists g'.
Defined.

Lemma valueGet_outcome_witness :
  (exists g',
     valueGet (fun _ prop => ret (VString prop)) ascii_decode 0 property_go
       = (Normal tt, g') /\
     loadValue 32 g' = (Normal (VString "hi"), g')) /\
  valueGet (fun _ _ => throw (Thrown VNull)) ascii_decode 0 property_go
    = (Throw (Thrown VNull), property_go).
Proof.
  split.
  - destruct (valueGet_outcome (fun _ prop => ret (VString prop)) ascii_decode
                property_go 0 internalGlobal "hi" property_go) as [H _];
      [by vm_compute|by vm_compute|].
    apply (H (VString "hi")).
    + reflexivity.
    + apply table_ok_with_memory, table_ok_load.
    + eexists. split; [reflexivity|reflexivity].
    + exact I.
    + right. right. eexists. split; [reflexivity|]. by vm_compute.
  - destruct (valueGet_outcome (fun _ _ => throw (Thrown VNull)) ascii_decode
                property_go 0 internalGlobal "hi" property_go) as [_ H];
      [by vm_compute|by vm_compute|].
    by apply H.
Defined.

(** ** A new [load] *)

(** X21: [reset] makes a bridge runnable again, whatever state it was
    in (exited, or stopped by an error with [running] set): under the
    conditions of the marshalling on the new memory, [run] gets to its
    loop, with a value table in place. The environment is the one from
    before. *)
Theorem reset_makes_runnable inst params g :
  Z.of_nat (length (buffer inst)) <= 2 ^ 32 ->
  Forall ascii7 params ->
  (forall k v, env g !! k = Some v -> plain k /\ plain v) ->
  block_end (map JSON_stringify ("main.wasm"%string :: params) ++ environ g) 4096
    + 8 * Z.of_nat (S (length params) + 1 + length (environ g))
    <= Z.of_nat (length (buffer inst)) ->
  exists argv g' buf',
    run_prepare params (reset inst g)
      = (Normal (Z.of_nat (length params) + 1, argv), g') /\
    running g' = true /\ exited g' = false /\ table_ok g' /\
    memory g' = Some buf' /\
    decodes_to buf' argv
      (map JSON_stringify ("main.wasm"%string :: params)) (environ g).
Proof.
  intros Hlen Hp He Hend.
  assert (Henv : env (reset inst g) = env g) by (by destruct g).
  assert (Hen : environ (reset inst g) = environ g).
  { unfold environ. by rewrite Henv. }
  assert (Hm : memory (reset inst g) = Some (buffer inst)) by (by destruct g).
  destruct (run_prepare_run params (reset inst g) (buffer inst))
    as (buf' & R & _ & D & _);
    [by destruct g|done|done|done| |by rewrite Hen|].
  { apply environ_plain. by rewrite Henv. }
  rewrite Hen in R, D.
  eexists _, _, buf'. split; [|split; [|split; [|split; [|split; [|exact D]]]]].
  - rewrite R. do 3 f_equal. lia.
  - transitivity (running (set_running true (reset inst g)));
      [apply with_memory_fields|by destruct g].
  - transitivity (exited (set_running true (reset inst g)));
      [apply with_memory_fields|by destruct g].
  - apply table_ok_with_memory.
    destruct (table_ok_load inst g) as (values & refs & Hv & Hr & H).
    exists values, refs. split; [by rewrite <- Hv; destruct g|].
    split; [by rewrite <- Hr; destruct g|done].
  - apply (memory_with_memory _ _ (buffer inst)). by rewrite memory_set_running.
Qed.

Lemma reset_makes_runnable_witness :
  exists argv g' buf',
    run_prepare ["7"%string] (reset (zero_instance 4400) exited_go)
      = (Normal (2, argv), g') /\
    running g' = true /\ exited g' = false /\ table_ok g' /\
    memory g' = Some buf' /\
    decodes_to buf' argv
      (map JSON_stringify ["main.wasm"%string; "7"%string]) [].
Proof.
  apply (reset_makes_runnable (zero_instance 4400) ["7"%string] exited_go).
  - by vm_compute.
  - repeat constructor; by vm_compute.
  - intros k v H. change (env exited_go) with (∅ : gmap string string) in H.
    by rewrite lookup_empty in H.
  - by vm_compute.
Defined.

(** X22: the environment strings that [run] writes: one entry
    [key=value] per key, in the order of [Object.keys(this.env).sort()],
    which is ascending. *)
Theorem run_environment_entries g :
  length (environ g) = size (env g) /\
  (forall s, s ∈ environ g <->
     exists k v, env g !! k = Some v /\ s = k +:+ "=" +:+ v) /\
  (forall i, environ g !! i
     = (fun k => k +:+ "=" +:+ default ""%string (env g !! k))
         <$> sorted_keys (env g) !! i) /\
  Sorted (fun a b : string => Is_true (String.leb a b)) (sorted_keys (env g)).
Proof.
  destruct (sorted_keys_spec (env g)) as (Hs & Hn & Hk).
  split; [|split; [|split]].
  - unfold environ, sorted_keys. rewrite length_map.
    rewrite (Permutation_length
               (merge_sort_Permutation
                  (fun a b : string => Is_true (String.leb a b))
                  (map fst (map_to_list (env g))))).
    rewrite length_map. apply length_map_to_list.
  - intros s. unfold environ. rewrite list_elem_of_fmap. split.
    + intros (k & -> & Hin). apply Hk in Hin as [v Hv]. exists k, v.
      by rewrite Hv.
    + intros (k & v & Hv & ->). exists k. rewrite Hv. split; [done|].
      apply Hk. eauto.
  - intros i. unfold environ. apply list_lookup_fmap.
  - exact Hs.
Qed.

(** ** The guest program *)

Lemma fibonacci_step k : fibonacci (S (S k)) = fibonacci (S k) + fibonacci k.
Proof. unfold fibonacci. simpl. lia. Qed.

Lemma fibonacci_pos k : 0 <= fibonacci k /\ 0 < fibonacci (S k).
Proof.
  induction k as [|k [IH1 IH2]]; [split; by vm_compute|].
  rewrite fibonacci_step. lia.
Qed.

Lemma fibonacci_mono k k' : (k <= k')%nat -> fibonacci k <= fibonacci k'.
Proof.
  induction 1 as [|k' Hle IH]; [lia|].
  destruct k' as [|k']; [assert (k = 0%nat) as -> by lia; by vm_compute|].
  rewrite fibonacci_step. pose proof (fibonacci_pos k'). lia.
Qed.

Lemma int_wrap_add a b : int_wrap (int_wrap a + int_wrap b) = int_wrap (a + b).
Proof.
  unfold int_wrap.
  replace ((a + 2 ^ 63) mod 2 ^ 64 - 2 ^ 63 + ((b + 2 ^ 63) mod 2 ^ 64 - 2 ^ 63) + 2 ^ 63)
    with ((a + 2 ^ 63) mod 2 ^ 64 + ((b + 2 ^ 63) mod 2 ^ 64 - 2 ^ 63)) by lia.
  rewrite Zplus_mod_idemp_l.
  replace (a + 2 ^ 63 + ((b + 2 ^ 63) mod 2 ^ 64 - 2 ^ 63))
    with ((b + 2 ^ 63) mod 2 ^ 64 + a) by lia.
  rewrite Zplus_mod_idemp_l. do 2 f_equal. lia.
Qed.

Lemma int_wrap_small z : - 2 ^ 63 <= z < 2 ^ 63 -> int_wrap z = z.
Proof. intros H. unfold int_wrap. rewrite Z.mod_small; lia. Qed.

(** [fib] with enough fuel: 1 up to 2, the wrapped Fibonacci number
    from 3. *)
Lemma fib_run fuel : forall n,
  (Z.to_nat n < fuel)%nat ->
  fib fuel n = Some (if n <=? 2 then 1 else int_wrap (fibonacci (Z.to_nat n))).
Proof.
  induction fuel as [|fuel IH]; intros n Hf; [lia|].
  cbn [fib]. destruct (n <=? 2) eqn:E; [done|]. apply Z.leb_gt in E.
  rewrite (IH (n - 1)), (IH (n - 2)) by lia. cbn [mbind option_bind].
  f_equal.
  replace (Z.to_nat n) with (S (S (Z.to_nat (n - 2)))) by lia.
  replace (Z.to_nat (n - 1)) with (S (Z.to_nat (n - 2))) by lia.
  rewrite fibonacci_step.
  destruct (n - 1 <=? 2) eqn:E1; destruct (n - 2 <=? 2) eqn:E2;
    try apply Z.leb_le in E1; try apply Z.leb_le in E2;
    try apply Z.leb_gt in E1; try apply Z.leb_gt in E2; try lia.
  - replace (Z.to_nat (n - 2)) with 1%nat by lia. by vm_compute.
  - replace (Z.to_nat (n - 2)) with 2%nat by lia. by vm_compute.
  - apply int_wrap_add.
Qed.

(** X23: [fib] returns, and up to 92 without overflow: 1 for every
    argument up to 2, zero and the negative ones included, and the
    Fibonacci number from 3 to 92. *)
Theorem fib_exact n fuel :
  (Z.to_nat n < fuel)%nat -> n <= 92 ->
  fib fuel n = Some (if n <=? 2 then 1 else fibonacci (Z.to_nat n)).
Proof.
  intros Hf Hn. rewrite (fib_run fuel n Hf).
  destruct (n <=? 2); [done|]. f_equal. apply int_wrap_small.
  pose proof (fibonacci_pos (Z.to_nat n)) as [P _].
  pose proof (fibonacci_mono (Z.to_nat n) 92 ltac:(lia)) as M.
  assert (B : fibonacci 92 < 2 ^ 63) by (by vm_compute).
  assert (B' : - 2 ^ 63 <= 0) by (by vm_compute).
  lia.
Qed.

Lemma fib_exact_witness :
  fib 93 92 = Some 7540113804746346429 /\ fib 1 (-5) = Some 1.
Proof.
  split.
  - rewrite (fib_exact 92 93) by lia. by vm_compute.
  - rewrite (fib_exact (-5) 1) by lia. by vm_compute.
Defined.

(** X24: from 3 on [fib] gives the Fibonacci number wrapped to 64 bits;
    at 93, the first that does not fit, the result is negative. *)
Theorem fib_wraps n fuel :
  3 <= n -> (Z.to_nat n < fuel)%nat ->
  fib fuel n = Some (int_wrap (fibonacci (Z.to_nat n))) /\
  (n = 93 -> int_wrap (fibonacci (Z.to_nat n)) = fibonacci 93 - 2 ^ 64 /\
             fibonacci 93 - 2 ^ 64 < 0).
Proof.
  intros Hn Hf. split.
  - rewrite (fib_run fuel n Hf). rewrite (proj2 (Z.leb_gt n 2)) by lia. reflexivity.
  - intros ->. clear. split; vm_compute; reflexivity.
Qed.

Lemma fib_wraps_witness :
  fib 94 93 = Some (-6246583658587674878).
Proof.
  destruct (fib_wraps 93 94) as [R _]; [lia|lia|].
  rewrite R. clear R. vm_compute. reflexivity.
Defined.

(** X25: without a second argument, and when [Atoi] gives 0 for it,
    [main] takes 10 and prints the line "fib(10) = 55". *)
Theorem main_default Atoi Args fuel :
  (length Args <= 1)%nat \/ Atoi (nth 1 Args ""%string) = 0 ->
  (10 < fuel)%nat ->
  main Atoi fuel Args = Some ("fib(10) = 55" +:+ String line_feed EmptyString).
Proof.
  intros H Hf. unfold main. cbv zeta.
  assert (E : (if 1 <? Z.of_nat (length Args)
               then Atoi (nth 1 Args ""%string) else 0) = 0).
  { destruct (1 <? Z.of_nat (length Args)) eqn:E; [|done].
    apply Z.ltb_lt in E. destruct H as [H|H]; [lia|done]. }
  rewrite E. cbn [Z.eqb]. rewrite (fib_run fuel 10) by lia.
  by vm_compute.
Qed.

Lemma main_default_witness :
  main (fun _ => 0) 11 ["main.wasm"%string] = Some ("fib(10) = 55" +:+ String line_feed EmptyString).
Proof.
  apply (main_default (fun _ => 0) ["main.wasm"%string] 11); [left; simpl; lia|lia].
Defined.

(** ** Views and failed writes *)

(** X26: [loadSlice] on a header with an offset below 2^31: the view of
    [len] bytes at [array] when the length is below 2^31 and the range
    is inside the memory; [RangeError] otherwise, a length from 2^31
    being read as a negative number. *)
Theorem loadSlice_view g buf addr array len :
  memory g = Some buf ->
  ArrayBuffer.slice buf addr 16 = Some (le_split 8 array ++ le_split 8 len) ->
  0 <= array < 2 ^ 31 -> 0 <= len < 2 ^ 32 ->
  loadSlice addr g
    = (if (len <? 2 ^ 31) && ArrayBuffer.in_range buf array len
       then Normal (array, len) else Throw (Raised KRangeError), g).
Proof.
  intros Hm Hh Ha Hl.
  destruct (slice_header g buf addr array len Hm Hh Ha Hl) as [R1 R2].
  unfold loadSlice.
  rewrite (bind_normal _ _ _ _ _ R1), (bind_normal _ _ _ _ _ R2).
  rewrite (bind_normal _ _ _ _ _ (memRaw_run _ _ Hm)).
  unfold ArrayBuffer.slice. destruct (len <? 2 ^ 31) eqn:E.
  - cbn [andb]. by destruct (ArrayBuffer.in_range buf array len).
  - cbn [andb]. apply Z.ltb_ge in E.
    assert (F : ArrayBuffer.in_range buf array (len - 2 ^ 32) = false).
    { destruct (ArrayBuffer.in_range buf array (len - 2 ^ 32)) eqn:F; [|done].
      apply BufferFacts.in_range_spec in F. lia. }
    by rewrite F.
Qed.

Lemma loadSlice_view_witness :
  loadSlice 0 slice_go = (Normal (16, 2), slice_go).
Proof.
  apply (loadSlice_view slice_go
           (le_split 8 16 ++ le_split 8 2 ++ replicate 16 Byte.x00) 0 16 2);
    [reflexivity|reflexivity|lia|lia].
Defined.

Lemma setUint32_outside g buf addr v :
  memory g = Some buf -> ArrayBuffer.in_range buf addr 4 = false ->
  setUint32 addr v g = (Throw (Raised KRangeError), g).
Proof.
  intros Hm Hin. unfold setUint32.
  rewrite (bind_normal _ _ _ _ _ (memRaw_run _ _ Hm)).
  unfold DataView.setUint32, ArrayBuffer.blit. rewrite Z.add_0_r, length_le_split.
  change (Z.of_nat 4) with 4. by rewrite Hin.
Qed.

(** X27: [storeValue] of a value that is new to the table, on a slot
    whose high word is outside of the memory: the write throws
    [RangeError] after the value got its index, so the table keeps an
    entry that no slot refers to. *)
Theorem storeValue_outside_keeps_entry g buf addr v values refs :
  memory g = Some buf -> ArrayBuffer.in_range buf (addr + 4) 4 = false ->
  ~ primitive v ->
  _values g = Some values -> _refs g = Some refs -> refs !! v = None ->
  Z.of_nat (length values) < 2 ^ 32 - 1 ->
  exists g',
    storeValue addr v g = (Throw (Raised KRangeError), g') /\
    _values g' = Some (values ++ [v]) /\
    _refs g' = Some (<[v := Z.of_nat (length values)]> refs) /\
    memory g' = Some buf.
Proof.
  intros Hm Hin Hp Hv Hr Hn Hroom.
  rewrite (storeValue_interns g addr v values refs Hp Hv Hr (or_intror Hroom)).
  unfold intern. rewrite Hn. cbn [fst snd].
  set (g' := set_table (values ++ [v]) (<[v:=Z.of_nat (length values)]> refs) g).
  assert (Hm' : memory g' = Some buf) by (by rewrite <- Hm; destruct g).
  exists g'. split; [|split; [by destruct g|split; [by destruct g|done]]].
  apply bind_throw. by apply (setUint32_outside g' buf).
Qed.

Lemma storeValue_outside_keeps_entry_witness :
  exists g',
    storeValue 12 (VString "x") (fresh_go 16) = (Throw (Raised KRangeError), g') /\
    _values g' = Some ([VNumber NaN; VUndefined; VNull; VBool true; VBool false;
                        internalGlobal; VObject (WasmMemory 0);
                        VObject (GoInstance 0)] ++ [VString "x"]).
Proof.
  destruct (storeValue_outside_keeps_entry (fresh_go 16) (replicate 16 Byte.x00) 12
              (VString "x")
              [VNumber NaN; VUndefined; VNull; VBool true; VBool false;
               internalGlobal; VObject (WasmMemory 0); VObject (GoInstance 0)] ∅)
    as (g' & R & Hv & _).
  - reflexivity.
  - reflexivity.
  - simpl. tauto.
  - reflexivity.
  - reflexivity.
  - apply lookup_empty.
  - by vm_compute.
  - by exists g'.
Defined.
